(** * CineMatch: the recommendation relay of [index.js], embedded in Rocq

    The addon resolves an IMDb identifier to a TMDb identifier, fetches the
    source title and two candidate lists, and merges, filters, scores, sorts
    and truncates them into a list of pseudo-streams.

    Conventions of the embedding:
    - a JavaScript number is an IEEE 754 binary64 value, so it is a
      primitive [float]; the arithmetic of the program is the arithmetic of
      [PrimFloat], with its rounding, infinities, signed zeros and NaN;
    - a numeric property of a JSON object is a [JS.value]: absent
      ([Undefined]), [Null], or a number; an identifier is an integer, as
      in the data model, of the magnitude that a number holds exactly;
    - the objects that the provider answers have the shape of the data
      model: a property holds a value of its type or is missing;
    - [console] output and exceptions are the two effects of the program:
      a computation is a list of log entries and either a value or a thrown
      error (the monad [M]);
    - the metadata provider is a function from a URL and the number of the
      attempt to what [fetch] does on that attempt, so that every behaviour
      of the provider in which each request settles is covered;
    - time is not part of the model: neither the back-off delays between
      attempts, nor the timestamps and durations written to the console. *)

From Stdlib Require Import ZArith List String Ascii Bool Lia Floats Zpower.
From Stdlib Require Import DecimalString DecimalPos DecimalZ Sorted Permutation.
Import ListNotations.

Local Open Scope list_scope.
Local Open Scope string_scope.

(** ** JavaScript values and the operators the program applies to them *)

Module JS.

(** [!x] on a number is true for [+0], [-0] and [NaN]. *)
Definition truthy (x : float) : bool := negb (is_nan x || is_zero x).

Inductive value : Type :=
| Undefined
| Null
| Num (x : float).

Definition ToBoolean (v : value) : bool :=
  match v with
  | Undefined | Null => false
  | Num x => truthy x
  end.

Definition ToNumber (v : value) : float :=
  match v with
  | Undefined => nan
  | Null => 0%float
  | Num x => x
  end.

(** [a >= b]: false as soon as one side is NaN. *)
Definition ge (a b : value) : bool := (ToNumber b <=? ToNumber a)%float.

(** [v || d] where [d] is a number and the result is used as a number. *)
Definition or_number (v : value) (d : float) : float :=
  if ToBoolean v then ToNumber v else d.

(** [Math.min] on two numbers: NaN if either is NaN, and [-0] below [+0]. *)
Definition Math_min (x y : float) : float :=
  if is_nan x || is_nan y then nan
  else if (x <? y)%float then x
  else if (y <? x)%float then y
  else if get_sign x then x else y.

(** A string is truthy when it is not empty; an absent one is falsy. *)
Definition truthy_string (s : option string) : bool :=
  match s with
  | Some (String _ _) => true
  | _ => false
  end.

(** [a || b] on two optional strings. *)
Definition or_string (a b : option string) : option string :=
  if truthy_string a then a else b.

(** [ToIntegerOrInfinity]: NaN and the zeros give 0, a finite number is
    truncated towards zero. *)
Inductive integer_or_infinity : Type :=
| MinusInfinity
| Integer (z : Z)
| PlusInfinity.

Definition ToIntegerOrInfinity (x : float) : integer_or_infinity :=
  match Prim2SF x with
  | S754_nan => Integer 0
  | S754_zero _ => Integer 0
  | S754_infinity s => if s then MinusInfinity else PlusInfinity
  | S754_finite s m e => Integer (cond_Zopp s (Z.shiftl (Zpos m) e))
  end.

(** [arr.slice(0, end)]: a negative [end] counts from the end of the array. *)
Definition slice_final (len : Z) (relativeEnd : integer_or_infinity) : Z :=
  match relativeEnd with
  | MinusInfinity => 0
  | Integer z => if (z <? 0)%Z then Z.max (len + z) 0 else Z.min z len
  | PlusInfinity => len
  end.

Definition slice0 {A : Type} (arr : list A) (end_ : float) : list A :=
  let len := Z.of_nat (List.length arr) in
  let final := slice_final len (ToIntegerOrInfinity end_) in
  firstn (Z.to_nat (Z.max final 0)) arr.

(** [arr.findIndex(p)]: the index of the first element satisfying [p],
    or [-1]. *)
Fixpoint findIndex_from {A : Type} (p : A -> bool) (arr : list A) (i : Z) : Z :=
  match arr with
  | [] => (-1)%Z
  | x :: rest => if p x then i else findIndex_from p rest (i + 1)%Z
  end.

Definition findIndex {A : Type} (p : A -> bool) (arr : list A) : Z :=
  findIndex_from p arr 0.

(** [arr.filter((item, index, self) => ...)]: the callback sees the
    element, its index and the whole array. *)
Fixpoint filter_from {A : Type} (p : A -> Z -> list A -> bool)
         (self rest : list A) (i : Z) : list A :=
  match rest with
  | [] => []
  | x :: rest' =>
      if p x i self then x :: filter_from p self rest' (i + 1)%Z
      else filter_from p self rest' (i + 1)%Z
  end.

Definition filter_indexed {A : Type} (p : A -> Z -> list A -> bool)
           (arr : list A) : list A :=
  filter_from p arr arr 0.

(** [arr.sort(comparefn)].  The comparator's result [v] is read as a
    number, NaN counting as [+0]; [v > 0] puts the first argument after
    the second.  The sort is stable, and for a consistent comparator the
    result is the unique stable sorted arrangement of the array; it is
    computed here by stable insertion.  For a comparator that is not
    consistent (here: when a score is NaN) the language leaves the order
    to the implementation, which only rearranges the array: what is
    stated of the order of a sorted array is stated for scores that are
    numbers. *)
Definition SortCompare {A : Type} (comparefn : A -> A -> float) (x y : A) : float :=
  let v := comparefn x y in
  if is_nan v then 0%float else v.

Fixpoint sort_insert {A : Type} (comparefn : A -> A -> float)
         (x : A) (sorted : list A) : list A :=
  match sorted with
  | [] => [x]
  | y :: rest =>
      if (0 <? SortCompare comparefn x y)%float
      then y :: sort_insert comparefn x rest
      else x :: y :: rest
  end.

Definition sort {A : Type} (comparefn : A -> A -> float) (arr : list A) : list A :=
  fold_right (sort_insert comparefn) [] arr.

(** [s.split(sep)[0]]: the part of [s] before the first separator. *)
Fixpoint split_head (sep : ascii) (s : string) : string :=
  match s with
  | EmptyString => EmptyString
  | String c rest =>
      if Ascii.eqb c sep then EmptyString else String c (split_head sep rest)
  end.

(** Template-literal interpolation of an integer-valued number: its
    decimal digits, as the language prints an integer of magnitude below
    [10^21]. *)
Definition string_of_Z (z : Z) : string := NilZero.string_of_int (Z.to_int z).
Definition string_of_nat (n : nat) : string := string_of_Z (Z.of_nat n).

End JS.

(** ** Data model *)

(** A TMDb item as the program reads it: a candidate, an entry of the
    lookup result, or the scalar properties of the source title. *)
Record item : Type := {
  id : Z;
  title : option string;
  name : option string;
  popularity : JS.value;
  vote_average : JS.value;
  vote_count : JS.value;
  release_date : option string;
  first_air_date : option string;
  backdrop_path : option string;
  poster_path : option string
}.

(** A JSON object returned by the provider: the array properties the program
    reads, and its scalar properties. *)
Record json : Type := {
  movie_results : option (list item);
  tv_results : option (list item);
  results : option (list item);
  props : item
}.

(** [{...item, relevanceScore}] *)
Record ranked : Type := {
  base : item;
  relevanceScore : float
}.

Record stream : Type := {
  stream_name : string;
  stream_title : option string;
  url : string;
  thumbnail : option string;
  bingeGroup : string
}.

Record response_body : Type := { streams : list stream }.

(** Process-wide configuration, read once at startup. *)
Record config : Type := {
  TMDB_API_KEY : string;
  MINIMUM_VOTE_COUNT : float;
  MAX_RECOMMENDATIONS : float
}.

(** ** Effects: console output and exceptions *)

Inductive level : Type := LOG | WARN | ERROR.

Definition entry : Type := (level * string)%type.

Inductive exn : Type := Error (message : string).

Definition message_of (e : exn) : string := let 'Error m := e in m.

Inductive outcome (A : Type) : Type :=
| Ok (a : A)
| Throw (e : exn).
Arguments Ok {A} a.
Arguments Throw {A} e.

Definition M (A : Type) : Type := (list entry * outcome A)%type.

Definition ret {A : Type} (a : A) : M A := ([], Ok a).

Definition throw {A : Type} (e : exn) : M A := ([], Throw e).

Definition bind {A B : Type} (m : M A) (k : A -> M B) : M B :=
  match m with
  | (l, Ok a) => let '(l', r) := k a in ((l ++ l')%list, r)
  | (l, Throw e) => (l, Throw e)
  end.

(** [try { m } catch (error) { handler error }] *)
Definition try_catch {A : Type} (m : M A) (handler : exn -> M A) : M A :=
  match m with
  | (l, Ok a) => (l, Ok a)
  | (l, Throw e) => let '(l', r) := handler e in ((l ++ l')%list, r)
  end.

Definition console (lv : level) (text : string) : M unit := ([(lv, text)], Ok tt).

Notation "x <- m ;; k" := (bind m (fun x => k))
  (at level 61, m at next level, right associativity).
Notation "m ;;; k" := (bind m (fun _ => k))
  (at level 61, right associativity).

Fixpoint mapM {A B : Type} (callback : A -> M B) (arr : list A) : M (list B) :=
  match arr with
  | [] => ret []
  | x :: rest =>
      y <- callback x ;;
      ys <- mapM callback rest ;;
      ret (y :: ys)
  end.

Definition logs {A : Type} (m : M A) : list entry := fst m.
Definition result {A : Type} (m : M A) : outcome A := snd m.

(** [logError(context, error)]; the timestamp and the stack are not part of
    the entry. *)
Definition logError (context : string) (error : exn) : M unit :=
  console ERROR ("Error in " ++ context ++ ": " ++ message_of error).

(** ** The metadata provider *)

(** What [fetch] resolves to: the [ok] flag, the status, and what
    [response.json()] gives ([Throw] when the body is not JSON, [None] for
    the JSON value [null]). *)
Record response : Type := {
  ok : bool;
  status : Z;
  body : outcome (option json)
}.

(** The provider answers a URL on a given attempt; [Throw] is a network
    failure. *)
Definition provider : Type := string -> nat -> outcome response.

(** Reading a property of [data]: a [TypeError] when [data] is [null] or
    [undefined]. *)
Definition get {A : Type} (data : option json) (field : json -> A) : M A :=
  match data with
  | None => throw (Error "TypeError: Cannot read properties of null")
  | Some d => ret (field d)
  end.

(** [data.results || []] *)
Definition or_empty (l : option (list item)) : list item :=
  match l with
  | Some l => l
  | None => []
  end.

Section Addon.

Variable cfg : config.
Variable fetch : provider.

(** [Number.prototype.toFixed], a primitive of the host. *)
Variable toFixed : float -> nat -> string.

(** *** fetchWithRetry *)

(** One pass through the body of the [try]. *)
Definition attempt (url : string) (i : nat) : M (option json) :=
  match fetch url i with
  | Throw e => throw e
  | Ok r =>
      if negb (ok r)
      then throw (Error ("HTTP error! status: " ++ JS.string_of_Z (status r)))
      else match body r with
           | Throw e => throw e
           | Ok data => ret data
           end
  end.

(** The [for] loop from index [i], with [n] iterations left; falling out
    of the loop returns [undefined].  The back-off delay between two
    attempts is not part of the model. *)
Fixpoint fetch_loop (url : string) (retries : nat) (n i : nat) : M (option json) :=
  match n with
  | O => ret None
  | S n' =>
      try_catch (attempt url i)
        (fun error =>
           if Nat.eqb i (retries - 1) then throw error
           else fetch_loop url retries n' (S i))
  end.

Definition fetchWithRetry (url : string) (retries : nat) : M (option json) :=
  fetch_loop url retries retries 0.

(** *** Helper functions *)

Definition media_type (type : string) : string :=
  if String.eqb type "series" then "tv" else type.

Definition find_url (imdbId : string) : string :=
  "https://api.themoviedb.org/3/find/" ++ imdbId ++ "?api_key="
    ++ TMDB_API_KEY cfg ++ "&external_source=imdb_id".

Definition details_url (mediaType : string) (tmdbId : Z) : string :=
  "https://api.themoviedb.org/3/" ++ mediaType ++ "/" ++ JS.string_of_Z tmdbId
    ++ "?api_key=" ++ TMDB_API_KEY cfg.

Definition similar_url (mediaType : string) (tmdbId : Z) : string :=
  "https://api.themoviedb.org/3/" ++ mediaType ++ "/" ++ JS.string_of_Z tmdbId
    ++ "/similar?api_key=" ++ TMDB_API_KEY cfg ++ "&page=1".

Definition recommendations_url (mediaType : string) (tmdbId : Z) : string :=
  "https://api.themoviedb.org/3/" ++ mediaType ++ "/" ++ JS.string_of_Z tmdbId
    ++ "/recommendations?api_key=" ++ TMDB_API_KEY cfg ++ "&page=1".

(** [null] is [None]. *)
Definition getTMDbId (imdbId type : string) : M (option Z) :=
  try_catch
    (console LOG ("[getTMDbId] Searching for " ++ type ++ " with IMDb ID: " ++ imdbId) ;;;
     data <- fetchWithRetry (find_url imdbId) 3 ;;
     results <- (if String.eqb type "movie"
                 then get data movie_results else get data tv_results) ;;
     match results with
     | None | Some [] =>
         console WARN ("[getTMDbId] No " ++ type ++ " found for IMDb ID: " ++ imdbId) ;;;
         ret None
     | Some (first :: _) =>
         console LOG ("[getTMDbId] Found TMDb ID: " ++ JS.string_of_Z (id first)) ;;;
         ret (Some (id first))
     end)
    (fun error => logError "getTMDbId" error ;;; ret None).

Definition getTMDbSimilar (tmdbId : Z) (type : string) : M (list item) :=
  try_catch
    (let mediaType := media_type type in
     console LOG ("[getTMDbSimilar] Fetching similar " ++ mediaType
                    ++ " for TMDb ID: " ++ JS.string_of_Z tmdbId) ;;;
     data <- fetchWithRetry (similar_url mediaType tmdbId) 3 ;;
     found <- get data results ;;
     console LOG ("[getTMDbSimilar] Found "
                    ++ JS.string_of_nat (List.length (or_empty found))
                    ++ " similar items") ;;;
     ret (or_empty found))
    (fun error => logError "getTMDbSimilar" error ;;; ret []).

Definition getTMDbRecommendations (tmdbId : Z) (type : string) : M (list item) :=
  try_catch
    (let mediaType := media_type type in
     console LOG ("[getTMDbRecommendations] Fetching recommendations for TMDb ID: "
                    ++ JS.string_of_Z tmdbId) ;;;
     data <- fetchWithRetry (recommendations_url mediaType tmdbId) 3 ;;
     found <- get data results ;;
     console LOG ("[getTMDbRecommendations] Found "
                    ++ JS.string_of_nat (List.length (or_empty found))
                    ++ " recommended items") ;;;
     ret (or_empty found))
    (fun error => logError "getTMDbRecommendations" error ;;; ret []).

(** [sourceDetails?.popularity] *)
Definition source_popularity (sourceDetails : option json) : JS.value :=
  match sourceDetails with
  | None => JS.Undefined
  | Some d => popularity (props d)
  end.

(** *** calculateRelevanceScore *)

(** [Math.min(item.popularity / sourceDetails.popularity, 1) * 50] *)
Definition popularityScore (it : item) (sourceDetails : option json) : float :=
  (JS.Math_min (JS.ToNumber (popularity it)
                / JS.ToNumber (source_popularity sourceDetails)) 1 * 50)%float.

(** [((item.vote_average || 0) / 10) * 50] *)
Definition ratingScore (it : item) : float :=
  (JS.or_number (vote_average it) 0 / 10 * 50)%float.

Definition calculateRelevanceScore (it : item) (sourceDetails : option json) : M float :=
  try_catch
    (if negb (JS.ToBoolean (source_popularity sourceDetails))
        || negb (JS.ToBoolean (popularity it))
     then
       console WARN "[calculateRelevanceScore] Missing popularity data" ;;;
       ret 0%float
     else
       ret (popularityScore it sourceDetails + ratingScore it)%float)
    (fun error => logError "calculateRelevanceScore" error ;;; ret 0%float).

(** *** The merge / filter / rank pipeline *)

Definition first_occurrence (it : item) (index : Z) (self : list item) : bool :=
  (index =? JS.findIndex (fun t => (id t =? id it)%Z) self)%Z.

Definition enough_votes (it : item) : bool :=
  JS.ge (vote_count it) (JS.Num (MINIMUM_VOTE_COUNT cfg)).

Definition by_score_desc (a b : ranked) : float :=
  (relevanceScore b - relevanceScore a)%float.

Definition allRecommendations (similar recommended : list item)
           (sourceDetails : option json) : M (list ranked) :=
  scored <- mapM (fun it =>
                    score <- calculateRelevanceScore it sourceDetails ;;
                    ret {| base := it; relevanceScore := score |})
                 (filter enough_votes
                    (JS.filter_indexed first_occurrence (similar ++ recommended)%list)) ;;
  ret (JS.slice0 (JS.sort by_score_desc scored) (MAX_RECOMMENDATIONS cfg)).

(** *** Output records *)

Definition rating_badge (rec : ranked) : string :=
  match vote_average (base rec) with
  | JS.Num v => match toFixed v 1 with
                | EmptyString => "?"
                | s => s
                end
  | _ => "?"
  end.

Definition year_of (date : option string) : option string :=
  option_map (JS.split_head "-") date.

Definition year_badge (rec : ranked) : string :=
  match JS.or_string (JS.or_string (year_of (release_date (base rec)))
                                   (year_of (first_air_date (base rec))))
                     (Some "N/A") with
  | Some s => s
  | None => "N/A"
  end.

Definition to_stream (mediaType : string) (rec : ranked) : stream :=
  {| stream_name := "⭐ " ++ rating_badge rec ++ " • " ++ year_badge rec;
     stream_title := JS.or_string (title (base rec)) (name (base rec));
     url := "https://www.themoviedb.org/" ++ mediaType ++ "/"
              ++ JS.string_of_Z (id (base rec));
     thumbnail :=
       if JS.truthy_string (backdrop_path (base rec))
       then option_map (append "https://image.tmdb.org/t/p/w780") (backdrop_path (base rec))
       else if JS.truthy_string (poster_path (base rec))
            then option_map (append "https://image.tmdb.org/t/p/w780") (poster_path (base rec))
            else None;
     bingeGroup := "cinematch-recommendations" |}.

(** *** The stream handler *)

(** The body of the handler's [try]; [!tmdbId] holds for [null] and for
    the number 0.  The two candidate fetches, started together by
    [Promise.all], do not depend on each other and are run one after the
    other. *)
Definition handler_body (type id_ : string) : M response_body :=
  let baseId := JS.split_head ":" id_ in
  let mediaType := media_type type in
  tmdbId <- getTMDbId baseId type ;;
  match tmdbId with
  | None | Some 0%Z =>
      console WARN ("[StreamHandler] No TMDb ID found for " ++ type ++ ":" ++ baseId) ;;;
      ret {| streams := [] |}
  | Some tmdb =>
      console LOG ("[StreamHandler] Fetching source details for TMDb ID: "
                     ++ JS.string_of_Z tmdb) ;;;
      sourceDetails <- fetchWithRetry (details_url mediaType tmdb) 3 ;;
      similar <- getTMDbSimilar tmdb type ;;
      recommended <- getTMDbRecommendations tmdb type ;;
      recs <- allRecommendations similar recommended sourceDetails ;;
      let streams_ := map (to_stream mediaType) recs in
      console LOG ("[StreamHandler] Completed. Found "
                     ++ JS.string_of_nat (List.length streams_) ++ " recommendations") ;;;
      ret {| streams := streams_ |}
  end.

Definition streamHandler (type id_ : string) : M response_body :=
  console LOG ("[StreamHandler] Processing request for " ++ type ++ ":" ++ id_) ;;;
  try_catch (handler_body type id_)
    (fun error => logError "StreamHandler" error ;;; ret {| streams := [] |}).

End Addon.

(** ** Process startup *)

Section Startup.

(** [parseInt] applied to an environment variable, a primitive of the
    host: an integer-valued number, or NaN. *)
Variable parseInt : option string -> float.

Record environment : Type := {
  env_TMDB_API_KEY : option string;
  env_MINIMUM_VOTE_COUNT : option string;
  env_MAX_RECOMMENDATIONS : option string
}.

Definition fallback_key : string := "62ad28e80c6de28ca22d86345e0587de".

(** [process.env.TMDB_API_KEY || '62ad...'] *)
Definition resolve_key (env : environment) : option string :=
  JS.or_string (env_TMDB_API_KEY env) (Some fallback_key).

(** [parseInt(x) || d] *)
Definition int_or (x : option string) (d : float) : float :=
  JS.or_number (JS.Num (parseInt x)) d.

Inductive process : Type :=
| Exited (code : Z)
| Serving (c : config).

(** The top level of the module: configuration, key validation, and the
    promise returned by [serveHTTP], whose outcome is given. *)
Definition startup (env : environment) (served : outcome string)
  : list entry * process :=
  let key := resolve_key env in
  let minimum := int_or (env_MINIMUM_VOTE_COUNT env) 50 in
  let maximum := int_or (env_MAX_RECOMMENDATIONS env) 30 in
  if negb (JS.truthy_string key) then
    ([(ERROR, "TMDB_API_KEY is required. Please set it in your environment variables.")],
     Exited 1)
  else
    let c := {| TMDB_API_KEY := match key with Some k => k | None => "" end;
                MINIMUM_VOTE_COUNT := minimum;
                MAX_RECOMMENDATIONS := maximum |} in
    match served with
    | Ok u =>
        ([(LOG, "=== CineMatch Addon Active ===");
          (LOG, "URL: " ++ u);
          (LOG, "Add to Stremio: " ++ u ++ "/manifest.json")],
         Serving c)
    | Throw error =>
        (logs (logError "Server Startup" error), Exited 1)
    end.

End Startup.

(** ** The value and the rounding of binary64 numbers

    What the theorems on the score and on the sort need of IEEE 754
    arithmetic is stated over [spec_float], the specification the primitive
    operations of [float] are bound to. *)

Module IEEE.

Local Open Scope Z_scope.

(** The value of a number, counted in units of [2^-1074] (the smallest
    positive binary64 number), so that every finite number is an integer;
    the infinities sit at [2^2098 = 2^1024 / 2^-1074], above every finite
    number. *)
Definition Zval (x : spec_float) : Z :=
  match x with
  | S754_zero _ => 0
  | S754_nan => 0
  | S754_infinity s => cond_Zopp s (2 ^ 2098)
  | S754_finite s m e => cond_Zopp s (Zpos m * 2 ^ (e + 1074))
  end.

Definition is_nan_sf (x : spec_float) : bool :=
  match x with S754_nan => true | _ => false end.

(** Zero, a positive finite number, or plus infinity. *)
Definition nonneg_sf (x : spec_float) : Prop :=
  match x with
  | S754_zero _ => True
  | S754_finite s _ _ => s = false
  | S754_infinity s => s = false
  | S754_nan => False
  end.

(** Zero or a positive finite number. *)
Definition fin_nonneg (x : spec_float) : Prop :=
  match x with
  | S754_zero _ => True
  | S754_finite s _ _ => s = false
  | _ => False
  end.

(** The integer nearest to [num / den], ties to even. *)
Definition rneQ (num den : Z) : Z :=
  let q := num / den in
  match 2 * (num mod den) ?= den with
  | Lt => q
  | Gt => q + 1
  | Eq => if Z.even q then q else q + 1
  end.

(** Overflow: what reaches [2^1024] becomes infinity. *)
Definition sat (z : Z) : Z := Z.min z (2 ^ 2098).

(** A shifted significand with its round and sticky bits stands for the
    rational [N / D]. *)
Definition rec_ok (mrs : shr_record) (N D : Z) : Prop :=
  0 <= N /\ 0 < D /\ shr_m mrs = N / D /\
  shr_r mrs = (D <=? 2 * (N mod D)) /\
  shr_s mrs = negb (N mod D =? 0) && negb (2 * (N mod D) =? D).

(** [r] is the rounding of [(num / den) * 2^k] units, where [num / den]
    is a significand of at most 53 bits, of exactly 53 bits unless [k] is
    the least exponent. *)
Definition rounds_to (num den k : Z) (r : spec_float) : Prop :=
  0 <= num /\ 0 < den /\ 0 <= k /\ num / den < 2 ^ 53 /\
  (0 < k -> 2 ^ 52 <= num / den) /\
  nonneg_sf r /\ Zval r = sat (rneQ num den * 2 ^ k).

(** [r] is the non-negative rational [V / W], in units of [2^-1074],
    rounded to nearest (ties to even, overflow to infinity). *)
Definition Rnd (V W : Z) (r : spec_float) : Prop :=
  exists num den k, rounds_to num den k r /\ 0 < W /\ num * 2 ^ k * W = V * den.

End IEEE.

(** The value of a JavaScript number, in units of [2^-1074]. *)
Definition fval (x : float) : Z := IEEE.Zval (Prim2SF x).

(** [0 <= x < Infinity] *)
Definition finite_nonneg (x : float) : Prop :=
  (0 <=? x)%float = true /\ (x <? infinity)%float = true.

(** ** Properties stated of the program *)

(** The computation yields the value [a]. *)
Definition returns {A : Type} (m : M A) (a : A) : Prop := result m = Ok a.

(** The popularity is absent, [null], a zero or NaN: the cases the guard of
    the scorer catches. *)
Definition missing_or_zero (v : JS.value) : Prop :=
  match v with
  | JS.Num x => (x =? 0)%float = true \/ is_nan x = true
  | _ => True
  end.

(** The popularity is absent, [null], or a number [<= 0]. *)
Definition nonpositive_or_missing (v : JS.value) : Prop :=
  match v with
  | JS.Num x => (x <=? 0)%float = true
  | _ => True
  end.

(** The ranges of the data model: a popularity is a finite number [>= 0],
    an average rating lies in [0, 10]; either may be missing. *)
Definition valid_popularity (v : JS.value) : Prop :=
  match v with
  | JS.Num x => finite_nonneg x
  | _ => True
  end.

Definition valid_rating (v : JS.value) : Prop :=
  match v with
  | JS.Num x => (0 <=? x)%float = true /\ (x <=? 10)%float = true
  | _ => True
  end.

(** [0 <= s <= 100] *)
Definition in_score_range (s : float) : Prop :=
  (0 <=? s)%float = true /\ (s <=? 100)%float = true.

(** Both values are numbers and the first is at most the second. *)
Definition number_le (v1 v2 : JS.value) : Prop :=
  match v1, v2 with
  | JS.Num a, JS.Num b => (a <=? b)%float = true
  | _, _ => False
  end.

(** ** Sample data *)

(** A candidate with the given identifier, popularity, average rating and
    vote count, and no other property. *)
Definition candidate (i : Z) (pop avg votes : JS.value) : item :=
  {| id := i; title := None; name := None;
     popularity := pop; vote_average := avg; vote_count := votes;
     release_date := None; first_air_date := None;
     backdrop_path := None; poster_path := None |}.

(** A source title of the given popularity. *)
Definition source (pop : JS.value) : option json :=
  Some {| movie_results := None; tv_results := None; results := None;
          props := candidate 0 pop JS.Undefined JS.Undefined |}.

(** The value the scorer returns (it never throws), and the record the
    pipeline builds from a candidate. *)
Definition score_of (it : item) (src : option json) : float :=
  match result (calculateRelevanceScore it src) with
  | Ok s => s
  | Throw _ => nan
  end.

Definition rank (src : option json) (it : item) : ranked :=
  {| base := it; relevanceScore := score_of it src |}.

(** Deduplication as the specification words it: go through the list and
    keep an item when its identifier has not been seen before. *)
Fixpoint keep_first_by_id (seen : list Z) (l : list item) : list item :=
  match l with
  | [] => []
  | x :: rest =>
      if existsb (Z.eqb (id x)) seen then keep_first_by_id seen rest
      else x :: keep_first_by_id (id x :: seen) rest
  end.

(** Sorted by [relevanceScore], descending: no record is followed, at any
    distance, by one that is not below or equal to it. *)
Definition sorted_by_score_desc (out : list ranked) : Prop :=
  StronglySorted (fun a b => (relevanceScore b <=? relevanceScore a)%float = true) out.

(** A length is at most the configured maximum, read as [slice] reads it. *)
Definition length_at_most (n : nat) (maximum : float) : Prop :=
  match JS.ToIntegerOrInfinity maximum with
  | JS.Integer k => (Z.of_nat n <= k)%Z
  | JS.PlusInfinity => True
  | JS.MinusInfinity => False
  end.

(** The four parts of the invariant of the output sequence. *)
Definition pipeline_invariant (cfg : config) (out : list ranked) : Prop :=
  sorted_by_score_desc out /\
  NoDup (map (fun r => id (base r)) out) /\
  Forall (fun r => enough_votes cfg (base r) = true) out /\
  length_at_most (List.length out) (MAX_RECOMMENDATIONS cfg).

(** The candidates that the deduplication and the vote filter leave, in the
    order of the merged list: those the pipeline scores. *)
Definition eligible (cfg : config) (merged : list item) : list item :=
  filter (enough_votes cfg) (JS.filter_indexed first_occurrence merged).

(** No score computed for the candidates of the list is NaN. *)
Definition scores_are_numbers (src : option json) (l : list item) : Prop :=
  Forall (fun it => forall s, returns (calculateRelevanceScore it src) s -> is_nan s = false) l.

Definition sample_config (minimum maximum : float) : config :=
  {| TMDB_API_KEY := "key"; MINIMUM_VOTE_COUNT := minimum; MAX_RECOMMENDATIONS := maximum |}.

Definition sample_similar : list item :=
  [ candidate 1 (JS.Num 10) (JS.Num 8) (JS.Num 100);
    candidate 3 (JS.Num 40) (JS.Num 9) (JS.Num 75) ].

Definition sample_recommended : list item :=
  [ candidate 1 (JS.Num 12) (JS.Num 2) (JS.Num 500);
    candidate 2 (JS.Num 30) (JS.Num 9) (JS.Num 10);
    candidate 4 (JS.Num 5) (JS.Num 7) JS.Undefined ].

(** [type === 'movie' ? data.movie_results : data.tv_results] *)
Definition lookup_results (type : string) (data : json) : option (list item) :=
  if String.eqb type "movie" then movie_results data else tv_results data.

(** No entry of the log is an error. *)
Definition no_error_logged (l : list entry) : Prop :=
  Forall (fun e => fst e <> ERROR) l.

Definition error_logged (l : list entry) : Prop :=
  exists text, In (ERROR, text) l.

(** ** Sample providers *)

Definition answer (d : json) : outcome response :=
  Ok {| ok := true; status := 200; body := Ok (Some d) |}.

Definition listing (found : list item) (pop : JS.value) : json :=
  {| movie_results := Some found; tv_results := None; results := Some found;
     props := candidate 603 pop JS.Undefined JS.Undefined |}.

(** A provider that knows the title [tt0133093] as the movie 603 of
    popularity 20, whose similar-titles endpoint is down, and whose
    recommendations endpoint answers on the third attempt only. *)
Definition flaky_provider : provider :=
  fun url attempt =>
    let cfg := sample_config 50 30 in
    if String.eqb url (find_url cfg "tt0133093") then
      answer (listing [candidate 603 (JS.Num 20) (JS.Num 8) (JS.Num 9000)] JS.Undefined)
    else if String.eqb url (details_url cfg "movie" 603) then
      answer (listing [] (JS.Num 20))
    else if String.eqb url (similar_url cfg "movie" 603) then
      Throw (Error "ECONNRESET")
    else if String.eqb url (recommendations_url cfg "movie" 603) then
      if Nat.ltb attempt 2 then Ok {| ok := false; status := 503; body := Throw (Error "no body") |}
      else answer (listing sample_recommended JS.Undefined)
    else Throw (Error "ENOTFOUND").

(** A provider whose lookup succeeds and finds nothing. *)
Definition empty_provider : provider :=
  fun url attempt => answer (listing [] JS.Undefined).

Definition sample_toFixed : float -> nat -> string := fun _ _ => "8.0".

(** ** Further notions *)

(** The computation runs to a value and logs no error on the way. *)
Definition quiet {A : Type} (m : M A) : Prop :=
  no_error_logged (logs m) /\ exists a, returns m a.



(** ** More sample providers *)

(** A provider that answers every request, on the first attempt, with the
    same object: its lists hold the sample recommendations and its
    popularity is 20. *)
Definition steady_provider : provider :=
  fun url attempt => answer (listing sample_recommended (JS.Num 20)).

(** The flaky provider, unreachable from the fourth attempt on. *)
Definition fading_provider : provider :=
  fun url attempt =>
    if Nat.ltb attempt 3 then flaky_provider url attempt
    else Throw (Error "ETIMEDOUT").

(** A provider whose lookup finds a title with the identifier 0. *)
Definition zero_provider : provider :=
  fun url attempt =>
    answer (listing [candidate 0 (JS.Num 20) (JS.Num 8) (JS.Num 9000)] (JS.Num 20)).

(** A candidate with a release date and a first-air date. *)
Definition dated (release first_air : option string) : ranked :=
  {| base := {| id := 7; title := None; name := None;
                popularity := JS.Num 1; vote_average := JS.Num 8; vote_count := JS.Num 60;
                release_date := release; first_air_date := first_air;
                backdrop_path := None; poster_path := None |};
     relevanceScore := 0 |}.

(** * The JavaScript primitives on sample values *)

Example slice_negative_end : JS.slice0 [1; 2; 3; 4; 5]%nat (-2) = [1; 2; 3]%nat.
Proof. reflexivity. Qed.

Example slice_beyond_length : JS.slice0 [1; 2; 3]%nat 30 = [1; 2; 3]%nat.
Proof. reflexivity. Qed.

Example slice_nan_end : JS.slice0 [1; 2; 3]%nat nan = [].
Proof. reflexivity. Qed.

Example min_of_zeros : JS.Math_min 0 (-0) = (-0)%float.
Proof. reflexivity. Qed.

Example undefined_ge : JS.ge JS.Undefined (JS.Num (-1)) = false.
Proof. reflexivity. Qed.

Example null_ge : JS.ge JS.Null (JS.Num (-1)) = true.
Proof. reflexivity. Qed.

Example sort_descending :
  JS.sort (fun a b : float => (b - a)%float) [3; 1; 2; 5; 4]%float = [5; 4; 3; 2; 1]%float.
Proof. reflexivity. Qed.

Example base_identifier : JS.split_head ":" "tt0133093:1:2" = "tt0133093".
Proof. reflexivity. Qed.

(** * Binary64 arithmetic: order and rounding *)

Module Rounding.

Import IEEE.
Local Open Scope Z_scope.

Lemma fexp_eq e : fexp prec emax e = Z.max (e - 53) (-1074).
Proof. reflexivity. Qed.

Lemma digits2_pos_bounds p :
  2 ^ (Zpos (digits2_pos p) - 1) <= Zpos p < 2 ^ Zpos (digits2_pos p).
Proof.
  induction p as [p IH | p IH | ]; cbn [digits2_pos].
  - rewrite Pos2Z.inj_succ.
    replace (Z.succ (Zpos (digits2_pos p)) - 1) with (Z.succ (Zpos (digits2_pos p) - 1)) by lia.
    rewrite !Z.pow_succ_r by lia. lia.
  - rewrite Pos2Z.inj_succ.
    replace (Z.succ (Zpos (digits2_pos p)) - 1) with (Z.succ (Zpos (digits2_pos p) - 1)) by lia.
    rewrite !Z.pow_succ_r by lia. lia.
  - cbn. lia.
Qed.

Lemma Zdigits2_nonneg m : 0 <= Zdigits2 m.
Proof. destruct m; cbn; lia. Qed.

Lemma Zdigits2_bounds m : 0 < m -> 2 ^ (Zdigits2 m - 1) <= m < 2 ^ Zdigits2 m.
Proof. destruct m; try lia. intros _. apply digits2_pos_bounds. Qed.

Lemma Zdigits2_upper m : 0 <= m -> m < 2 ^ Zdigits2 m.
Proof.
  intros H. destruct (Z.eq_dec m 0) as [->|]. - cbn. lia.
  - apply Zdigits2_bounds. lia.
Qed.

Lemma Zdigits2_le m k : 0 <= m < 2 ^ k -> 0 <= k -> Zdigits2 m <= k.
Proof.
  intros [H0 H] Hk. destruct (Z.eq_dec m 0) as [->|]; [cbn; lia|].
  destruct (Zdigits2_bounds m) as [Hl _]; [lia|].
  destruct (Z_le_gt_dec (Zdigits2 m) k); [assumption|].
  assert (2 ^ k <= 2 ^ (Zdigits2 m - 1)) by (apply Z.pow_le_mono_r; lia). lia.
Qed.

Lemma Zdigits2_ge m k : 2 ^ k <= m -> 0 <= k -> k + 1 <= Zdigits2 m.
Proof.
  intros H Hk.
  assert (0 < 2 ^ k) by (apply Z.pow_pos_nonneg; lia).
  destruct (Zdigits2_bounds m) as [_ Hu]; [lia|].
  destruct (Z_le_gt_dec (k + 1) (Zdigits2 m)); [assumption|].
  pose proof (Zdigits2_nonneg m).
  assert (2 ^ Zdigits2 m <= 2 ^ k) by (apply Z.pow_le_mono_r; lia). lia.
Qed.

(** ** Shifting with round and sticky bits *)

Lemma rec_ok_exact M : 0 <= M -> rec_ok (shr_record_of_loc M loc_Exact) M 1.
Proof.
  intros H. unfold rec_ok; cbn [shr_record_of_loc shr_m shr_r shr_s].
  rewrite Z.div_1_r, Z.mod_1_r. cbn. repeat split; lia.
Qed.

Lemma shr_1_eq m r s :
  0 <= m -> shr_1 (Build_shr_record m r s) = Build_shr_record (m / 2) (Z.odd m) (r || s).
Proof.
  intros H. rewrite <- Z.div2_div.
  destruct m as [| [p | p |] | p]; try lia; reflexivity.
Qed.

Lemma shr_1_ok mrs N D : rec_ok mrs N D -> rec_ok (shr_1 mrs) N (2 * D).
Proof.
  intros (HN & HD & Hm & Hr & Hs).
  destruct mrs as [m r s]; cbn [shr_m shr_r shr_s] in *.
  assert (Hq : 0 <= N / D) by (apply Z.div_pos; lia).
  pose proof (Z.mod_pos_bound N D HD) as Hrem.
  assert (Hdiv : N / (2 * D) = (N / D) / 2).
  { rewrite (Z.mul_comm 2 D). rewrite Z.div_div by lia. reflexivity. }
  assert (Hmod : N mod (2 * D) = N mod D + D * ((N / D) mod 2)).
  { rewrite (Z.mul_comm 2 D). apply Z.rem_mul_r; lia. }
  rewrite shr_1_eq by lia.
  unfold rec_ok; cbn [shr_m shr_r shr_s]. rewrite Hdiv, Hmod, Hr, Hs, Hm.
  rewrite (Zmod_odd (N / D)).
  repeat split; try lia.
  - destruct (Z.odd (N / D));
      destruct (Z.leb_spec (2 * D) (2 * (N mod D + D * 1)));
      destruct (Z.leb_spec (2 * D) (2 * (N mod D + D * 0))); try reflexivity; lia.
  - destruct (Z.odd (N / D));
      destruct (Z.leb_spec D (2 * (N mod D)));
      destruct (Z.eqb_spec (N mod D) 0);
      destruct (Z.eqb_spec (2 * (N mod D)) D);
      destruct (Z.eqb_spec (N mod D + D * 1) 0);
      destruct (Z.eqb_spec (N mod D + D * 0) 0);
      destruct (Z.eqb_spec (2 * (N mod D + D * 1)) (2 * D));
      destruct (Z.eqb_spec (2 * (N mod D + D * 0)) (2 * D));
      try reflexivity; lia.
Qed.

Lemma pow2_double a : 0 <= a -> 2 ^ (2 * a) = 2 ^ a * 2 ^ a.
Proof. intros H. rewrite <- Z.pow_add_r by lia. f_equal. lia. Qed.

Lemma iter_shr_1_ok p : forall mrs N D,
  rec_ok mrs N D -> rec_ok (iter_pos shr_1 p mrs) N (D * 2 ^ Zpos p).
Proof.
  induction p as [p IH | p IH | ]; intros mrs N D H; cbn [iter_pos].
  - apply shr_1_ok in H. apply IH in H. apply IH in H.
    replace (D * 2 ^ Z.pos p~1) with (2 * D * 2 ^ Z.pos p * 2 ^ Z.pos p); [assumption|].
    change (Z.pos p~1) with (2 * Z.pos p + 1). rewrite Z.pow_add_r, pow2_double by lia. ring.
  - apply IH in H. apply IH in H.
    replace (D * 2 ^ Z.pos p~0) with (D * 2 ^ Z.pos p * 2 ^ Z.pos p); [assumption|].
    change (Z.pos p~0) with (2 * Z.pos p). rewrite pow2_double by lia. ring.
  - apply shr_1_ok in H. replace (D * 2 ^ 1) with (2 * D) by lia. assumption.
Qed.

Lemma shr_ok mrs e n N D :
  rec_ok mrs N D -> 0 <= n ->
  rec_ok (fst (shr mrs e n)) N (D * 2 ^ n) /\ snd (shr mrs e n) = e + n.
Proof.
  intros H Hn. destruct n as [| p | p]; try lia; cbn [shr fst snd].
  - rewrite Z.mul_1_r. split; [assumption | lia].
  - split; [apply iter_shr_1_ok; assumption | reflexivity].
Qed.

Lemma shr_nop mrs e n : n <= 0 -> shr mrs e n = (mrs, e).
Proof. destruct n; try reflexivity. lia. Qed.

Lemma rne_of_rec mrs N D :
  rec_ok mrs N D -> round_nearest_even (shr_m mrs) (loc_of_shr_record mrs) = rneQ N D.
Proof.
  intros (HN & HD & Hm & Hr & Hs).
  destruct mrs as [m r s]; cbn [shr_m shr_r shr_s loc_of_shr_record] in *.
  pose proof (Z.mod_pos_bound N D HD) as Hrem.
  unfold rneQ. rewrite <- Hm. subst r s.
  destruct (Z.compare_spec (2 * (N mod D)) D);
    destruct (Z.leb_spec D (2 * (N mod D))); try lia;
    destruct (Z.eqb_spec (N mod D) 0); try lia;
    destruct (Z.eqb_spec (2 * (N mod D)) D); try lia; reflexivity.
Qed.

(** ** Rounding to nearest, ties to even, on rationals *)

Lemma rneQ_bounds N D : 0 < D -> N / D <= rneQ N D <= N / D + 1.
Proof.
  intros HD. unfold rneQ.
  destruct (2 * (N mod D) ?= D); [destruct (Z.even (N / D))| |]; lia.
Qed.

Lemma rneQ_mono N1 D1 N2 D2 :
  0 < D1 -> 0 < D2 -> N1 * D2 <= N2 * D1 -> rneQ N1 D1 <= rneQ N2 D2.
Proof.
  intros H1 H2 Hle.
  pose proof (Z.div_mod N1 D1 ltac:(lia)) as E1.
  pose proof (Z.div_mod N2 D2 ltac:(lia)) as E2.
  pose proof (Z.mod_pos_bound N1 D1 H1) as B1.
  pose proof (Z.mod_pos_bound N2 D2 H2) as B2.
  pose proof (rneQ_bounds N1 D1 H1) as R1.
  pose proof (rneQ_bounds N2 D2 H2) as R2.
  set (q1 := N1 / D1) in *. set (q2 := N2 / D2) in *.
  set (r1 := N1 mod D1) in *. set (r2 := N2 mod D2) in *.
  assert (Hq : q1 <= q2).
  { destruct (Z_le_gt_dec q1 q2); [assumption|]. exfalso.
    assert (D1 * (q2 + 1) <= N1) by nia.
    assert (N2 < D2 * (q2 + 1)) by nia.
    assert (D1 * D2 * (q2 + 1) <= N1 * D2) by nia.
    assert (N2 * D1 < D1 * D2 * (q2 + 1)) by nia.
    lia. }
  destruct (Z.eq_dec q1 q2) as [Heq|]; [|lia].
  assert (Hr : r1 * D2 <= r2 * D1) by nia.
  unfold rneQ. fold q1 q2 r1 r2. rewrite <- Heq.
  destruct (Z.compare_spec (2 * r1) D1), (Z.compare_spec (2 * r2) D2);
    try destruct (Z.even q1); try lia; exfalso; nia.
Qed.

(** ** [binary_round_aux] rounds to nearest *)

Lemma pow2_pos k : 0 <= k -> 0 < 2 ^ k.
Proof. intros. apply Z.pow_pos_nonneg; lia. Qed.

Lemma sat_small z : z <= 2 ^ 2098 -> sat z = z.
Proof. unfold sat. lia. Qed.

Lemma sat_large z : 2 ^ 2098 <= z -> sat z = 2 ^ 2098.
Proof. unfold sat. lia. Qed.

Lemma scaled_small m k : 0 <= m < 2 ^ 53 -> 0 <= k <= 2045 -> m * 2 ^ k < 2 ^ 2098.
Proof.
  intros Hm Hk.
  assert (2 ^ k <= 2 ^ 2045) by (apply Z.pow_le_mono_r; lia).
  pose proof (pow2_pos k ltac:(lia)).
  replace (2 ^ 2098) with (2 ^ 53 * 2 ^ 2045) by (rewrite <- Z.pow_add_r by lia; reflexivity).
  nia.
Qed.

Lemma scaled_large m k : 2 ^ 52 <= m -> 2046 <= k -> 2 ^ 2098 <= m * 2 ^ k.
Proof.
  intros Hm Hk.
  assert (2 ^ 2046 <= 2 ^ k) by (apply Z.pow_le_mono_r; lia).
  pose proof (pow2_pos 2046 ltac:(lia)). pose proof (pow2_pos 52 ltac:(lia)).
  replace (2 ^ 2098) with (2 ^ 52 * 2 ^ 2046) by (rewrite <- Z.pow_add_r by lia; reflexivity).
  nia.
Qed.

Lemma binary_round_aux_rounds M E l N D :
  rec_ok (shr_record_of_loc M l) N D ->
  E <= fexp prec emax (Zdigits2 M + E) ->
  rounds_to N (D * 2 ^ (fexp prec emax (Zdigits2 M + E) - E))
    (fexp prec emax (Zdigits2 M + E) + 1074)
    (binary_round_aux prec emax false M E l).
Proof.
  intros Hrec Hn.
  assert (HM : shr_m (shr_record_of_loc M l) = M) by (destruct l as [|[]]; reflexivity).
  pose proof Hrec as (HN & HD & Hm & _). rewrite HM in Hm.
  assert (HM0 : 0 <= M) by (rewrite Hm; apply Z.div_pos; lia).
  set (e1 := fexp prec emax (Zdigits2 M + E)) in *.
  set (n := e1 - E).
  assert (Hn0 : 0 <= n) by (unfold n; lia).
  assert (He1 : e1 = Z.max (Zdigits2 M + E - 53) (-1074)) by reflexivity.
  pose proof (pow2_pos n Hn0) as Hpn.
  assert (HD' : 0 < D * 2 ^ n) by nia.
  (* the significand after the first shift *)
  assert (Hm1 : N / (D * 2 ^ n) = M / 2 ^ n) by (rewrite Hm, Z.div_div by lia; reflexivity).
  assert (Hup : N / (D * 2 ^ n) < 2 ^ 53).
  { rewrite Hm1. apply Z.div_lt_upper_bound; [assumption|].
    pose proof (Zdigits2_upper M HM0). pose proof (Zdigits2_nonneg M).
    assert (2 ^ Zdigits2 M <= 2 ^ (n + 53)) by (apply Z.pow_le_mono_r; unfold n; lia).
    rewrite Z.pow_add_r in * by lia. lia. }
  assert (Hlow : -1074 < e1 -> 2 ^ 52 <= N / (D * 2 ^ n)).
  { intros Hk. rewrite Hm1. apply Z.div_le_lower_bound; [assumption|].
    assert (Hd : Zdigits2 M = n + 53) by (unfold n; lia).
    assert (M <> 0) by (intros ->; cbn in Hd; lia).
    destruct (Zdigits2_bounds M) as [Hl _]; [lia|].
    rewrite Hd in Hl. replace (n + 53 - 1) with (n + 52) in Hl by lia.
    rewrite Z.pow_add_r in Hl by lia. lia. }
  pose proof (rneQ_bounds N (D * 2 ^ n) HD') as Hb.
  assert (Hq0 : 0 <= N / (D * 2 ^ n)) by (apply Z.div_pos; lia).
  assert (Hres : nonneg_sf (binary_round_aux prec emax false M E l) /\
                 Zval (binary_round_aux prec emax false M E l)
                 = sat (rneQ N (D * 2 ^ n) * 2 ^ (e1 + 1074))).
  { unfold binary_round_aux, shr_fexp. fold e1. fold n.
    destruct (shr_ok (shr_record_of_loc M l) E n N D Hrec Hn0) as [Hrec' He'].
    destruct (shr (shr_record_of_loc M l) E n) as [mrs' e']. cbn [fst snd] in Hrec', He'.
    rewrite (rne_of_rec _ _ _ Hrec').
    replace e' with e1 by (unfold n in He'; lia).
    set (m2 := rneQ N (D * 2 ^ n)) in *.
    assert (Hcase : m2 = 0 \/ 0 < m2 < 2 ^ 53 \/ m2 = 2 ^ 53) by lia.
    destruct Hcase as [H0 | [Hmid | Hbig]].
    - rewrite H0. cbn [Zdigits2 shr_record_of_loc].
      rewrite shr_nop by (rewrite fexp_eq; lia).
      cbn. split; [exact I | reflexivity].
    - assert (Hd2 : Zdigits2 m2 <= 53) by (apply Zdigits2_le; lia).
      pose proof (Zdigits2_nonneg m2).
      rewrite shr_nop by (rewrite fexp_eq; lia).
      cbn [shr_record_of_loc shr_m].
      destruct m2 as [| p | p] eqn:Hm2; try lia.
      change (emax - prec) with 971.
      destruct (Z.leb_spec e1 971).
      + cbn [nonneg_sf Zval cond_Zopp]. split; [reflexivity|].
        symmetry. apply sat_small.
        pose proof (scaled_small (Z.pos p) (e1 + 1074)). lia.
      + cbn [nonneg_sf Zval cond_Zopp]. split; [reflexivity|].
        symmetry. apply sat_large. apply scaled_large; lia.
    - rewrite Hbig.
      replace (fexp prec emax (Zdigits2 (2 ^ 53) + e1) - e1) with 1
        by (change (Zdigits2 (2 ^ 53)) with 54; rewrite fexp_eq; lia).
      cbn [shr_record_of_loc shr iter_pos].
      change (shr_m (shr_1 {| shr_m := 2 ^ 53; shr_r := false; shr_s := false |}))
        with (Z.pos (Z.to_pos (2 ^ 52))).
      cbv iota.
      change (emax - prec) with 971.
      assert (Hpow : Z.pos (Z.to_pos (2 ^ 52)) * 2 ^ (e1 + 1 + 1074)
                     = 2 ^ 53 * 2 ^ (e1 + 1074)).
      { change (Z.pos (Z.to_pos (2 ^ 52))) with (2 ^ 52).
        replace (e1 + 1 + 1074) with (1 + (e1 + 1074)) by lia.
        rewrite (Z.pow_add_r 2 1 (e1 + 1074)) by lia.
        change (2 ^ 53) with (2 ^ 52 * 2 ^ 1). ring. }
      destruct (Z.leb_spec (e1 + 1) 971).
      + cbn [nonneg_sf Zval cond_Zopp]. split; [reflexivity|].
        rewrite Hpow. symmetry. apply sat_small.
        replace (2 ^ 2098) with (2 ^ 53 * 2 ^ 2045) by (rewrite <- Z.pow_add_r by lia; reflexivity).
        assert (2 ^ (e1 + 1074) <= 2 ^ 2045) by (apply Z.pow_le_mono_r; lia).
        apply Z.mul_le_mono_nonneg_l; [apply Z.lt_le_incl, pow2_pos; lia | assumption].
      + cbn [nonneg_sf Zval cond_Zopp]. split; [reflexivity|].
        symmetry. apply sat_large.
        replace (2 ^ 2098) with (2 ^ 53 * 2 ^ 2045) by (rewrite <- Z.pow_add_r by lia; reflexivity).
        assert (2 ^ 2045 <= 2 ^ (e1 + 1074)) by (apply Z.pow_le_mono_r; lia).
        apply Z.mul_le_mono_nonneg_l; [apply Z.lt_le_incl, pow2_pos; lia | assumption]. }
  unfold rounds_to. fold n.
  repeat split; try lia; try apply Hres.
Qed.

(** ** Monotonicity of rounding *)

Lemma sat_mono a b : a <= b -> sat a <= sat b.
Proof. unfold sat. lia. Qed.

Lemma div_lt_pow N D c : 0 < D -> N / D < c -> N < c * D.
Proof.
  intros HD H. pose proof (Z.div_mod N D ltac:(lia)). pose proof (Z.mod_pos_bound N D HD). nia.
Qed.

Lemma div_ge_pow N D c : 0 < D -> c <= N / D -> c * D <= N.
Proof.
  intros HD H. pose proof (Z.div_mod N D ltac:(lia)). pose proof (Z.mod_pos_bound N D HD). nia.
Qed.

Lemma binade_gap_lt a1 a2 p1 p2 c :
  0 < p1 -> 2 * p1 <= p2 -> 0 < c -> a1 <= 2 * c -> c <= a2 -> a1 * p1 <= a2 * p2.
Proof.
  intros Hp Hpp Hc H1 H2.
  assert (a1 * p1 <= 2 * c * p1) by nia.
  assert (c * (2 * p1) <= c * p2) by nia.
  assert (c * p2 <= a2 * p2) by nia.
  lia.
Qed.

Lemma binade_gap_gt N1 D1 N2 D2 p1 p2 c :
  0 < D1 -> 0 < D2 -> 0 < p2 -> 2 * p2 <= p1 -> 0 < c ->
  c * D1 <= N1 -> N2 < 2 * c * D2 ->
  N1 * p1 * D2 <= N2 * p2 * D1 -> False.
Proof.
  intros HD1 HD2 Hp Hpp Hc H1 H2 Hle.
  assert (c * D1 * (p1 * D2) <= N1 * (p1 * D2)) by (apply Z.mul_le_mono_nonneg_r; nia).
  assert (N2 * (p2 * D1) < 2 * c * D2 * (p2 * D1)) by (apply Z.mul_lt_mono_pos_r; nia).
  assert (c * D1 * D2 * (2 * p2) <= c * D1 * D2 * p1) by (apply Z.mul_le_mono_nonneg_l; nia).
  nia.
Qed.

Lemma pow2_step k1 k2 : 0 <= k1 < k2 -> 2 * 2 ^ k1 <= 2 ^ k2.
Proof.
  intros H. replace (2 * 2 ^ k1) with (2 ^ (k1 + 1)) by (rewrite Z.pow_add_r by lia; lia).
  apply Z.pow_le_mono_r; lia.
Qed.

Lemma rounds_to_mono N1 D1 k1 r1 N2 D2 k2 r2 :
  rounds_to N1 D1 k1 r1 -> rounds_to N2 D2 k2 r2 ->
  N1 * 2 ^ k1 * D2 <= N2 * 2 ^ k2 * D1 ->
  Zval r1 <= Zval r2.
Proof.
  intros (HN1 & HD1 & Hk1 & Hu1 & Hl1 & _ & ->) (HN2 & HD2 & Hk2 & Hu2 & Hl2 & _ & ->) Hle.
  apply sat_mono.
  pose proof (rneQ_bounds N1 D1 HD1) as B1. pose proof (rneQ_bounds N2 D2 HD2) as B2.
  pose proof (pow2_pos k1 Hk1) as P1. pose proof (pow2_pos k2 Hk2) as P2.
  assert (P52 : 0 < 2 ^ 52) by (apply pow2_pos; lia).
  change (2 ^ 53) with (2 * 2 ^ 52) in Hu1, Hu2.
  destruct (Z.lt_trichotomy k1 k2) as [Hlt | [Heq | Hgt]].
  - specialize (Hl2 ltac:(lia)).
    apply (binade_gap_lt _ _ _ _ (2 ^ 52)); try lia.
    apply pow2_step; lia.
  - subst k2.
    assert (N1 * D2 <= N2 * D1) by nia.
    pose proof (rneQ_mono N1 D1 N2 D2 HD1 HD2 H). nia.
  - exfalso. specialize (Hl1 ltac:(lia)).
    apply div_ge_pow in Hl1; [|assumption]. apply div_lt_pow in Hu2; [|assumption].
    apply (binade_gap_gt N1 D1 N2 D2 (2 ^ k1) (2 ^ k2) (2 ^ 52)); try lia.
    apply pow2_step; lia.
Qed.

Lemma Rnd_mono V1 W1 r1 V2 W2 r2 :
  Rnd V1 W1 r1 -> Rnd V2 W2 r2 -> V1 * W2 <= V2 * W1 -> Zval r1 <= Zval r2.
Proof.
  intros (n1 & d1 & k1 & H1 & HW1 & E1) (n2 & d2 & k2 & H2 & HW2 & E2) Hle.
  apply (rounds_to_mono _ _ _ _ _ _ _ _ H1 H2).
  destruct H1 as (_ & Hd1 & Hk1 & _). destruct H2 as (_ & Hd2 & Hk2 & _).
  generalize dependent (2 ^ k1). generalize dependent (2 ^ k2). intros p2 E2 p1 E1.
  assert ((n1 * p1 * d2) * (W1 * W2) <= (n2 * p2 * d1) * (W1 * W2)).
  { replace (n1 * p1 * d2 * (W1 * W2)) with ((n1 * p1 * W1) * (d2 * W2)) by ring.
    replace (n2 * p2 * d1 * (W1 * W2)) with ((n2 * p2 * W2) * (d1 * W1)) by ring.
    rewrite E1, E2.
    replace (V1 * d1 * (d2 * W2)) with (V1 * W2 * (d1 * d2)) by ring.
    replace (V2 * d2 * (d1 * W1)) with (V2 * W1 * (d1 * d2)) by ring.
    apply Z.mul_le_mono_nonneg_r; nia. }
  apply Z.mul_le_mono_pos_r in H; [assumption | nia].
Qed.

Lemma Rnd_nonneg V W r : Rnd V W r -> nonneg_sf r.
Proof. intros (n & d & k & H & _). apply H. Qed.

(** ** Valid binary64 values and their order *)

Lemma valid_finite s m e :
  valid_binary (S754_finite s m e) = true ->
  -1074 <= e <= 971 /\ Zpos m < 2 ^ 53 /\ (-1074 < e -> 2 ^ 52 <= Zpos m).
Proof.
  cbn [SpecFloat.valid_binary]. unfold bounded, canonical_mantissa.
  rewrite andb_true_iff, Z.eqb_eq, Z.leb_le, fexp_eq.
  change (emax - prec) with 971.
  intros [Hc He]. pose proof (digits2_pos_bounds m) as [Hl Hu].
  assert (Hd : Zpos (digits2_pos m) <= 53) by lia.
  repeat split; try lia.
  - assert (2 ^ Zpos (digits2_pos m) <= 2 ^ 53) by (apply Z.pow_le_mono_r; lia). lia.
  - intros Hn. assert (Hd' : Zpos (digits2_pos m) = 53) by lia.
    rewrite Hd' in Hl. exact Hl.
Qed.

Lemma finite_scaled_lt m1 e1 m2 e2 :
  Zpos m1 < 2 ^ 53 -> 2 ^ 52 <= Zpos m2 -> -1074 <= e1 < e2 ->
  Zpos m1 * 2 ^ (e1 + 1074) < Zpos m2 * 2 ^ (e2 + 1074).
Proof.
  intros H1 H2 He.
  assert (2 * 2 ^ (e1 + 1074) <= 2 ^ (e2 + 1074)).
  { replace (2 * 2 ^ (e1 + 1074)) with (2 ^ (e1 + 1074 + 1)) by (rewrite Z.pow_add_r by lia; lia).
    apply Z.pow_le_mono_r; lia. }
  pose proof (pow2_pos (e1 + 1074) ltac:(lia)).
  change (2 ^ 53) with (2 * 2 ^ 52) in H1.
  generalize dependent (2 ^ 52). generalize dependent (2 ^ (e1 + 1074)).
  generalize dependent (2 ^ (e2 + 1074)). intros. nia.
Qed.

Lemma finite_scaled_bounds s m e :
  valid_binary (S754_finite s m e) = true ->
  0 < Zpos m * 2 ^ (e + 1074) < 2 ^ 2098.
Proof.
  intros H. apply valid_finite in H. destruct H as (He & Hm & _).
  split.
  - pose proof (pow2_pos (e + 1074) ltac:(lia)). nia.
  - apply scaled_small; lia.
Qed.

Lemma finite_compare m1 e1 m2 e2 :
  valid_binary (S754_finite false m1 e1) = true ->
  valid_binary (S754_finite false m2 e2) = true ->
  match e1 ?= e2 with
  | Lt => Lt
  | Gt => Gt
  | Eq => Pos.compare_cont Eq m1 m2
  end = (Zpos m1 * 2 ^ (e1 + 1074) ?= Zpos m2 * 2 ^ (e2 + 1074)).
Proof.
  intros V1 V2. apply valid_finite in V1, V2.
  destruct V1 as (He1 & Hm1 & Hl1), V2 as (He2 & Hm2 & Hl2).
  destruct (Z.compare_spec e1 e2) as [Heq | Hlt | Hgt].
  - subst e2. change (Pos.compare_cont Eq m1 m2) with (Pos.compare m1 m2).
    rewrite Pos2Z.inj_compare.
    pose proof (pow2_pos (e1 + 1074) ltac:(lia)).
    destruct (Z.compare_spec (Z.pos m1) (Z.pos m2)); symmetry.
    + apply Z.compare_eq_iff. congruence.
    + apply Z.compare_lt_iff. nia.
    + apply Z.compare_gt_iff. nia.
  - symmetry. apply Z.compare_lt_iff. apply finite_scaled_lt; lia.
  - symmetry. apply Z.compare_gt_iff. apply finite_scaled_lt; lia.
Qed.

Ltac decide_compare :=
  f_equal; symmetry;
  first [ apply Z.compare_eq_iff; lia
        | apply Z.compare_lt_iff; lia
        | apply Z.compare_gt_iff; lia ].

Lemma SFcompare_Zval x y :
  valid_binary x = true -> valid_binary y = true ->
  is_nan_sf x = false -> is_nan_sf y = false ->
  SFcompare x y = Some (Zval x ?= Zval y).
Proof.
  intros Vx Vy Nx Ny.
  assert (HP : 0 < 2 ^ 2098) by (apply pow2_pos; lia).
  destruct x as [sx | sx | | sx mx ex], y as [sy | sy | | sy my ey];
    try discriminate; cbn [SFcompare Zval];
    try pose proof (finite_scaled_bounds _ _ _ Vx) as Bx;
    try pose proof (finite_scaled_bounds _ _ _ Vy) as By.
  1-8: try destruct sx; try destruct sy; cbn [cond_Zopp]; decide_compare.
  destruct sx, sy; cbn [cond_Zopp]; try decide_compare.
  - assert (Vx' : valid_binary (S754_finite false mx ex) = true) by exact Vx.
    assert (Vy' : valid_binary (S754_finite false my ey) = true) by exact Vy.
    pose proof (finite_compare my ey mx ex Vy' Vx') as Hc.
    f_equal. rewrite Z.compare_opp.
    rewrite <- Hc.
    rewrite (Z.compare_antisym ex ey), (Pos.compare_cont_antisym mx my Eq).
    destruct (ex ?= ey); reflexivity.
  - f_equal. apply (finite_compare mx ex my ey); assumption.
Qed.

(** ** The operations round the exact result *)

Lemma pow2_add a b : 0 <= a -> 0 <= b -> 2 ^ (a + b) = 2 ^ a * 2 ^ b.
Proof. intros. apply Z.pow_add_r; assumption. Qed.

Lemma shl_align_spec mx ex ex' :
  snd (shl_align mx ex ex') = Z.min ex ex' /\
  Zpos (fst (shl_align mx ex ex')) = Zpos mx * 2 ^ (ex - Z.min ex ex').
Proof.
  unfold shl_align. destruct (ex' - ex) as [| d | d] eqn:Hd; cbn [fst snd].
  - replace (Z.min ex ex') with ex by lia. rewrite Z.sub_diag. cbn. lia.
  - replace (Z.min ex ex') with ex by lia. rewrite Z.sub_diag. cbn. lia.
  - replace (Z.min ex ex') with ex' by lia. split; [reflexivity|].
    change (Pos.iter xO mx d) with (shift_pos d mx).
    rewrite shift_pos_correct. change (Z.pow_pos 2 d) with (2 ^ Z.pos d).
    replace (ex - ex') with (Z.pos d) by lia. ring.
Qed.

Lemma Zdigits2_shift m j : 0 < m -> 0 <= j -> Zdigits2 (m * 2 ^ j) = Zdigits2 m + j.
Proof.
  intros Hm Hj. destruct (Zdigits2_bounds m Hm) as [Hl Hu].
  pose proof (pow2_pos j Hj) as Hp.
  assert (Hd : 1 <= Zdigits2 m).
  { destruct m; try lia. cbn. lia. }
  apply Z.le_antisymm.
  - apply Zdigits2_le; [|lia]. rewrite pow2_add by lia. nia.
  - replace (Zdigits2 m + j) with (Zdigits2 m - 1 + j + 1) by lia.
    apply Zdigits2_ge; [|lia]. rewrite pow2_add by lia. nia.
Qed.

Lemma Rnd_zero W s : 0 < W -> Rnd 0 W (S754_zero s).
Proof.
  intros HW. exists 0, 1, 0. unfold rounds_to. cbn. repeat split; try lia.
Qed.

Lemma rneQ_1 m : rneQ m 1 = m.
Proof. unfold rneQ. rewrite Z.mod_1_r, Z.div_1_r. reflexivity. Qed.

Lemma Rnd_exact m e :
  valid_binary (S754_finite false m e) = true ->
  Rnd (Zpos m * 2 ^ (e + 1074)) 1 (S754_finite false m e).
Proof.
  intros V. pose proof (finite_scaled_bounds _ _ _ V) as B.
  apply valid_finite in V. destruct V as (He & Hm & Hl).
  exists (Zpos m), 1, (e + 1074). unfold rounds_to.
  rewrite rneQ_1, Z.div_1_r. cbn [nonneg_sf Zval cond_Zopp].
  repeat split; try lia.
  symmetry. apply sat_small. lia.
Qed.

Lemma binary_round_Rnd m e :
  -1074 <= e ->
  Rnd (Zpos m * 2 ^ (e + 1074)) 1 (binary_round prec emax false m e).
Proof.
  intros He. unfold binary_round.
  pose proof (shl_align_spec m e (fexp prec emax (Z.pos (digits2_pos m) + e))) as [Hs Hm].
  destruct (shl_align m e _) as [mz ez]. cbn [fst snd] in Hs, Hm.
  change (Z.pos (digits2_pos m)) with (Zdigits2 (Zpos m)) in *.
  set (f := fexp prec emax (Zdigits2 (Zpos m) + e)) in *.
  assert (Hf : f = Z.max (Zdigits2 (Zpos m) + e - 53) (-1074)) by reflexivity.
  assert (Hdz : Zdigits2 (Zpos mz) + ez = Zdigits2 (Zpos m) + e).
  { rewrite Hm, Zdigits2_shift by lia. lia. }
  pose proof (binary_round_aux_rounds (Zpos mz) ez loc_Exact (Zpos mz) 1
                (rec_ok_exact (Zpos mz) ltac:(lia))) as HR.
  rewrite Hdz in HR. fold f in HR. specialize (HR ltac:(lia)).
  exists (Zpos mz), (1 * 2 ^ (f - ez)), (f + 1074).
  split; [exact HR|]. split; [lia|].
  rewrite Hm, Z.mul_1_r, Z.mul_1_l.
  rewrite <- !Z.mul_assoc, <- !pow2_add by lia.
  do 2 f_equal. lia.
Qed.

Lemma SFmul_Rnd x y :
  valid_binary x = true -> valid_binary y = true ->
  fin_nonneg x -> fin_nonneg y ->
  Rnd (Zval x * Zval y) (2 ^ 1074) (SFmul prec emax x y).
Proof.
  intros Vx Vy Fx Fy.
  assert (HW : 0 < 2 ^ 1074) by (apply pow2_pos; lia).
  destruct x as [sx | | | sx mx ex], y as [sy | | | sy my ey];
    try contradiction; cbn [SFmul Zval];
    rewrite ?Z.mul_0_l, ?Z.mul_0_r; try (apply Rnd_zero; assumption).
  cbn in Fx, Fy. subst sx sy. cbn [xorb cond_Zopp].
  pose proof (valid_finite _ _ _ Vx) as (Hex & Hmx & Hlx).
  pose proof (valid_finite _ _ _ Vy) as (Hey & Hmy & Hly).
  assert (Hdig : ex + ey <= fexp prec emax (Zdigits2 (Zpos (mx * my)) + (ex + ey))).
  { rewrite fexp_eq.
    destruct (Z.eq_dec ex (-1074)) as [Hx|Hx]; destruct (Z.eq_dec ey (-1074)) as [Hy|Hy]; try lia.
    - specialize (Hly ltac:(lia)).
      assert (53 <= Zdigits2 (Zpos (mx * my))).
      { apply (Zdigits2_ge _ 52); [|lia]. rewrite Pos2Z.inj_mul. nia. }
      lia.
    - specialize (Hlx ltac:(lia)).
      assert (53 <= Zdigits2 (Zpos (mx * my))).
      { apply (Zdigits2_ge _ 52); [|lia]. rewrite Pos2Z.inj_mul. nia. }
      lia.
    - specialize (Hlx ltac:(lia)).
      assert (53 <= Zdigits2 (Zpos (mx * my))).
      { apply (Zdigits2_ge _ 52); [|lia]. rewrite Pos2Z.inj_mul. nia. }
      lia. }
  pose proof (binary_round_aux_rounds (Zpos (mx * my)) (ex + ey) loc_Exact (Zpos (mx * my)) 1
                (rec_ok_exact (Zpos (mx * my)) ltac:(lia)) Hdig) as HR.
  set (f := fexp prec emax (Zdigits2 (Zpos (mx * my)) + (ex + ey))) in *.
  assert (Hf : -1074 <= f) by (unfold f; rewrite fexp_eq; lia).
  exists (Zpos (mx * my)), (1 * 2 ^ (f - (ex + ey))), (f + 1074).
  split; [exact HR|]. split; [assumption|].
  rewrite Pos2Z.inj_mul, Z.mul_1_l.
  replace (Z.pos mx * Z.pos my * 2 ^ (f + 1074) * 2 ^ 1074)
    with (Z.pos mx * Z.pos my * (2 ^ (f + 1074) * 2 ^ 1074)) by ring.
  replace (Z.pos mx * 2 ^ (ex + 1074) * (Z.pos my * 2 ^ (ey + 1074)) * 2 ^ (f - (ex + ey)))
    with (Z.pos mx * Z.pos my * (2 ^ (ex + 1074) * 2 ^ (ey + 1074) * 2 ^ (f - (ex + ey)))) by ring.
  rewrite <- !pow2_add by lia. do 2 f_equal. lia.
Qed.

Lemma SFadd_Rnd x y :
  valid_binary x = true -> valid_binary y = true ->
  fin_nonneg x -> fin_nonneg y ->
  Rnd (Zval x + Zval y) 1 (SFadd prec emax x y).
Proof.
  intros Vx Vy Fx Fy.
  destruct x as [sx | | | sx mx ex], y as [sy | | | sy my ey];
    try contradiction; cbn [SFadd Zval].
  - destruct sx, sy; apply Rnd_zero; lia.
  - cbn in Fy. subst sy. cbn [cond_Zopp]. rewrite Z.add_0_l. apply Rnd_exact; assumption.
  - cbn in Fx. subst sx. cbn [cond_Zopp]. rewrite Z.add_0_r. apply Rnd_exact; assumption.
  - cbn in Fx, Fy. subst sx sy. cbn [cond_Zopp].
    pose proof (valid_finite _ _ _ Vx) as (Hex & _).
    pose proof (valid_finite _ _ _ Vy) as (Hey & _).
    pose proof (shl_align_spec mx ex (Z.min ex ey)) as [_ Hx].
    pose proof (shl_align_spec my ey (Z.min ex ey)) as [_ Hy].
    replace (Z.min ex (Z.min ex ey)) with (Z.min ex ey) in Hx by lia.
    replace (Z.min ey (Z.min ex ey)) with (Z.min ex ey) in Hy by lia.
    set (ez := Z.min ex ey) in *.
    destruct (shl_align mx ex ez) as [ax ?], (shl_align my ey ez) as [ay ?].
    cbn [fst] in *.
    change (Z.pos ax + Z.pos ay) with (Z.pos (ax + ay)).
    cbn [binary_normalize].
    replace (Z.pos mx * 2 ^ (ex + 1074) + Z.pos my * 2 ^ (ey + 1074))
      with (Z.pos (ax + ay) * 2 ^ (ez + 1074)).
    + apply binary_round_Rnd. unfold ez; lia.
    + rewrite Pos2Z.inj_add, Hx, Hy.
      replace (ex + 1074) with ((ex - ez) + (ez + 1074)) by lia.
      replace (ey + 1074) with ((ey - ez) + (ez + 1074)) by lia.
      rewrite (pow2_add (ex - ez) (ez + 1074)), (pow2_add (ey - ez) (ez + 1074))
        by (unfold ez; lia).
      ring.
Qed.

Lemma new_location_ok nb k q :
  0 < nb -> 0 <= k < nb -> 0 <= q ->
  rec_ok (shr_record_of_loc q (new_location nb k)) (q * nb + k) nb.
Proof.
  intros Hnb Hk Hq.
  assert (Hdiv : (q * nb + k) / nb = q).
  { symmetry. apply Z.div_unique with k; lia. }
  assert (Hmod : (q * nb + k) mod nb = k).
  { symmetry. apply Z.mod_unique with q; lia. }
  assert (HM : forall l, shr_m (shr_record_of_loc q l) = q) by (intros [|[]]; reflexivity).
  unfold rec_ok. rewrite Hdiv, Hmod, HM.
  split; [nia|]. split; [assumption|]. split; [reflexivity|].
  unfold new_location, new_location_even, new_location_odd.
  destruct (Z.even nb) eqn:Hev.
  - destruct (Z.eqb_spec k 0) as [-> | Hk0].
    + cbn [shr_record_of_loc shr_r shr_s]. rewrite Z.mul_0_r.
      destruct (Z.leb_spec nb 0); [lia|]. split; reflexivity.
    + destruct (Z.compare_spec (2 * k) nb); cbn [shr_record_of_loc shr_r shr_s];
        destruct (Z.leb_spec nb (2 * k)); try lia;
        destruct (Z.eqb_spec (2 * k) nb); try lia; split; reflexivity.
  - assert (Hodd : 2 * k <> nb).
    { intros <-. rewrite Z.even_mul in Hev. discriminate. }
    destruct (Z.eqb_spec k 0) as [-> | Hk0].
    + cbn [shr_record_of_loc shr_r shr_s]. rewrite Z.mul_0_r.
      destruct (Z.leb_spec nb 0); [lia|]. split; reflexivity.
    + destruct (Z.compare_spec (2 * k + 1) nb); cbn [shr_record_of_loc shr_r shr_s];
        destruct (Z.leb_spec nb (2 * k)); try lia;
        destruct (Z.eqb_spec (2 * k) nb); try lia; split; reflexivity.
Qed.

Lemma shift_or_zero m s :
  0 <= s ->
  match s with
  | 0 => m
  | Z.pos _ => Z.shiftl m s
  | Z.neg _ => 0
  end = m * 2 ^ s.
Proof.
  intros H. destruct s; [rewrite Z.pow_0_r; lia | apply Z.shiftl_mul_pow2; lia | lia].
Qed.

Lemma SFdiv_Rnd x my ey :
  valid_binary x = true -> valid_binary (S754_finite false my ey) = true ->
  fin_nonneg x ->
  Rnd (Zval x * 2 ^ 1074) (Zpos my * 2 ^ (ey + 1074))
      (SFdiv prec emax x (S754_finite false my ey)).
Proof.
  intros Vx Vy Fx.
  pose proof (finite_scaled_bounds _ _ _ Vy) as By.
  destruct x as [sx | | | sx mx ex]; try contradiction; cbn [SFdiv Zval].
  - rewrite Z.mul_0_l. apply Rnd_zero. lia.
  - cbn in Fx. subst sx. cbn [xorb cond_Zopp].
    pose proof (valid_finite _ _ _ Vx) as (Hex & Hmx & Hlx).
    pose proof (valid_finite _ _ _ Vy) as (Hey & Hmy & Hly).
    unfold SFdiv_core_binary.
    set (d1 := Zdigits2 (Z.pos mx)). set (d2 := Zdigits2 (Z.pos my)).
    set (e' := Z.min (fexp prec emax (d1 + ex - (d2 + ey))) (ex - ey)).
    set (s := ex - ey - e').
    assert (Hs : 0 <= s) by (unfold s, e'; lia).
    set (m' := match s with
               | 0 => Z.pos mx
               | Z.pos _ => Z.shiftl (Z.pos mx) s
               | Z.neg _ => 0
               end).
    assert (Hm' : m' = Z.pos mx * 2 ^ s) by (apply shift_or_zero; exact Hs).
    pose proof (pow2_pos s Hs) as Hps.
    pose proof (Z_div_mod m' (Z.pos my) ltac:(lia)) as Hdm.
    destruct (Z.div_eucl m' (Z.pos my)) as [q r]. destruct Hdm as [Hqr Hr].
    assert (Hq : 0 <= q) by nia.
    pose proof (new_location_ok (Z.pos my) r q ltac:(lia) Hr Hq) as Hrec.
    replace (q * Z.pos my + r) with m' in Hrec by lia.
    (* the quotient has enough digits *)
    assert (Hdq : d1 + s - d2 <= Zdigits2 q).
    { pose proof (Zdigits2_nonneg q).
      destruct (Z_le_gt_dec (d1 + s - d2) 0); [lia|].
      replace (d1 + s - d2) with ((d1 + s - d2 - 1) + 1) by lia.
      apply Zdigits2_ge; [|lia].
      destruct (Zdigits2_bounds (Z.pos mx) ltac:(lia)) as [Hl1 _].
      destruct (Zdigits2_bounds (Z.pos my) ltac:(lia)) as [_ Hu2].
      fold d1 in Hl1. fold d2 in Hu2.
      assert (Hd2 : 1 <= d2) by (unfold d2; cbn; lia).
      assert (Hd1 : 1 <= d1) by (unfold d1; cbn; lia).
      assert (Hpow : 2 ^ (d1 - 1) * 2 ^ s = 2 ^ (d1 + s - d2 - 1) * 2 ^ d2).
      { rewrite <- !pow2_add by lia. f_equal. lia. }
      pose proof (pow2_pos (d1 + s - d2 - 1) ltac:(lia)) as Hpp.
      destruct (Z_le_gt_dec (2 ^ (d1 + s - d2 - 1)) q); [assumption|]. exfalso.
      assert (q + 1 <= 2 ^ (d1 + s - d2 - 1)) by lia.
      assert (m' < (q + 1) * Z.pos my) by lia.
      assert ((q + 1) * Z.pos my <= 2 ^ (d1 + s - d2 - 1) * Z.pos my)
        by (apply Z.mul_le_mono_nonneg_r; lia).
      assert (2 ^ (d1 + s - d2 - 1) * Z.pos my < 2 ^ (d1 + s - d2 - 1) * 2 ^ d2)
        by (apply Z.mul_lt_mono_pos_l; lia).
      assert (2 ^ (d1 - 1) * 2 ^ s <= m')
        by (rewrite Hm'; apply Z.mul_le_mono_nonneg_r; lia).
      lia. }
    assert (Hn : e' <= fexp prec emax (Zdigits2 q + e')).
    { assert (He' : e' = Z.min (Z.max (d1 + ex - (d2 + ey) - 53) (-1074)) (ex - ey))
        by reflexivity.
      assert (Hs' : s = ex - ey - e') by reflexivity.
      rewrite fexp_eq. lia. }
    pose proof (binary_round_aux_rounds q e' (new_location (Z.pos my) r) m' (Z.pos my) Hrec Hn) as HR.
    set (f := fexp prec emax (Zdigits2 q + e')) in *.
    assert (Hf : -1074 <= f) by (unfold f; rewrite fexp_eq; lia).
    exists m', (Z.pos my * 2 ^ (f - e')), (f + 1074).
    split; [exact HR|]. split; [lia|].
    rewrite Hm'.
    replace (Z.pos mx * 2 ^ s * 2 ^ (f + 1074) * (Z.pos my * 2 ^ (ey + 1074)))
      with (Z.pos mx * Z.pos my * (2 ^ s * 2 ^ (f + 1074) * 2 ^ (ey + 1074))) by ring.
    replace (Z.pos mx * 2 ^ (ex + 1074) * 2 ^ 1074 * (Z.pos my * 2 ^ (f - e')))
      with (Z.pos mx * Z.pos my * (2 ^ (ex + 1074) * 2 ^ 1074 * 2 ^ (f - e'))) by ring.
    rewrite <- !pow2_add by lia. do 2 f_equal. unfold s. lia.
Qed.

(** ** The sign of a difference *)

Lemma SFltb_Zval x y :
  valid_binary x = true -> valid_binary y = true ->
  is_nan_sf x = false -> is_nan_sf y = false ->
  SFltb x y = (Zval x <? Zval y).
Proof.
  intros Vx Vy Nx Ny. unfold SFltb. rewrite (SFcompare_Zval x y Vx Vy Nx Ny).
  unfold Z.ltb. destruct (Zval x ?= Zval y); reflexivity.
Qed.

Lemma SFleb_Zval x y :
  valid_binary x = true -> valid_binary y = true ->
  is_nan_sf x = false -> is_nan_sf y = false ->
  SFleb x y = (Zval x <=? Zval y).
Proof.
  intros Vx Vy Nx Ny. unfold SFleb. rewrite (SFcompare_Zval x y Vx Vy Nx Ny).
  unfold Z.leb. destruct (Zval x ?= Zval y); reflexivity.
Qed.

Lemma nonneg_pos_ltb r : nonneg_sf r -> 0 < Zval r -> SFltb (S754_zero false) r = true.
Proof.
  destruct r as [s | s | | s m e]; cbn; intros H Hz; try lia; try contradiction;
    subst s; reflexivity.
Qed.

Lemma binary_round_aux_negative m e l :
  SFltb (S754_zero false) (binary_round_aux prec emax true m e l) = false.
Proof.
  unfold binary_round_aux.
  destruct (shr_fexp prec emax m e l) as [mrs' e'].
  destruct (shr_fexp prec emax _ e' loc_Exact) as [mrs'' e''].
  destruct (shr_m mrs''); [reflexivity | | reflexivity].
  destruct (e'' <=? emax - prec); reflexivity.
Qed.

Lemma binary_round_pos m e :
  -1074 <= e -> SFltb (S754_zero false) (binary_round prec emax false m e) = true.
Proof.
  intros He. pose proof (binary_round_Rnd m e He) as HR.
  assert (V1 : valid_binary (S754_finite false 1 (-1074)) = true) by reflexivity.
  pose proof (Rnd_exact 1 (-1074) V1) as H1.
  assert (Hle : 1 * 2 ^ (-1074 + 1074) * 1 <= Z.pos m * 2 ^ (e + 1074) * 1).
  { pose proof (pow2_pos (e + 1074) ltac:(lia)). change (2 ^ (-1074 + 1074)) with 1. nia. }
  pose proof (Rnd_mono _ _ _ _ _ _ H1 HR Hle) as Hz.
  apply nonneg_pos_ltb; [exact (Rnd_nonneg _ _ _ HR)|].
  change (Zval (S754_finite false 1 (-1074))) with 1 in Hz. lia.
Qed.

Lemma SFsub_sign x y :
  valid_binary x = true -> valid_binary y = true ->
  is_nan_sf x = false -> is_nan_sf y = false ->
  SFltb (S754_zero false) (SFsub prec emax x y) = SFltb y x.
Proof.
  intros Vx Vy Nx Ny.
  destruct x as [sx | sx | | sx mx ex], y as [sy | sy | | sy my ey]; try discriminate;
    try (destruct sx; try destruct sy; reflexivity);
    try (destruct sy; reflexivity).
  rewrite (SFltb_Zval _ _ Vy Vx Ny Nx).
  cbn [SFsub Zval].
  pose proof (valid_finite _ _ _ Vx) as (Hex & _).
  pose proof (valid_finite _ _ _ Vy) as (Hey & _).
  pose proof (shl_align_spec mx ex (Z.min ex ey)) as [_ Hx].
  pose proof (shl_align_spec my ey (Z.min ex ey)) as [_ Hy].
  replace (Z.min ex (Z.min ex ey)) with (Z.min ex ey) in Hx by lia.
  replace (Z.min ey (Z.min ex ey)) with (Z.min ex ey) in Hy by lia.
  set (ez := Z.min ex ey) in *.
  destruct (shl_align mx ex ez) as [ax ?], (shl_align my ey ez) as [ay ?].
  cbn [fst] in *.
  assert (Hval : cond_Zopp sx (Z.pos mx * 2 ^ (ex + 1074))
                 - cond_Zopp sy (Z.pos my * 2 ^ (ey + 1074))
                 = (cond_Zopp sx (Z.pos ax) - cond_Zopp sy (Z.pos ay)) * 2 ^ (ez + 1074)).
  { replace (ex + 1074) with ((ex - ez) + (ez + 1074)) by lia.
    replace (ey + 1074) with ((ey - ez) + (ez + 1074)) by lia.
    rewrite (pow2_add (ex - ez) (ez + 1074)), (pow2_add (ey - ez) (ez + 1074))
      by (unfold ez; lia).
    rewrite Hx, Hy. destruct sx, sy; cbn [cond_Zopp]; ring. }
  pose proof (pow2_pos (ez + 1074) ltac:(unfold ez; lia)) as Hp.
  destruct (cond_Zopp sx (Z.pos ax) - cond_Zopp sy (Z.pos ay)) as [| d | d] eqn:Hd;
    cbn [binary_normalize].
  - change (SFltb (S754_zero false) (S754_zero false)) with false.
    symmetry. apply Z.ltb_ge. lia.
  - rewrite binary_round_pos by (unfold ez; lia).
    symmetry. apply Z.ltb_lt. nia.
  - unfold binary_round.
    destruct (shl_align d ez _) as [mz ez'].
    rewrite binary_round_aux_negative. symmetry. apply Z.ltb_ge. nia.
Qed.

End Rounding.

(** ** Facts on primitive floats *)

Section FloatFacts.

Local Open Scope Z_scope.
Local Open Scope float_scope.

Lemma is_nan_sf_spec x : IEEE.is_nan_sf (Prim2SF x) = is_nan x.
Proof.
  unfold is_nan. rewrite FloatAxioms.eqb_spec. unfold SFeqb.
  pose proof (Prim2SF_valid x) as V.
  destruct (Prim2SF x) eqn:E; try reflexivity;
    rewrite <- E in *; rewrite (Rounding.SFcompare_Zval _ _ V V) by (rewrite E; reflexivity);
    rewrite Z.compare_refl, E; reflexivity.
Qed.

Lemma leb_fval x y :
  is_nan x = false -> is_nan y = false -> (x <=? y) = (fval x <=? fval y)%Z.
Proof.
  intros Hx Hy. rewrite FloatAxioms.leb_spec. apply Rounding.SFleb_Zval;
    try apply Prim2SF_valid; rewrite is_nan_sf_spec; assumption.
Qed.

Lemma ltb_fval x y :
  is_nan x = false -> is_nan y = false -> (x <? y) = (fval x <? fval y)%Z.
Proof.
  intros Hx Hy. rewrite FloatAxioms.ltb_spec. apply Rounding.SFltb_Zval;
    try apply Prim2SF_valid; rewrite is_nan_sf_spec; assumption.
Qed.

Lemma leb_not_nan x y : (x <=? y) = true -> is_nan x = false /\ is_nan y = false.
Proof.
  rewrite FloatAxioms.leb_spec, <- !is_nan_sf_spec. unfold SFleb.
  destruct (Prim2SF x), (Prim2SF y); cbn; try discriminate; auto.
Qed.

Lemma sub_pos a b :
  is_nan a = false -> is_nan b = false -> (0 <? a - b) = (b <? a).
Proof.
  intros Ha Hb. rewrite !FloatAxioms.ltb_spec, FloatAxioms.sub_spec.
  change (Prim2SF 0) with (S754_zero false).
  apply Rounding.SFsub_sign; try apply Prim2SF_valid; rewrite is_nan_sf_spec; assumption.
Qed.

Lemma eqb_fval x y :
  is_nan x = false -> is_nan y = false -> (x =? y) = (fval x =? fval y)%Z.
Proof.
  intros Hx Hy. rewrite FloatAxioms.eqb_spec. unfold SFeqb.
  rewrite (Rounding.SFcompare_Zval (Prim2SF x) (Prim2SF y));
    try apply Prim2SF_valid; try (rewrite is_nan_sf_spec; assumption).
  unfold fval.
  destruct (Z.compare_spec (IEEE.Zval (Prim2SF x)) (IEEE.Zval (Prim2SF y)));
    destruct (Z.eqb_spec (IEEE.Zval (Prim2SF x)) (IEEE.Zval (Prim2SF y)));
    try reflexivity; lia.
Qed.

Lemma nonneg_sf_not_nan r : IEEE.nonneg_sf (Prim2SF r) -> is_nan r = false.
Proof.
  rewrite <- is_nan_sf_spec. destruct (Prim2SF r); cbn; intros H; try reflexivity; contradiction.
Qed.

Lemma nonneg_sf_fval r : IEEE.nonneg_sf (Prim2SF r) -> (0 <= fval r)%Z.
Proof.
  unfold fval. destruct (Prim2SF r) as [s | s | | s m e]; cbn [IEEE.nonneg_sf IEEE.Zval];
    intros H; try lia; try contradiction; subst s; cbn [cond_Zopp].
  - apply Z.lt_le_incl, Rounding.pow2_pos. lia.
  - pose proof (Rounding.pow2_pos (e + 1074)) as Hp.
    destruct (Z_lt_le_dec (e + 1074) 0) as [Hneg|Hpos].
    + rewrite Z.pow_neg_r by assumption. lia.
    + specialize (Hp Hpos). nia.
Qed.

Lemma fval_zero : fval 0 = 0%Z.
Proof. reflexivity. Qed.

Lemma fval_infinity : fval infinity = (2 ^ 2098)%Z.
Proof. reflexivity. Qed.

Lemma finite_nonneg_SF x :
  finite_nonneg x -> IEEE.fin_nonneg (Prim2SF x) /\ is_nan x = false.
Proof.
  intros [H0 Hi]. pose proof (leb_not_nan _ _ H0) as [_ Hn]. split; [|exact Hn].
  rewrite FloatAxioms.leb_spec in H0. rewrite FloatAxioms.ltb_spec in Hi.
  change (Prim2SF 0) with (S754_zero false) in H0.
  change (Prim2SF infinity) with (S754_infinity false) in Hi.
  destruct (Prim2SF x) as [s | s | | s m e]; cbn in *; try exact I; try discriminate.
  - destruct s; discriminate.
  - destruct s; [discriminate | reflexivity].
Qed.

Lemma finite_nonneg_fval x :
  is_nan x = false -> (0 <= fval x < 2 ^ 2098)%Z -> finite_nonneg x.
Proof.
  intros Hn [H0 Hi]. unfold finite_nonneg.
  rewrite leb_fval, ltb_fval by (assumption || reflexivity).
  rewrite fval_zero, fval_infinity. split; [apply Z.leb_le | apply Z.ltb_lt]; assumption.
Qed.

Lemma finite_nonneg_bounds x :
  finite_nonneg x -> is_nan x = false /\ (0 <= fval x < 2 ^ 2098)%Z.
Proof.
  intros [H0 Hi]. pose proof (leb_not_nan _ _ H0) as [_ Hn]. split; [exact Hn|].
  rewrite leb_fval in H0 by (assumption || reflexivity).
  rewrite ltb_fval in Hi by (assumption || reflexivity).
  rewrite fval_zero in H0. rewrite fval_infinity in Hi.
  apply Z.leb_le in H0. apply Z.ltb_lt in Hi. lia.
Qed.

Lemma positive_finite_SF c :
  (0 <? c) = true -> (c <? infinity) = true ->
  exists m e, Prim2SF c = S754_finite false m e.
Proof.
  intros H0 Hi.
  rewrite FloatAxioms.ltb_spec in H0, Hi.
  change (Prim2SF 0) with (S754_zero false) in H0.
  change (Prim2SF infinity) with (S754_infinity false) in Hi.
  destruct (Prim2SF c) as [s | s | | s m e]; cbn in *; try discriminate.
  - destruct s; discriminate.
  - destruct s; [discriminate|]. eauto.
Qed.

(** The quotient by a positive finite number: never NaN, never negative,
    and monotone in the numerator. *)
Lemma div_Rnd a c m e :
  finite_nonneg a -> Prim2SF c = S754_finite false m e ->
  IEEE.Rnd (fval a * 2 ^ 1074) (fval c) (Prim2SF (a / c)).
Proof.
  intros Ha Hc. rewrite FloatAxioms.div_spec. unfold fval. rewrite Hc.
  apply Rounding.SFdiv_Rnd.
  - apply Prim2SF_valid.
  - rewrite <- Hc. apply Prim2SF_valid.
  - apply finite_nonneg_SF. assumption.
Qed.

Lemma div_nonneg a c :
  finite_nonneg a -> (0 <? c) = true -> (c <? infinity) = true ->
  is_nan (a / c) = false /\ (0 <= fval (a / c))%Z.
Proof.
  intros Ha H0 Hi. destruct (positive_finite_SF c H0 Hi) as (m & e & Hc).
  pose proof (Rounding.Rnd_nonneg _ _ _ (div_Rnd a c m e Ha Hc)) as Hn.
  split; [apply nonneg_sf_not_nan | apply nonneg_sf_fval]; assumption.
Qed.

Lemma div_mono a b c :
  finite_nonneg a -> finite_nonneg b -> (a <=? b) = true ->
  (0 <? c) = true -> (c <? infinity) = true ->
  (fval (a / c) <= fval (b / c))%Z.
Proof.
  intros Ha Hb Hab H0 Hi. destruct (positive_finite_SF c H0 Hi) as (m & e & Hc).
  pose proof (div_Rnd a c m e Ha Hc) as Ra. pose proof (div_Rnd b c m e Hb Hc) as Rb.
  apply (Rounding.Rnd_mono _ _ _ _ _ _ Ra Rb).
  destruct (finite_nonneg_bounds a Ha) as [Na _], (finite_nonneg_bounds b Hb) as [Nb _].
  rewrite leb_fval in Hab by assumption. apply Z.leb_le in Hab.
  destruct Ra as (_ & _ & _ & _ & HW & _).
  assert (0 < 2 ^ 1074)%Z by (apply Rounding.pow2_pos; lia).
  apply Z.mul_le_mono_nonneg_r; [lia|].
  apply Z.mul_le_mono_nonneg_r; lia.
Qed.

Lemma mul_Rnd a c :
  finite_nonneg a -> finite_nonneg c ->
  IEEE.Rnd (fval a * fval c) (2 ^ 1074) (Prim2SF (a * c)).
Proof.
  intros Ha Hc. rewrite FloatAxioms.mul_spec.
  apply Rounding.SFmul_Rnd; try apply Prim2SF_valid; apply finite_nonneg_SF; assumption.
Qed.

Lemma mul_nonneg a c :
  finite_nonneg a -> finite_nonneg c ->
  is_nan (a * c) = false /\ (0 <= fval (a * c))%Z.
Proof.
  intros Ha Hc. pose proof (Rounding.Rnd_nonneg _ _ _ (mul_Rnd a c Ha Hc)) as Hn.
  split; [apply nonneg_sf_not_nan | apply nonneg_sf_fval]; assumption.
Qed.

Lemma mul_mono a b c :
  finite_nonneg a -> finite_nonneg b -> finite_nonneg c -> (a <=? b) = true ->
  (fval (a * c) <= fval (b * c))%Z.
Proof.
  intros Ha Hb Hc Hab.
  apply (Rounding.Rnd_mono _ _ _ _ _ _ (mul_Rnd a c Ha Hc) (mul_Rnd b c Hb Hc)).
  destruct (finite_nonneg_bounds a Ha) as [Na _], (finite_nonneg_bounds b Hb) as [Nb _].
  destruct (finite_nonneg_bounds c Hc) as [_ Bc].
  rewrite leb_fval in Hab by assumption. apply Z.leb_le in Hab.
  assert (0 < 2 ^ 1074)%Z by (apply Rounding.pow2_pos; lia).
  apply Z.mul_le_mono_nonneg_r; [lia|].
  apply Z.mul_le_mono_nonneg_r; lia.
Qed.

Lemma add_Rnd a b :
  finite_nonneg a -> finite_nonneg b ->
  IEEE.Rnd (fval a + fval b) 1 (Prim2SF (a + b)).
Proof.
  intros Ha Hb. rewrite FloatAxioms.add_spec.
  apply Rounding.SFadd_Rnd; try apply Prim2SF_valid; apply finite_nonneg_SF; assumption.
Qed.

Lemma add_nonneg a b :
  finite_nonneg a -> finite_nonneg b ->
  is_nan (a + b) = false /\ (0 <= fval (a + b))%Z.
Proof.
  intros Ha Hb. pose proof (Rounding.Rnd_nonneg _ _ _ (add_Rnd a b Ha Hb)) as Hn.
  split; [apply nonneg_sf_not_nan | apply nonneg_sf_fval]; assumption.
Qed.

Lemma add_mono a a' b b' :
  finite_nonneg a -> finite_nonneg a' -> finite_nonneg b -> finite_nonneg b' ->
  (a <=? a') = true -> (b <=? b') = true ->
  (fval (a + b) <= fval (a' + b'))%Z.
Proof.
  intros Ha Ha' Hb Hb' Haa Hbb.
  apply (Rounding.Rnd_mono _ _ _ _ _ _ (add_Rnd a b Ha Hb) (add_Rnd a' b' Ha' Hb')).
  destruct (finite_nonneg_bounds a Ha) as [Na _], (finite_nonneg_bounds a' Ha') as [Na' _].
  destruct (finite_nonneg_bounds b Hb) as [Nb _], (finite_nonneg_bounds b' Hb') as [Nb' _].
  rewrite leb_fval in Haa, Hbb by assumption. apply Z.leb_le in Haa, Hbb. lia.
Qed.

End FloatFacts.

(** * The relevance score *)

Section ScoreFacts.

Local Open Scope Z_scope.
Local Open Scope float_scope.

Lemma leb_intro x y :
  is_nan x = false -> is_nan y = false -> (fval x <= fval y)%Z -> (x <=? y) = true.
Proof. intros Hx Hy H. rewrite leb_fval by assumption. apply Z.leb_le. exact H. Qed.

Lemma leb_elim x y :
  (x <=? y) = true -> is_nan x = false /\ is_nan y = false /\ (fval x <= fval y)%Z.
Proof.
  intros H. destruct (leb_not_nan _ _ H) as [Hx Hy].
  rewrite leb_fval in H by assumption. apply Z.leb_le in H. auto.
Qed.

Lemma truthy_spec x : JS.truthy x = true <-> is_nan x = false /\ fval x <> 0%Z.
Proof.
  unfold JS.truthy, is_zero. destruct (is_nan x) eqn:Hn; cbn [orb negb].
  - split; [discriminate | intros [? _]; discriminate].
  - rewrite eqb_fval by (assumption || reflexivity). change (fval zero) with 0%Z.
    destruct (Z.eqb_spec (fval x) 0); cbn [negb]; split; try (intros [_ ?]); auto;
      try discriminate; contradiction.
Qed.

Lemma Math_min_fval x y :
  is_nan x = false -> is_nan y = false ->
  is_nan (JS.Math_min x y) = false /\ fval (JS.Math_min x y) = Z.min (fval x) (fval y).
Proof.
  intros Hx Hy. unfold JS.Math_min. rewrite Hx, Hy. cbn [orb].
  rewrite !ltb_fval by assumption.
  destruct (Z.ltb_spec (fval x) (fval y)); [split; [assumption | lia]|].
  destruct (Z.ltb_spec (fval y) (fval x)); [split; [assumption | lia]|].
  destruct (get_sign x); split; try assumption; lia.
Qed.

Lemma finite_nonneg_50 : finite_nonneg 50.
Proof. split; reflexivity. Qed.

Lemma finite_nonneg_10 : finite_nonneg 10.
Proof. split; reflexivity. Qed.

Lemma finite_nonneg_1 : finite_nonneg 1.
Proof. split; reflexivity. Qed.

Lemma finite_nonneg_0 : finite_nonneg 0.
Proof. split; reflexivity. Qed.

Lemma fval_100_finite : (fval 100 < 2 ^ 2098)%Z.
Proof. vm_compute. reflexivity. Qed.

Lemma fval_50_le_100 : (fval 50 <= fval 100)%Z.
Proof. vm_compute. discriminate. Qed.

Lemma fval_1_le_50 : (fval 1 <= fval 50)%Z.
Proof. vm_compute. discriminate. Qed.

Lemma fval_10_le_50 : (fval 10 <= fval 50)%Z.
Proof. vm_compute. discriminate. Qed.

(** A non-negative number below a finite bound is finite. *)
Lemma finite_nonneg_below x c :
  is_nan x = false -> (0 <= fval x <= fval c)%Z -> (fval c <= fval 100)%Z -> finite_nonneg x.
Proof.
  intros Hn Hx Hc. apply finite_nonneg_fval; [assumption|].
  pose proof fval_100_finite. lia.
Qed.

Lemma positive_of_truthy x :
  finite_nonneg x -> JS.truthy x = true -> (0 <? x) = true /\ (x <? infinity) = true.
Proof.
  intros Hf Ht. destruct (finite_nonneg_bounds x Hf) as [Hn Hb].
  apply truthy_spec in Ht. destruct Ht as [_ Hz]. split; [|apply Hf].
  rewrite ltb_fval by (assumption || reflexivity). rewrite fval_zero. apply Z.ltb_lt. lia.
Qed.

Lemma capped_ratio p ps :
  finite_nonneg p -> finite_nonneg ps -> JS.truthy ps = true ->
  finite_nonneg (JS.Math_min (p / ps) 1) /\ (JS.Math_min (p / ps) 1 <=? 1) = true.
Proof.
  intros Hp Hps Ht. destruct (positive_of_truthy ps Hps Ht) as [H0 Hi].
  destruct (div_nonneg p ps Hp H0 Hi) as [Hn Hq].
  destruct (Math_min_fval (p / ps) 1 Hn eq_refl) as [Hmn Hmv].
  assert (Hb : (0 <= fval (JS.Math_min (p / ps) 1) <= fval 1)%Z).
  { rewrite Hmv. change (fval 1) with (IEEE.Zval (Prim2SF 1)).
    assert (0 <= IEEE.Zval (Prim2SF 1))%Z by (vm_compute; discriminate). lia. }
  split.
  - apply (finite_nonneg_below _ 1); [assumption | assumption |].
    pose proof fval_1_le_50. pose proof fval_50_le_100. lia.
  - apply leb_intro; [assumption | reflexivity | lia].
Qed.

Lemma times_50 t :
  finite_nonneg t -> (t <=? 1) = true ->
  finite_nonneg (t * 50) /\ (t * 50 <=? 50) = true.
Proof.
  intros Ht H1. destruct (mul_nonneg t 50 Ht finite_nonneg_50) as [Hn H0].
  pose proof (mul_mono t 1 50 Ht finite_nonneg_1 finite_nonneg_50 H1) as Hm.
  change (1 * 50) with 50 in Hm.
  split.
  - apply (finite_nonneg_below _ 50); [assumption | lia | apply fval_50_le_100].
  - apply leb_intro; [assumption | reflexivity | assumption].
Qed.

Lemma popularity_component_range p ps :
  finite_nonneg p -> finite_nonneg ps -> JS.truthy ps = true ->
  finite_nonneg (JS.Math_min (p / ps) 1 * 50) /\ (JS.Math_min (p / ps) 1 * 50 <=? 50) = true.
Proof.
  intros Hp Hps Ht. destruct (capped_ratio p ps Hp Hps Ht) as [Hf H1].
  apply times_50; assumption.
Qed.

Lemma popularity_component_mono p1 p2 ps :
  finite_nonneg p1 -> finite_nonneg p2 -> finite_nonneg ps -> JS.truthy ps = true ->
  (p1 <=? p2) = true ->
  (JS.Math_min (p1 / ps) 1 * 50 <=? JS.Math_min (p2 / ps) 1 * 50) = true.
Proof.
  intros H1 H2 Hps Ht Hle. destruct (positive_of_truthy ps Hps Ht) as [H0 Hi].
  destruct (capped_ratio p1 ps H1 Hps Ht) as [Hf1 _].
  destruct (capped_ratio p2 ps H2 Hps Ht) as [Hf2 _].
  destruct (div_nonneg p1 ps H1 H0 Hi) as [Hn1 _].
  destruct (div_nonneg p2 ps H2 H0 Hi) as [Hn2 _].
  pose proof (div_mono p1 p2 ps H1 H2 Hle H0 Hi) as Hq.
  destruct (Math_min_fval (p1 / ps) 1 Hn1 eq_refl) as [Hm1 Hv1].
  destruct (Math_min_fval (p2 / ps) 1 Hn2 eq_refl) as [Hm2 Hv2].
  assert (Hmin : (JS.Math_min (p1 / ps) 1 <=? JS.Math_min (p2 / ps) 1) = true)
    by (apply leb_intro; [assumption | assumption | lia]).
  pose proof (mul_mono _ _ 50 Hf1 Hf2 finite_nonneg_50 Hmin) as Hm.
  destruct (mul_nonneg _ 50 Hf1 finite_nonneg_50) as [Na _].
  destruct (mul_nonneg _ 50 Hf2 finite_nonneg_50) as [Nb _].
  apply leb_intro; assumption.
Qed.

(** [v || 0] on a rating of the data model. *)
Lemma or_number_rating v :
  valid_rating v ->
  finite_nonneg (JS.or_number v 0) /\ (JS.or_number v 0 <=? 10) = true /\
  (forall x, v = JS.Num x -> fval (JS.or_number v 0) = fval x).
Proof.
  intros Hv. unfold JS.or_number. destruct v as [| | x]; cbn [JS.ToBoolean JS.ToNumber].
  - split; [apply finite_nonneg_0|]. split; [reflexivity | discriminate].
  - split; [apply finite_nonneg_0|]. split; [reflexivity | discriminate].
  - cbn in Hv. destruct Hv as [H0 H10].
    destruct (leb_elim _ _ H0) as (_ & Hn & Hz). destruct (leb_elim _ _ H10) as (_ & _ & Hu).
    rewrite fval_zero in Hz.
    destruct (JS.truthy x) eqn:Ht.
    + split.
      * apply (finite_nonneg_below _ 10); [assumption | lia |].
        pose proof fval_10_le_50. pose proof fval_50_le_100. lia.
      * split; [assumption|]. intros y [= <-]. reflexivity.
    + split; [apply finite_nonneg_0|]. split; [reflexivity|].
      intros y [= <-]. rewrite fval_zero.
      destruct (Z.eq_dec (fval x) 0) as [E|E]; [symmetry; exact E|].
      assert (JS.truthy x = true) by (apply truthy_spec; auto). congruence.
Qed.

Lemma div_10 u :
  finite_nonneg u -> (u <=? 10) = true ->
  finite_nonneg (u / 10) /\ (u / 10 <=? 1) = true.
Proof.
  intros Hu H10.
  destruct (div_nonneg u 10 Hu eq_refl eq_refl) as [Hn H0].
  pose proof (div_mono u 10 10 Hu finite_nonneg_10 H10 eq_refl eq_refl) as Hm.
  change (10 / 10) with 1 in Hm.
  split.
  - apply (finite_nonneg_below _ 1); [assumption | lia |].
    pose proof fval_1_le_50. pose proof fval_50_le_100. lia.
  - apply leb_intro; [assumption | reflexivity | assumption].
Qed.

Lemma rating_component_range v :
  valid_rating v ->
  finite_nonneg (JS.or_number v 0 / 10 * 50) /\ (JS.or_number v 0 / 10 * 50 <=? 50) = true.
Proof.
  intros Hv. destruct (or_number_rating v Hv) as (Hf & H10 & _).
  destruct (div_10 _ Hf H10) as [Hd H1]. apply times_50; assumption.
Qed.

Lemma rating_component_mono x1 x2 :
  valid_rating (JS.Num x1) -> valid_rating (JS.Num x2) -> (x1 <=? x2) = true ->
  (JS.or_number (JS.Num x1) 0 / 10 * 50 <=? JS.or_number (JS.Num x2) 0 / 10 * 50) = true.
Proof.
  intros V1 V2 Hle.
  destruct (or_number_rating _ V1) as (Hf1 & H101 & E1).
  destruct (or_number_rating _ V2) as (Hf2 & H102 & E2).
  specialize (E1 x1 eq_refl). specialize (E2 x2 eq_refl).
  destruct (leb_elim _ _ Hle) as (_ & _ & Hx).
  destruct (finite_nonneg_bounds _ Hf1) as [N1 _], (finite_nonneg_bounds _ Hf2) as [N2 _].
  assert (Hu : (JS.or_number (JS.Num x1) 0 <=? JS.or_number (JS.Num x2) 0) = true)
    by (apply leb_intro; [assumption | assumption | lia]).
  destruct (div_10 _ Hf1 H101) as [Hd1 _]. destruct (div_10 _ Hf2 H102) as [Hd2 _].
  pose proof (div_mono _ _ 10 Hf1 Hf2 Hu eq_refl eq_refl) as Hq.
  destruct (finite_nonneg_bounds _ Hd1) as [Nd1 _], (finite_nonneg_bounds _ Hd2) as [Nd2 _].
  assert (Hd : (JS.or_number (JS.Num x1) 0 / 10 <=? JS.or_number (JS.Num x2) 0 / 10) = true)
    by (apply leb_intro; assumption).
  pose proof (mul_mono _ _ 50 Hd1 Hd2 finite_nonneg_50 Hd) as Hm.
  destruct (mul_nonneg _ 50 Hd1 finite_nonneg_50) as [Na _].
  destruct (mul_nonneg _ 50 Hd2 finite_nonneg_50) as [Nb _].
  apply leb_intro; assumption.
Qed.

Lemma sum_range a b :
  finite_nonneg a -> (a <=? 50) = true -> finite_nonneg b -> (b <=? 50) = true ->
  in_score_range (a + b).
Proof.
  intros Ha Ha50 Hb Hb50. destruct (add_nonneg a b Ha Hb) as [Hn H0].
  pose proof (add_mono a 50 b 50 Ha finite_nonneg_50 Hb finite_nonneg_50 Ha50 Hb50) as Hm.
  change (50 + 50) with 100 in Hm.
  split; apply leb_intro; try assumption; reflexivity.
Qed.

Lemma sum_mono a a' b b' :
  finite_nonneg a -> finite_nonneg a' -> finite_nonneg b -> finite_nonneg b' ->
  (a <=? a') = true -> (b <=? b') = true -> (a + b <=? a' + b') = true.
Proof.
  intros Ha Ha' Hb Hb' H1 H2.
  destruct (add_nonneg a b Ha Hb) as [N1 _]. destruct (add_nonneg a' b' Ha' Hb') as [N2 _].
  apply leb_intro; [assumption | assumption |]. apply add_mono; assumption.
Qed.

Lemma leb_refl_number x : is_nan x = false -> (x <=? x) = true.
Proof. intros H. apply leb_intro; [assumption | assumption | lia]. Qed.

End ScoreFacts.

Section ScoreClaims.

Local Open Scope float_scope.

Lemma calculateRelevanceScore_returns it src :
  returns (calculateRelevanceScore it src)
    (if negb (JS.ToBoolean (source_popularity src)) || negb (JS.ToBoolean (popularity it))
     then 0 else popularityScore it src + ratingScore it).
Proof.
  unfold returns, calculateRelevanceScore.
  destruct (negb (JS.ToBoolean (source_popularity src)) || negb (JS.ToBoolean (popularity it)));
    reflexivity.
Qed.

Lemma returns_inj {A : Type} (m : M A) (a b : A) : returns m a -> returns m b -> a = b.
Proof. unfold returns. intros H1 H2. congruence. Qed.

Lemma missing_or_zero_falsy v : missing_or_zero v -> JS.ToBoolean v = false.
Proof.
  destruct v as [| | x]; cbn; try reflexivity.
  unfold JS.truthy. change (is_zero x) with (x =? 0).
  intros [H | H]; rewrite H; [rewrite orb_true_r|]; reflexivity.
Qed.

(** C3 (as amended): when the popularity of the candidate or of the source
    title is absent, null, a zero or NaN, the scorer returns 0. *)
Theorem score_zero_without_popularity (it : item) (src : option json) :
  missing_or_zero (popularity it) \/ missing_or_zero (source_popularity src) ->
  returns (calculateRelevanceScore it src) 0.
Proof.
  intros H. pose proof (calculateRelevanceScore_returns it src) as R.
  destruct H as [H | H]; apply missing_or_zero_falsy in H; rewrite H in R;
    cbn [negb orb] in R; [rewrite orb_true_r in R|]; exact R.
Qed.

Lemma score_zero_without_popularity_witness :
  returns (calculateRelevanceScore (candidate 7 (JS.Num 0) (JS.Num 8) (JS.Num 100))
                                   (source (JS.Num 10))) 0.
Proof.
  apply (score_zero_without_popularity
           (candidate 7 (JS.Num 0) (JS.Num 8) (JS.Num 100)) (source (JS.Num 10))).
  left. cbn. left. reflexivity.
Defined.

(** C3 as stated fails: a candidate of popularity -5, below zero, against a
    source title of popularity 10 scores -25, not 0. *)
Lemma negative_popularity_scores_nonzero :
  nonpositive_or_missing (popularity (candidate 7 (JS.Num (-5)) JS.Undefined (JS.Num 100))) /\
  returns (calculateRelevanceScore (candidate 7 (JS.Num (-5)) JS.Undefined (JS.Num 100))
                                   (source (JS.Num 10))) (-25) /\
  ~ returns (calculateRelevanceScore (candidate 7 (JS.Num (-5)) JS.Undefined (JS.Num 100))
                                     (source (JS.Num 10))) 0.
Proof.
  split; [reflexivity|]. split; [reflexivity|].
  intros H.
  assert (R : returns (calculateRelevanceScore
                         (candidate 7 (JS.Num (-5)) JS.Undefined (JS.Num 100))
                         (source (JS.Num 10))) (-25)) by reflexivity.
  pose proof (returns_inj _ _ _ H R) as E.
  apply (f_equal (fun x => x =? 0)) in E. vm_compute in E. discriminate.
Qed.

Lemma valid_popularity_truthy v :
  valid_popularity v -> JS.ToBoolean v = true ->
  exists p, v = JS.Num p /\ finite_nonneg p /\ JS.truthy p = true.
Proof.
  destruct v as [| | p]; cbn; try discriminate. intros Hf Ht. eauto.
Qed.

Lemma components_sum_in_range it src :
  valid_popularity (popularity it) -> valid_rating (vote_average it) ->
  valid_popularity (source_popularity src) ->
  JS.ToBoolean (source_popularity src) = true -> JS.ToBoolean (popularity it) = true ->
  in_score_range (popularityScore it src + ratingScore it).
Proof.
  intros Vp Vr Vs Ts Tp.
  destruct (valid_popularity_truthy _ Vp Tp) as (p & Ep & Fp & _).
  destruct (valid_popularity_truthy _ Vs Ts) as (ps & Es & Fs & Hts).
  unfold popularityScore, ratingScore. rewrite Ep, Es. cbn [JS.ToNumber].
  destruct (popularity_component_range p ps Fp Fs Hts) as [Ha Ha50].
  destruct (rating_component_range _ Vr) as [Hb Hb50].
  apply sum_range; assumption.
Qed.

Lemma valid_data_in_range it src :
  valid_popularity (popularity it) -> valid_rating (vote_average it) ->
  valid_popularity (source_popularity src) ->
  exists s, returns (calculateRelevanceScore it src) s /\ in_score_range s.
Proof.
  intros Vp Vr Vs. eexists. split; [apply calculateRelevanceScore_returns|].
  destruct (JS.ToBoolean (source_popularity src)) eqn:Ts;
    destruct (JS.ToBoolean (popularity it)) eqn:Tp; cbn [negb orb];
    try (split; reflexivity).
  apply components_sum_in_range; assumption.
Qed.

(** C4 (as amended): for a candidate and a source title within the ranges
    of the data model (popularity finite and not negative, average rating
    between 0 and 10, either possibly missing), the scorer returns a number
    between 0 and 100. *)
Theorem score_in_range (it : item) (src : option json) :
  valid_popularity (popularity it) -> valid_rating (vote_average it) ->
  valid_popularity (source_popularity src) ->
  exists s, returns (calculateRelevanceScore it src) s /\ in_score_range s.
Proof. apply valid_data_in_range. Qed.

Lemma score_in_range_witness :
  exists s, returns (calculateRelevanceScore (candidate 1 (JS.Num 10) (JS.Num 8) (JS.Num 100))
                                             (source (JS.Num 20))) s
            /\ in_score_range s.
Proof.
  apply (score_in_range (candidate 1 (JS.Num 10) (JS.Num 8) (JS.Num 100)) (source (JS.Num 20))).
  - split; reflexivity.
  - split; reflexivity.
  - split; reflexivity.
Defined.

(** C4 as stated fails: with an average rating of 20 and a popularity equal
    to the source's, the score is 150. *)
Lemma score_out_of_range :
  returns (calculateRelevanceScore (candidate 1 (JS.Num 1) (JS.Num 20) (JS.Num 100))
                                   (source (JS.Num 1))) 150 /\
  ~ in_score_range 150.
Proof.
  split; [reflexivity|]. intros [_ R]. vm_compute in R. discriminate.
Qed.

(** C5 (as amended): for a source title and two candidates within the
    ranges of the data model, a candidate that differs from the other only
    by a larger popularity, or only by a larger average rating, never scores
    lower. *)
Theorem score_monotone (it1 it2 : item) (src : option json) :
  valid_popularity (source_popularity src) ->
  valid_popularity (popularity it1) -> valid_popularity (popularity it2) ->
  valid_rating (vote_average it1) -> valid_rating (vote_average it2) ->
  (vote_average it1 = vote_average it2 /\ number_le (popularity it1) (popularity it2))
  \/ (popularity it1 = popularity it2 /\ number_le (vote_average it1) (vote_average it2)) ->
  exists s1 s2,
    returns (calculateRelevanceScore it1 src) s1 /\
    returns (calculateRelevanceScore it2 src) s2 /\
    (s1 <=? s2) = true.
Proof.
  intros Vs Vp1 Vp2 Vr1 Vr2 Hd.
  do 2 eexists. split; [apply calculateRelevanceScore_returns|].
  split; [apply calculateRelevanceScore_returns|].
  destruct (JS.ToBoolean (source_popularity src)) eqn:Ts; cbn [negb orb]; [|reflexivity].
  destruct (valid_popularity_truthy _ Vs Ts) as (ps & Es & Fs & Hts).
  destruct Hd as [[Eva Hle] | [Epop Hle]].
  - (* a larger popularity *)
    destruct (popularity it1) as [| | p1] eqn:E1; try contradiction.
    destruct (popularity it2) as [| | p2] eqn:E2; try contradiction.
    cbn in Hle, Vp1, Vp2. cbn [JS.ToBoolean].
    destruct (JS.truthy p1) eqn:T1; cbn [negb].
    + assert (T2 : JS.truthy p2 = true).
      { apply truthy_spec in T1. destruct T1 as [_ Hz].
        destruct (leb_elim _ _ Hle) as (_ & N2 & Hv).
        destruct (finite_nonneg_bounds p1 Vp1) as [_ B1].
        apply truthy_spec. split; [assumption | lia]. }
      rewrite T2. cbn [negb].
      unfold popularityScore, ratingScore. rewrite E1, E2, Es, Eva. cbn [JS.ToNumber].
      destruct (popularity_component_range p1 ps Vp1 Fs Hts) as [Ha _].
      destruct (popularity_component_range p2 ps Vp2 Fs Hts) as [Ha' _].
      destruct (rating_component_range _ Vr2) as [Hb _].
      apply sum_mono; try assumption.
      * apply popularity_component_mono; assumption.
      * apply leb_refl_number. apply (finite_nonneg_bounds _ Hb).
    + destruct (JS.truthy p2) eqn:T2; cbn [negb]; [|reflexivity].
      apply (components_sum_in_range it2 src); rewrite ?E2; cbn; assumption.
  - (* a larger average rating *)
    rewrite <- Epop.
    destruct (JS.ToBoolean (popularity it1)) eqn:Tp; cbn [negb]; [|reflexivity].
    destruct (valid_popularity_truthy _ Vp1 Tp) as (p & Ep & Fp & _).
    destruct (vote_average it1) as [| | x1] eqn:E1; try contradiction.
    destruct (vote_average it2) as [| | x2] eqn:E2; try contradiction.
    cbn in Hle.
    unfold popularityScore, ratingScore. rewrite <- Epop, Ep, Es, E1, E2. cbn [JS.ToNumber].
    destruct (popularity_component_range p ps Fp Fs Hts) as [Ha _].
    destruct (rating_component_range _ Vr1) as [Hb _].
    destruct (rating_component_range _ Vr2) as [Hb' _].
    apply sum_mono; try assumption.
    + apply leb_refl_number. apply (finite_nonneg_bounds _ Ha).
    + apply rating_component_mono; assumption.
Qed.

Lemma score_monotone_witness :
  exists s1 s2,
    returns (calculateRelevanceScore (candidate 1 (JS.Num 5) (JS.Num 8) (JS.Num 100))
                                     (source (JS.Num 20))) s1 /\
    returns (calculateRelevanceScore (candidate 1 (JS.Num 10) (JS.Num 8) (JS.Num 100))
                                     (source (JS.Num 20))) s2 /\
    (s1 <=? s2) = true.
Proof.
  apply (score_monotone (candidate 1 (JS.Num 5) (JS.Num 8) (JS.Num 100))
                        (candidate 1 (JS.Num 10) (JS.Num 8) (JS.Num 100))
                        (source (JS.Num 20))).
  - split; reflexivity.
  - split; reflexivity.
  - split; reflexivity.
  - split; reflexivity.
  - split; reflexivity.
  - left. split; reflexivity.
Defined.

(** C5 as stated fails: against a source title of popularity -1, the
    candidate of popularity 2 scores -100, below the -50 of the candidate of
    popularity 1 that is otherwise the same. *)
Lemma larger_popularity_scores_lower :
  number_le (popularity (candidate 1 (JS.Num 1) JS.Undefined (JS.Num 100)))
            (popularity (candidate 1 (JS.Num 2) JS.Undefined (JS.Num 100))) /\
  returns (calculateRelevanceScore (candidate 1 (JS.Num 1) JS.Undefined (JS.Num 100))
                                   (source (JS.Num (-1)))) (-50) /\
  returns (calculateRelevanceScore (candidate 1 (JS.Num 2) JS.Undefined (JS.Num 100))
                                   (source (JS.Num (-1)))) (-100) /\
  (-100 <? -50) = true.
Proof. repeat split; reflexivity. Qed.

End ScoreClaims.

(** * The merge / filter / rank pipeline *)

Section ListFacts.

Context {A : Type}.

Lemma findIndex_from_skip (p : A -> bool) (pre l : list A) (i : Z) :
  (forall t, In t pre -> p t = false) ->
  JS.findIndex_from p (pre ++ l)%list i
  = JS.findIndex_from p l (i + Z.of_nat (List.length pre))%Z.
Proof.
  revert i. induction pre as [| t pre IH]; intros i H; cbn [app JS.findIndex_from List.length].
  - f_equal. lia.
  - rewrite (H t (or_introl eq_refl)). rewrite IH by (intros; apply H; right; assumption).
    f_equal. lia.
Qed.

Lemma findIndex_from_hit (p : A -> bool) (pre l : list A) (i : Z) :
  (exists t, In t pre /\ p t = true) ->
  (i <= JS.findIndex_from p (pre ++ l)%list i < i + Z.of_nat (List.length pre))%Z.
Proof.
  revert i. induction pre as [| t pre IH]; intros i (u & Hin & Hu).
  - contradiction.
  - cbn [app JS.findIndex_from List.length]. destruct (p t) eqn:Ht; [lia|].
    destruct Hin as [-> | Hin]; [congruence|].
    specialize (IH (i + 1)%Z (ex_intro _ u (conj Hin Hu))). lia.
Qed.

Lemma existsb_false_iff (p : A -> bool) (l : list A) :
  existsb p l = false <-> (forall t, In t l -> p t = false).
Proof.
  induction l as [| x l IH]; cbn.
  - split; [intros _ t [] | reflexivity].
  - rewrite orb_false_iff, IH. split.
    + intros [Hx Hl] t [<- | Ht]; auto.
    + intros H. split; [apply H; left; reflexivity | intros; apply H; right; assumption].
Qed.

Lemma In_firstn (n : nat) (l : list A) (x : A) : In x (firstn n l) -> In x l.
Proof.
  intros H. rewrite <- (firstn_skipn n l). apply in_or_app. left. exact H.
Qed.

Lemma Forall_firstn (P : A -> Prop) (n : nat) (l : list A) :
  Forall P l -> Forall P (firstn n l).
Proof.
  rewrite !Forall_forall. intros H x Hx. apply H. apply (In_firstn n). exact Hx.
Qed.

Lemma StronglySorted_firstn (R : A -> A -> Prop) (n : nat) (l : list A) :
  StronglySorted R l -> StronglySorted R (firstn n l).
Proof.
  revert n. induction l as [| x l IH]; intros n H.
  - rewrite firstn_nil. constructor.
  - destruct n as [| n]; [constructor|]. cbn [firstn].
    apply StronglySorted_inv in H. destruct H as [Hs Hf].
    constructor; [apply IH; assumption | apply Forall_firstn; assumption].
Qed.

Lemma NoDup_map_firstn {B : Type} (f : A -> B) (n : nat) (l : list A) :
  NoDup (map f l) -> NoDup (map f (firstn n l)).
Proof.
  intros H. rewrite <- (firstn_skipn n l), map_app in H.
  apply NoDup_app_remove_r in H. exact H.
Qed.

Lemma NoDup_map_filter {K : Type} (key : A -> K) (keep : A -> bool) (xs : list A) :
  NoDup (map key xs) -> NoDup (map key (filter keep xs)).
Proof.
  induction xs as [| x xs IH]; cbn; intros H; [constructor|].
  apply NoDup_cons_iff in H. destruct H as [Hx Hl].
  destruct (keep x); cbn; [|apply IH; assumption].
  constructor; [|apply IH; assumption].
  intros Hin. apply Hx. apply in_map_iff in Hin. destruct Hin as (y & Ey & Hy).
  apply filter_In in Hy. apply in_map_iff. exists y. tauto.
Qed.

(** The sort rearranges the array. *)
Lemma sort_insert_perm (cmp : A -> A -> float) (x : A) (l : list A) :
  Permutation (JS.sort_insert cmp x l) (x :: l).
Proof.
  induction l as [| y l IH]; cbn [JS.sort_insert]; [reflexivity|].
  destruct (0 <? JS.SortCompare cmp x y)%float; [|reflexivity].
  rewrite IH. apply perm_swap.
Qed.

Lemma sort_perm (cmp : A -> A -> float) (l : list A) : Permutation (JS.sort cmp l) l.
Proof.
  induction l as [| x l IH]; cbn; [reflexivity|].
  fold (JS.sort cmp l). rewrite sort_insert_perm. constructor. exact IH.
Qed.

Lemma slice0_length (arr : list A) (maximum : float) (k : Z) :
  JS.ToIntegerOrInfinity maximum = JS.Integer k -> (0 <= k)%Z ->
  (Z.of_nat (List.length (JS.slice0 arr maximum)) <= k)%Z.
Proof.
  intros E Hk. unfold JS.slice0. rewrite E. cbn [JS.slice_final].
  destruct (Z.ltb_spec k 0); [lia|]. rewrite length_firstn. lia.
Qed.

End ListFacts.

Lemma nonneg_ToIntegerOrInfinity x :
  (0 <=? x)%float = true ->
  match JS.ToIntegerOrInfinity x with
  | JS.Integer k => (0 <= k)%Z
  | JS.PlusInfinity => True
  | JS.MinusInfinity => False
  end.
Proof.
  rewrite FloatAxioms.leb_spec. change (Prim2SF 0) with (S754_zero false).
  unfold JS.ToIntegerOrInfinity.
  destruct (Prim2SF x) as [s | s | | s m e]; cbn; try discriminate; try lia.
  - destruct s; [discriminate | trivial].
  - destruct s; [discriminate|]. intros _. cbn [cond_Zopp].
    apply Z.shiftl_nonneg. lia.
Qed.

Lemma slice0_length_at_most {A : Type} (arr : list A) (maximum : float) :
  (0 <=? maximum)%float = true ->
  length_at_most (List.length (JS.slice0 arr maximum)) maximum.
Proof.
  intros H. apply nonneg_ToIntegerOrInfinity in H. unfold length_at_most.
  destruct (JS.ToIntegerOrInfinity maximum) as [| k |] eqn:E; try exact H.
  apply slice0_length; assumption.
Qed.

(** A maximum not below the length cuts nothing. *)
Lemma slice0_all {A : Type} (arr : list A) (maximum : float) :
  length_at_most (List.length arr) maximum -> JS.slice0 arr maximum = arr.
Proof.
  unfold length_at_most, JS.slice0.
  destruct (JS.ToIntegerOrInfinity maximum) as [| k |]; cbn [JS.slice_final]; intros H.
  - contradiction.
  - destruct (Z.ltb_spec k 0); [lia|].
    rewrite Z.min_r, Z.max_l, Nat2Z.id by lia. apply firstn_all.
  - rewrite Z.max_l, Nat2Z.id by lia. apply firstn_all.
Qed.

(** ** Deduplication *)

Section Dedup.

Local Open Scope Z_scope.

Lemma first_occurrence_spec (x : item) (pre post : list item) :
  first_occurrence x (Z.of_nat (List.length pre)) (pre ++ x :: post)%list
  = negb (existsb (fun t => id t =? id x) pre).
Proof.
  unfold first_occurrence, JS.findIndex.
  destruct (existsb (fun t => id t =? id x) pre) eqn:E; cbn [negb].
  - apply existsb_exists in E.
    pose proof (findIndex_from_hit (fun t => id t =? id x) pre (x :: post) 0 E).
    apply Z.eqb_neq. lia.
  - rewrite existsb_false_iff in E. rewrite findIndex_from_skip by exact E.
    cbn [JS.findIndex_from]. rewrite Z.eqb_refl. apply Z.eqb_eq. lia.
Qed.

Lemma filter_from_keep_first (rest : list item) : forall (pre : list item) (seen : list Z),
  (forall z, existsb (Z.eqb z) seen = existsb (fun t => id t =? z) pre) ->
  JS.filter_from first_occurrence (pre ++ rest)%list rest (Z.of_nat (List.length pre))
  = keep_first_by_id seen rest.
Proof.
  induction rest as [| x rest IH]; intros pre seen Hseen; [reflexivity|].
  cbn [JS.filter_from keep_first_by_id].
  rewrite first_occurrence_spec, <- Hseen.
  replace (pre ++ x :: rest)%list with ((pre ++ [x]) ++ rest)%list
    by (rewrite <- app_assoc; reflexivity).
  replace (Z.of_nat (List.length pre) + 1) with (Z.of_nat (List.length (pre ++ [x])%list))
    by (rewrite length_app; cbn; lia).
  destruct (existsb (Z.eqb (id x)) seen) eqn:E; cbn [negb].
  - apply IH. intros z. rewrite existsb_app. cbn [existsb]. rewrite orb_false_r, <- Hseen.
    destruct (Z.eqb_spec (id x) z) as [<- | Hne]; [rewrite E; reflexivity|].
    rewrite orb_false_r. reflexivity.
  - f_equal. apply IH. intros z. rewrite existsb_app. cbn [existsb].
    rewrite orb_false_r, <- Hseen, (Z.eqb_sym z (id x)). apply orb_comm.
Qed.

Lemma filter_indexed_keep_first (l : list item) :
  JS.filter_indexed first_occurrence l = keep_first_by_id [] l.
Proof.
  apply (filter_from_keep_first l [] []). intros z. reflexivity.
Qed.

Lemma keep_first_In (l : list item) : forall seen y,
  In y (keep_first_by_id seen l) -> In y l /\ existsb (Z.eqb (id y)) seen = false.
Proof.
  induction l as [| x l IH]; intros seen y H; [contradiction|].
  cbn [keep_first_by_id] in H.
  destruct (existsb (Z.eqb (id x)) seen) eqn:E.
  - apply IH in H. destruct H as [H1 H2]. split; [right; assumption | assumption].
  - destruct H as [<- | H]; [split; [left; reflexivity | assumption]|].
    apply IH in H. destruct H as [H1 H2]. cbn [existsb] in H2.
    apply orb_false_iff in H2. split; [right; assumption | apply H2].
Qed.

Lemma keep_first_NoDup (l : list item) : forall seen,
  NoDup (map id (keep_first_by_id seen l)).
Proof.
  induction l as [| x l IH]; intros seen; cbn [keep_first_by_id]; [constructor|].
  destruct (existsb (Z.eqb (id x)) seen); [apply IH|].
  cbn [map]. constructor; [|apply IH].
  intros Hin. apply in_map_iff in Hin. destruct Hin as (y & Ey & Hy).
  apply keep_first_In in Hy. destruct Hy as [_ Hy]. cbn [existsb] in Hy.
  rewrite Ey, Z.eqb_refl in Hy. discriminate.
Qed.

Lemma keep_first_find (l : list item) : forall seen y,
  In y (keep_first_by_id seen l) -> find (fun t => id t =? id y) l = Some y.
Proof.
  induction l as [| x l IH]; intros seen y H; [contradiction|].
  cbn [keep_first_by_id] in H. cbn [find].
  destruct (existsb (Z.eqb (id x)) seen) eqn:E.
  - pose proof (keep_first_In _ _ _ H) as [_ Hy].
    destruct (Z.eqb_spec (id x) (id y)) as [Exy | _]; [|eapply IH; eassumption].
    rewrite <- Exy in Hy. congruence.
  - destruct H as [<- | H]; [rewrite Z.eqb_refl; reflexivity|].
    pose proof (keep_first_In _ _ _ H) as [_ Hy]. cbn [existsb] in Hy.
    apply orb_false_iff in Hy. destruct Hy as [Hy _].
    rewrite Z.eqb_sym, Hy. eapply IH; eassumption.
Qed.

Lemma keep_first_count (l : list item) : forall seen i,
  List.length (filter (fun y => id y =? i) (keep_first_by_id seen l))
  = if existsb (fun t => id t =? i) l && negb (existsb (Z.eqb i) seen) then 1%nat else 0%nat.
Proof.
  induction l as [| x l IH]; intros seen i; [reflexivity|].
  cbn [keep_first_by_id existsb].
  destruct (existsb (Z.eqb (id x)) seen) eqn:E.
  - rewrite IH. destruct (Z.eqb_spec (id x) i) as [<- | Hne]; [|reflexivity].
    rewrite E. cbn [negb]. rewrite !andb_false_r. reflexivity.
  - cbn [filter]. destruct (Z.eqb_spec (id x) i) as [<- | Hne].
    + cbn [List.length orb andb]. rewrite IH. cbn [existsb]. rewrite Z.eqb_refl, E.
      cbn [orb negb]. rewrite andb_false_r. reflexivity.
    + rewrite IH. cbn [existsb orb].
      destruct (Z.eqb_spec i (id x)) as [Eq | _]; [congruence|]. reflexivity.
Qed.

Lemma find_app_first {A' : Type} (p : A' -> bool) (l1 l2 : list A') (x y : A') :
  In x l1 -> p x = true -> find p (l1 ++ l2)%list = Some y -> find p l1 = Some y.
Proof.
  induction l1 as [| a l1 IH]; intros Hin Hp Hf; [contradiction|].
  cbn [app find] in *. destruct (p a) eqn:Ea; [assumption|].
  destruct Hin as [-> | Hin]; [congruence|]. apply IH; assumption.
Qed.

(** The first candidate with a given identifier is among those the
    deduplication keeps. *)
Lemma keep_first_of_find (l : list item) (x first : item) :
  In x l -> find (fun t => id t =? id x) l = Some first ->
  In first (keep_first_by_id [] l).
Proof.
  intros Hx Hf.
  pose proof (keep_first_count l [] (id x)) as Hc. cbn [existsb negb] in Hc.
  rewrite andb_true_r in Hc.
  replace (existsb (fun t => id t =? id x) l) with true in Hc
    by (symmetry; apply existsb_exists; exists x; split; [assumption | apply Z.eqb_refl]).
  destruct (filter (fun y => id y =? id x) (keep_first_by_id [] l)) as [| y rest] eqn:E;
    [discriminate|].
  assert (Hy : In y (filter (fun y => id y =? id x) (keep_first_by_id [] l)))
    by (rewrite E; left; reflexivity).
  apply filter_In in Hy. destruct Hy as [Hy Ey]. apply Z.eqb_eq in Ey.
  pose proof (keep_first_find l [] y Hy) as Hfy. rewrite Ey, Hf in Hfy.
  injection Hfy as ->. exact Hy.
Qed.

Lemma count_of_distinct {A : Type} (key : A -> Z) (l : list A) (r : A) :
  NoDup (map key l) -> In r l ->
  List.length (filter (fun r' => key r' =? key r) l) = 1%nat.
Proof.
  induction l as [| a l IH]; intros Hnd Hin; [contradiction|].
  cbn [map] in Hnd. apply NoDup_cons_iff in Hnd. destruct Hnd as [Ha Hnd].
  cbn [filter]. destruct Hin as [-> | Hin].
  - rewrite Z.eqb_refl. cbn [List.length]. f_equal.
    destruct (filter (fun r' => key r' =? key r) l) as [| b rest] eqn:E; [reflexivity|].
    assert (Hb : In b (filter (fun r' => key r' =? key r) l)) by (rewrite E; left; reflexivity).
    apply filter_In in Hb. destruct Hb as [Hb Eb]. apply Z.eqb_eq in Eb.
    exfalso. apply Ha. rewrite <- Eb. apply in_map. exact Hb.
  - destruct (Z.eqb_spec (key a) (key r)) as [E | _]; [|apply IH; assumption].
    exfalso. apply Ha. rewrite E. apply in_map. exact Hin.
Qed.

End Dedup.

(** ** Sorting by score *)

Section SortFacts.

Local Open Scope float_scope.

Lemma insert_test (x y : ranked) :
  is_nan (relevanceScore x) = false -> is_nan (relevanceScore y) = false ->
  (0 <? JS.SortCompare by_score_desc x y) = (relevanceScore x <? relevanceScore y).
Proof.
  intros Hx Hy. unfold JS.SortCompare, by_score_desc.
  rewrite <- (sub_pos (relevanceScore y) (relevanceScore x) Hy Hx).
  destruct (is_nan (relevanceScore y - relevanceScore x)) eqn:E; [|reflexivity].
  symmetry. rewrite FloatAxioms.ltb_spec. rewrite <- is_nan_sf_spec in E.
  destruct (Prim2SF (relevanceScore y - relevanceScore x)); try discriminate. reflexivity.
Qed.

Lemma sort_insert_Forall {A : Type} (P : A -> Prop) (cmp : A -> A -> float) x l :
  P x -> Forall P l -> Forall P (JS.sort_insert cmp x l).
Proof.
  intros Hx Hl. rewrite Forall_forall in *. intros z Hz.
  apply (Permutation_in _ (sort_insert_perm cmp x l)) in Hz.
  destruct Hz as [<- | Hz]; auto.
Qed.

Lemma sort_insert_sorted (x : ranked) (l : list ranked) :
  is_nan (relevanceScore x) = false ->
  Forall (fun r => is_nan (relevanceScore r) = false) l ->
  sorted_by_score_desc l -> sorted_by_score_desc (JS.sort_insert by_score_desc x l).
Proof.
  unfold sorted_by_score_desc. intros Hx Hl Hs.
  induction l as [| y l IH]; cbn [JS.sort_insert].
  - repeat constructor.
  - apply Forall_cons_iff in Hl. destruct Hl as [Hy Hl].
    apply StronglySorted_inv in Hs. destruct Hs as [Hs Hf].
    rewrite insert_test by assumption. rewrite ltb_fval by assumption.
    destruct (Z.ltb_spec (fval (relevanceScore x)) (fval (relevanceScore y))) as [Hlt | Hge].
    + constructor; [apply IH; assumption|].
      apply sort_insert_Forall; [|assumption].
      apply leb_intro; [assumption | assumption | lia].
    + constructor; [constructor; assumption|].
      constructor; [apply leb_intro; assumption|].
      rewrite Forall_forall in *. intros z Hz.
      destruct (leb_elim _ _ (Hf z Hz)) as (Nz & _ & Hzy).
      apply leb_intro; [assumption | assumption | lia].
Qed.

Lemma sort_sorted (l : list ranked) :
  Forall (fun r => is_nan (relevanceScore r) = false) l ->
  sorted_by_score_desc (JS.sort by_score_desc l).
Proof.
  induction l as [| x l IH]; intros H; cbn.
  - constructor.
  - apply Forall_cons_iff in H. destruct H as [Hx Hl]. fold (JS.sort by_score_desc l).
    apply sort_insert_sorted; [assumption | | apply IH; assumption].
    rewrite Forall_forall in *. intros z Hz. apply Hl.
    apply (Permutation_in _ (sort_perm by_score_desc l)). exact Hz.
Qed.

End SortFacts.

(** ** What the pipeline returns *)

Section PipelineFacts.

Local Open Scope float_scope.

Lemma calculateRelevanceScore_eq it src :
  exists l, calculateRelevanceScore it src = (l, Ok (score_of it src)).
Proof.
  unfold score_of, calculateRelevanceScore.
  destruct (negb (JS.ToBoolean (source_popularity src)) || negb (JS.ToBoolean (popularity it)));
    eexists; reflexivity.
Qed.

Lemma mapM_rank src (l : list item) :
  exists w,
    mapM (fun it => score <- calculateRelevanceScore it src ;;
                    ret {| base := it; relevanceScore := score |}) l
    = (w, Ok (map (rank src) l)).
Proof.
  induction l as [| x l [w IH]]; cbn [mapM map].
  - eexists. reflexivity.
  - destruct (calculateRelevanceScore_eq x src) as [lx Ex]. rewrite Ex, IH.
    eexists. reflexivity.
Qed.

Lemma allRecommendations_returns cfg similar recommended src :
  returns (allRecommendations cfg similar recommended src)
    (JS.slice0
       (JS.sort by_score_desc
          (map (rank src)
             (filter (enough_votes cfg)
                (JS.filter_indexed first_occurrence (similar ++ recommended)%list))))
       (MAX_RECOMMENDATIONS cfg)).
Proof.
  unfold returns, allRecommendations.
  destruct (mapM_rank src (filter (enough_votes cfg)
              (JS.filter_indexed first_occurrence (similar ++ recommended)%list))) as [w E].
  rewrite E. reflexivity.
Qed.

Lemma In_pipeline cfg similar recommended src r :
  In r (JS.slice0
          (JS.sort by_score_desc
             (map (rank src)
                (filter (enough_votes cfg)
                   (JS.filter_indexed first_occurrence (similar ++ recommended)%list))))
          (MAX_RECOMMENDATIONS cfg)) ->
  In (base r) (similar ++ recommended)%list /\
  enough_votes cfg (base r) = true /\
  relevanceScore r = score_of (base r) src.
Proof.
  intros H. unfold JS.slice0 in H. apply In_firstn in H.
  apply (Permutation_in _ (sort_perm _ _)) in H.
  apply in_map_iff in H. destruct H as (it & <- & Hit).
  apply filter_In in Hit. destruct Hit as [Hit Hv].
  rewrite filter_indexed_keep_first in Hit. apply keep_first_In in Hit.
  cbn [rank base relevanceScore]. tauto.
Qed.

Lemma leb_nan_r x : (x <=? nan) = false.
Proof.
  rewrite FloatAxioms.leb_spec. change (Prim2SF nan) with S754_nan.
  unfold SFleb. destruct (Prim2SF x); reflexivity.
Qed.

(** When no score of the candidates of a list is NaN, no record made of
    them has a NaN score. *)
Lemma ranked_scores_are_numbers src (l : list item) :
  scores_are_numbers src l ->
  Forall (fun r => is_nan (relevanceScore r) = false) (map (rank src) l).
Proof.
  unfold scores_are_numbers. intros H. apply Forall_forall. intros r Hr.
  apply in_map_iff in Hr. destruct Hr as (it & <- & Hit).
  rewrite Forall_forall in H. cbn [rank relevanceScore]. apply (H it Hit).
  destruct (calculateRelevanceScore_eq it src) as [w E]. unfold returns. rewrite E.
  reflexivity.
Qed.

End PipelineFacts.

Section PipelineClaims.

Local Open Scope float_scope.

Lemma score_of_returns it src : returns (calculateRelevanceScore it src) (score_of it src).
Proof.
  destruct (calculateRelevanceScore_eq it src) as [l E]. unfold returns. rewrite E. reflexivity.
Qed.

(** C1 (as amended): for every pair of candidate lists, source title and
    configuration the pipeline returns a sequence of ranked input
    candidates without two equal identifiers, all with a vote count at least
    the configured minimum; its length is at most the configured maximum
    when that maximum is not negative, and it is sorted by [relevanceScore]
    descending when no computed score is NaN, the scores computed being
    those of the candidates that the deduplication and the vote filter
    leave. *)
Theorem pipeline_invariants (cfg : config) (similar recommended : list item)
        (src : option json) :
  exists out,
    returns (allRecommendations cfg similar recommended src) out /\
    Forall (fun r => In (base r) (similar ++ recommended)%list
                     /\ returns (calculateRelevanceScore (base r) src) (relevanceScore r)) out /\
    NoDup (map (fun r => id (base r)) out) /\
    Forall (fun r => enough_votes cfg (base r) = true) out /\
    ((0 <=? MAX_RECOMMENDATIONS cfg) = true ->
     length_at_most (List.length out) (MAX_RECOMMENDATIONS cfg)) /\
    (scores_are_numbers src (eligible cfg (similar ++ recommended)%list) ->
     sorted_by_score_desc out).
Proof.
  eexists. split; [apply allRecommendations_returns|].
  split; [|split; [|split; [|split]]].
  - apply Forall_forall. intros r Hr. apply In_pipeline in Hr.
    destruct Hr as (Hin & _ & E). split; [assumption|]. rewrite E. apply score_of_returns.
  - unfold JS.slice0. apply NoDup_map_firstn.
    apply (Permutation_NoDup (l := map (fun r => id (base r))
             (map (rank src) (filter (enough_votes cfg)
                (JS.filter_indexed first_occurrence (similar ++ recommended)%list))))).
    + apply Permutation_map. symmetry. apply sort_perm.
    + rewrite map_map. cbn [rank base].
      apply NoDup_map_filter. rewrite filter_indexed_keep_first. apply keep_first_NoDup.
  - apply Forall_forall. intros r Hr. apply In_pipeline in Hr. apply Hr.
  - intros Hmax. apply slice0_length_at_most. exact Hmax.
  - intros Hnum. unfold JS.slice0. apply StronglySorted_firstn. apply sort_sorted.
    apply (ranked_scores_are_numbers src _ Hnum).
Qed.

(** C10: a candidate without a [vote_count] property never appears in the
    output, whatever the configured minimum. *)
Theorem absent_vote_count_excluded (cfg : config) (similar recommended : list item)
        (src : option json) (out : list ranked) :
  returns (allRecommendations cfg similar recommended src) out ->
  Forall (fun r => vote_count (base r) <> JS.Undefined) out.
Proof.
  intros Hout.
  pose proof (returns_inj _ _ _ Hout (allRecommendations_returns cfg similar recommended src)).
  subst out. apply Forall_forall. intros r Hr E.
  apply In_pipeline in Hr. destruct Hr as (_ & Hv & _).
  unfold enough_votes, JS.ge in Hv. rewrite E in Hv. cbn [JS.ToNumber] in Hv.
  rewrite leb_nan_r in Hv. discriminate.
Qed.

(** C6: the pipeline deduplicates over [similar ++ recommended], keeping
    the first occurrence of each identifier.  No two records of its output
    have the same identifier; the candidate of every record is the first
    candidate of the concatenation with its identifier, one of those that
    the deduplication as the specification words it keeps; when the
    identifier occurs in [similar], it is the first one of [similar] with
    that identifier.  And the first occurrence is not lost: when it has
    enough votes and the maximum cuts nothing, the output holds exactly one
    record with its identifier. *)
Theorem dedup_keeps_first_occurrence (cfg : config) (similar recommended : list item)
        (src : option json) :
  exists out,
    returns (allRecommendations cfg similar recommended src) out /\
    NoDup (map (fun r => id (base r)) out) /\
    Forall (fun r =>
              find (fun t => (id t =? id (base r))%Z) (similar ++ recommended)%list
              = Some (base r)
              /\ In (base r) (keep_first_by_id [] (similar ++ recommended)%list)) out /\
    (forall x r, In x similar -> In r out -> id (base r) = id x ->
       find (fun t => (id t =? id x)%Z) similar = Some (base r)) /\
    (length_at_most (List.length (eligible cfg (similar ++ recommended)%list))
                    (MAX_RECOMMENDATIONS cfg) ->
     forall x first,
       In x (similar ++ recommended)%list ->
       find (fun t => (id t =? id x)%Z) (similar ++ recommended)%list = Some first ->
       enough_votes cfg first = true ->
       List.length (filter (fun r => (id (base r) =? id x)%Z) out) = 1%nat /\
       In (rank src first) out).
Proof.
  assert (Hkept : forall r,
            In r (JS.slice0
                    (JS.sort by_score_desc
                       (map (rank src)
                          (filter (enough_votes cfg)
                             (JS.filter_indexed first_occurrence
                                (similar ++ recommended)%list))))
                    (MAX_RECOMMENDATIONS cfg)) ->
            In (base r) (keep_first_by_id [] (similar ++ recommended)%list)).
  { intros r Hr. unfold JS.slice0 in Hr. apply In_firstn in Hr.
    apply (Permutation_in _ (sort_perm _ _)) in Hr.
    apply in_map_iff in Hr. destruct Hr as (it & <- & Hit).
    apply filter_In in Hit. destruct Hit as [Hit _].
    rewrite filter_indexed_keep_first in Hit. exact Hit. }
  assert (Hnd : NoDup (map (fun r => id (base r))
                         (JS.slice0
                            (JS.sort by_score_desc
                               (map (rank src)
                                  (filter (enough_votes cfg)
                                     (JS.filter_indexed first_occurrence
                                        (similar ++ recommended)%list))))
                            (MAX_RECOMMENDATIONS cfg)))).
  { unfold JS.slice0. apply NoDup_map_firstn.
    apply (Permutation_NoDup (l := map (fun r => id (base r))
             (map (rank src) (filter (enough_votes cfg)
                (JS.filter_indexed first_occurrence (similar ++ recommended)%list))))).
    - apply Permutation_map. symmetry. apply sort_perm.
    - rewrite map_map. cbn [rank base].
      apply NoDup_map_filter. rewrite filter_indexed_keep_first. apply keep_first_NoDup. }
  eexists. split; [apply allRecommendations_returns|].
  split; [exact Hnd|]. split; [|split].
  - apply Forall_forall. intros r Hr. pose proof (Hkept r Hr) as Hk.
    split; [apply (keep_first_find _ [] _ Hk) | exact Hk].
  - intros x r Hx Hr E. pose proof (keep_first_find _ [] _ (Hkept r Hr)) as Hf.
    rewrite E in Hf.
    apply (find_app_first _ similar recommended x (base r) Hx (Z.eqb_refl _) Hf).
  - intros Hmax x first Hx Hf Hv.
    assert (Hin : In (rank src first)
                    (JS.slice0
                       (JS.sort by_score_desc
                          (map (rank src) (eligible cfg (similar ++ recommended)%list)))
                       (MAX_RECOMMENDATIONS cfg))).
    { rewrite slice0_all
        by (rewrite (Permutation_length (sort_perm by_score_desc _)), length_map; exact Hmax).
      apply (Permutation_in _ (Permutation_sym (sort_perm by_score_desc _))).
      apply in_map. unfold eligible. apply filter_In. split; [|exact Hv].
      rewrite filter_indexed_keep_first. apply (keep_first_of_find _ x first Hx Hf). }
    split; [|exact Hin].
    apply find_some in Hf. destruct Hf as [_ Ef]. apply Z.eqb_eq in Ef.
    rewrite <- Ef.
    apply (count_of_distinct (fun r => id (base r)) _ (rank src first) Hnd Hin).
Qed.

End PipelineClaims.

(** ** Sample runs of the pipeline *)

Example sample_run :
  returns (allRecommendations (sample_config 50 30) sample_similar sample_recommended
             (source (JS.Num 20)))
    [ {| base := candidate 3 (JS.Num 40) (JS.Num 9) (JS.Num 75); relevanceScore := 95 |};
      {| base := candidate 1 (JS.Num 10) (JS.Num 8) (JS.Num 100); relevanceScore := 65 |} ].
Proof. reflexivity. Qed.

(** C1 at a sample input. *)
Lemma pipeline_invariants_witness :
  exists out,
    returns (allRecommendations (sample_config 50 30) sample_similar sample_recommended
               (source (JS.Num 20))) out /\
    pipeline_invariant (sample_config 50 30) out.
Proof.
  destruct (pipeline_invariants (sample_config 50 30) sample_similar sample_recommended
              (source (JS.Num 20))) as (out & R & _ & ND & V & L & S).
  exists out. split; [exact R|].
  split; [|split; [exact ND | split; [exact V|]]].
  - apply S.
    change (eligible (sample_config 50 30) (sample_similar ++ sample_recommended)%list)
      with [ candidate 1 (JS.Num 10) (JS.Num 8) (JS.Num 100);
             candidate 3 (JS.Num 40) (JS.Num 9) (JS.Num 75) ].
    repeat constructor; intros s Hs; unfold returns in Hs; vm_compute in Hs;
      injection Hs as <-; reflexivity.
  - apply L. reflexivity.
Defined.

(** C1 as stated fails for a negative maximum: with [MAX_RECOMMENDATIONS = -1]
    [slice(0, -1)] drops the last record only, and the sequence of length 1
    that is left is longer than the maximum. *)
Lemma negative_maximum_exceeded :
  returns (allRecommendations (sample_config 50 (-1)) sample_similar sample_recommended
             (source (JS.Num 20)))
    [ {| base := candidate 3 (JS.Num 40) (JS.Num 9) (JS.Num 75); relevanceScore := 95 |} ] /\
  ~ pipeline_invariant (sample_config 50 (-1))
      [ {| base := candidate 3 (JS.Num 40) (JS.Num 9) (JS.Num 75); relevanceScore := 95 |} ].
Proof.
  split; [reflexivity|].
  intros (_ & _ & _ & L). vm_compute in L. apply L. reflexivity.
Qed.

(** C10 at the sample input, where candidate 4 has no vote count. *)
Lemma absent_vote_count_excluded_witness :
  Forall (fun r => vote_count (base r) <> JS.Undefined)
    [ {| base := candidate 3 (JS.Num 40) (JS.Num 9) (JS.Num 75); relevanceScore := 95 |};
      {| base := candidate 1 (JS.Num 10) (JS.Num 8) (JS.Num 100); relevanceScore := 65 |} ].
Proof.
  apply (absent_vote_count_excluded (sample_config 50 30) sample_similar sample_recommended
           (source (JS.Num 20))).
  reflexivity.
Defined.

(** C6 at the sample lists: the candidate 1 occurs in both, with 100 votes
    in [similar] and 500 in [recommended]; the output holds one record for
    it, made from the copy of [similar]. *)
Lemma dedup_keeps_first_occurrence_witness :
  exists out,
    returns (allRecommendations (sample_config 50 30) sample_similar sample_recommended
               (source (JS.Num 20))) out /\
    NoDup (map (fun r => id (base r)) out) /\
    List.length (filter (fun r => (id (base r) =? 1)%Z) out) = 1%nat /\
    In (rank (source (JS.Num 20)) (candidate 1 (JS.Num 10) (JS.Num 8) (JS.Num 100))) out.
Proof.
  destruct (dedup_keeps_first_occurrence (sample_config 50 30) sample_similar
              sample_recommended (source (JS.Num 20))) as (out & R & ND & _ & _ & K).
  exists out. split; [exact R|]. split; [exact ND|].
  apply (K ltac:(vm_compute; discriminate)
           (candidate 1 (JS.Num 12) (JS.Num 2) (JS.Num 500))
           (candidate 1 (JS.Num 10) (JS.Num 8) (JS.Num 100))).
  - right. right. left. reflexivity.
  - reflexivity.
  - reflexivity.
Defined.

(** * The stream handler *)

Section HandlerFacts.

Variable cfg : config.
Variable fetch : provider.
Variable toFixed : float -> nat -> string.

Ltac mstep :=
  cbn [bind ret throw try_catch console logError get fst snd result logs or_empty].

Lemma attempt_silent url i : fst (attempt fetch url i) = [].
Proof.
  unfold attempt. destruct (fetch url i) as [r | e]; [|reflexivity].
  destruct (negb (ok r)); [reflexivity|]. destruct (body r); reflexivity.
Qed.

Lemma fetch_loop_silent url retries n : forall i, fst (fetch_loop fetch url retries n i) = [].
Proof.
  induction n as [| n IH]; intros i; [reflexivity|].
  cbn [fetch_loop]. pose proof (attempt_silent url i) as Ha.
  destruct (attempt fetch url i) as [l [d | e]]; cbn [fst] in Ha; subst l; mstep.
  - reflexivity.
  - destruct (Nat.eqb i (retries - 1)); [reflexivity|].
    specialize (IH (S i)). destruct (fetch_loop fetch url retries n (S i)) as [l r].
    cbn [fst] in IH. subst l. reflexivity.
Qed.

(** [fetchWithRetry] writes nothing to the console. *)
Lemma fetchWithRetry_silent url retries :
  fetchWithRetry fetch url retries = ([], result (fetchWithRetry fetch url retries)).
Proof.
  pose proof (fetch_loop_silent url retries retries 0) as H. unfold fetchWithRetry, result.
  destruct (fetch_loop fetch url retries retries 0) as [l r]. cbn [fst snd] in *. congruence.
Qed.

(** The resolver never throws. *)
Lemma getTMDbId_total imdbId type :
  exists l o, getTMDbId cfg fetch imdbId type = (l, Ok o).
Proof.
  unfold getTMDbId. rewrite fetchWithRetry_silent.
  destruct (result (fetchWithRetry fetch (find_url cfg imdbId) 3)) as [[data |] | e]; mstep.
  - destruct (String.eqb type "movie"); mstep.
    + destruct (movie_results data) as [[| first rest] |]; mstep; eauto.
    + destruct (tv_results data) as [[| first rest] |]; mstep; eauto.
  - destruct (String.eqb type "movie"); mstep; eauto.
  - eauto.
Qed.

(** A lookup that succeeds and holds no result for the media kind: [null],
    with a warning. *)
Lemma getTMDbId_not_found imdbId type data :
  returns (fetchWithRetry fetch (find_url cfg imdbId) 3) (Some data) ->
  lookup_results type data = None \/ lookup_results type data = Some [] ->
  returns (getTMDbId cfg fetch imdbId type) None /\
  map fst (logs (getTMDbId cfg fetch imdbId type)) = [LOG; WARN].
Proof.
  unfold returns, lookup_results. intros Hf Hr.
  unfold getTMDbId. rewrite fetchWithRetry_silent, Hf. mstep.
  destruct (String.eqb type "movie"); mstep; destruct Hr as [-> | ->]; mstep; split; reflexivity.
Qed.

(** Each candidate fetcher returns the fetched list, or the empty list when
    the request fails or the answer has no properties; it never throws. *)
Lemma getTMDbSimilar_spec tmdbId type :
  returns (getTMDbSimilar cfg fetch tmdbId type)
    match result (fetchWithRetry fetch (similar_url cfg (media_type type) tmdbId) 3) with
    | Ok (Some data) => or_empty (results data)
    | _ => []
    end.
Proof.
  unfold returns, getTMDbSimilar. mstep. rewrite fetchWithRetry_silent.
  destruct (result (fetchWithRetry fetch (similar_url cfg (media_type type) tmdbId) 3))
    as [[data |] | e]; reflexivity.
Qed.

Lemma getTMDbRecommendations_spec tmdbId type :
  returns (getTMDbRecommendations cfg fetch tmdbId type)
    match result (fetchWithRetry fetch (recommendations_url cfg (media_type type) tmdbId) 3) with
    | Ok (Some data) => or_empty (results data)
    | _ => []
    end.
Proof.
  unfold returns, getTMDbRecommendations. mstep. rewrite fetchWithRetry_silent.
  destruct (result (fetchWithRetry fetch (recommendations_url cfg (media_type type) tmdbId) 3))
    as [[data |] | e]; reflexivity.
Qed.

Lemma returns_bind {A B : Type} (m : M A) (k : A -> M B) (a : A) :
  returns m a -> result (bind m k) = result (k a).
Proof.
  unfold returns, result, bind. destruct m as [l [x | e]]; cbn [snd]; intros H; [|discriminate].
  injection H as ->. destruct (k a). reflexivity.
Qed.

Lemma throws_bind {A B : Type} (m : M A) (k : A -> M B) (e : exn) :
  result m = Throw e -> result (bind m k) = Throw e.
Proof.
  unfold result, bind. destruct m as [l [x | e']]; cbn [snd]; intros H; [discriminate|].
  injection H as ->. reflexivity.
Qed.

Lemma result_console {B : Type} lv text (k : unit -> M B) :
  result (bind (console lv text) k) = result (k tt).
Proof. apply returns_bind. reflexivity. Qed.

Lemma result_try_catch {A : Type} (m : M A) (h : exn -> M A) :
  result (try_catch m h)
  = match result m with
    | Ok a => Ok a
    | Throw e => result (h e)
    end.
Proof.
  unfold result, try_catch. destruct m as [l [a | e]]; cbn [snd]; [reflexivity|].
  destruct (h e). reflexivity.
Qed.

(** The handler's result in terms of the result of the body of its [try]. *)
Lemma streamHandler_result type id_ :
  result (streamHandler cfg fetch toFixed type id_)
  = match result (handler_body cfg fetch toFixed type id_) with
    | Ok r => Ok r
    | Throw _ => Ok {| streams := [] |}
    end.
Proof.
  unfold streamHandler. rewrite result_console, result_try_catch.
  destruct (result (handler_body cfg fetch toFixed type id_)); reflexivity.
Qed.

(** The body of the handler, case by case. *)
Lemma handler_body_not_found type id_ :
  returns (getTMDbId cfg fetch (JS.split_head ":" id_) type) None ->
  returns (handler_body cfg fetch toFixed type id_) {| streams := [] |}.
Proof.
  intros H. unfold returns, handler_body. rewrite (returns_bind _ _ _ H).
  rewrite result_console. reflexivity.
Qed.

Lemma handler_body_zero type id_ :
  returns (getTMDbId cfg fetch (JS.split_head ":" id_) type) (Some 0%Z) ->
  returns (handler_body cfg fetch toFixed type id_) {| streams := [] |}.
Proof.
  intros H. unfold returns, handler_body. rewrite (returns_bind _ _ _ H).
  rewrite result_console. reflexivity.
Qed.

Lemma handler_body_details_fail type id_ tmdb e :
  returns (getTMDbId cfg fetch (JS.split_head ":" id_) type) (Some tmdb) -> tmdb <> 0%Z ->
  result (fetchWithRetry fetch (details_url cfg (media_type type) tmdb) 3) = Throw e ->
  result (handler_body cfg fetch toFixed type id_) = Throw e.
Proof.
  intros H Hnz Hd. unfold handler_body. rewrite (returns_bind _ _ _ H).
  destruct tmdb as [| p | p]; [contradiction | |];
    rewrite result_console; apply throws_bind; exact Hd.
Qed.

Lemma handler_body_ranked type id_ tmdb details :
  returns (getTMDbId cfg fetch (JS.split_head ":" id_) type) (Some tmdb) -> tmdb <> 0%Z ->
  returns (fetchWithRetry fetch (details_url cfg (media_type type) tmdb) 3) details ->
  forall similar recommended recs,
    returns (getTMDbSimilar cfg fetch tmdb type) similar ->
    returns (getTMDbRecommendations cfg fetch tmdb type) recommended ->
    returns (allRecommendations cfg similar recommended details) recs ->
    returns (handler_body cfg fetch toFixed type id_)
      {| streams := map (to_stream toFixed (media_type type)) recs |}.
Proof.
  intros H Hnz Hd similar recommended recs Hs Hr Ha.
  unfold returns, handler_body. rewrite (returns_bind _ _ _ H).
  destruct tmdb as [| p | p]; [contradiction | |];
    rewrite result_console, (returns_bind _ _ _ Hd), (returns_bind _ _ _ Hs),
      (returns_bind _ _ _ Hr), (returns_bind _ _ _ Ha), result_console; reflexivity.
Qed.

Lemma streamHandler_logs type id_ :
  exists first, logs (streamHandler cfg fetch toFixed type id_)
  = (first :: logs (handler_body cfg fetch toFixed type id_)
       ++ match result (handler_body cfg fetch toFixed type id_) with
          | Ok _ => []
          | Throw e => logs (logError "StreamHandler" e)
          end)%list.
Proof.
  unfold streamHandler, logs, result.
  destruct (handler_body cfg fetch toFixed type id_) as [l [r | e]]; mstep.
  - eexists. cbn [app]. rewrite app_nil_r. reflexivity.
  - eexists. cbn [app]. reflexivity.
Qed.

(** C2: for every request and every behaviour of the provider, the handler
    returns a result holding a list of stream records and throws nothing;
    when the body of its [try] throws, as it does when the detail request
    fails after its retries, the list is empty and the error is logged. *)
Theorem handler_never_throws (type id_ : string) :
  exists ss,
    returns (streamHandler cfg fetch toFixed type id_) {| streams := ss |} /\
    (forall e, result (handler_body cfg fetch toFixed type id_) = Throw e ->
       ss = [] /\ error_logged (logs (streamHandler cfg fetch toFixed type id_))) /\
    (forall tmdb e,
       returns (getTMDbId cfg fetch (JS.split_head ":" id_) type) (Some tmdb) ->
       tmdb <> 0%Z ->
       result (fetchWithRetry fetch (details_url cfg (media_type type) tmdb) 3) = Throw e ->
       ss = []).
Proof.
  pose proof (streamHandler_result type id_) as R.
  destruct (streamHandler_logs type id_) as [first L].
  destruct (result (handler_body cfg fetch toFixed type id_)) as [[ss] | e0] eqn:E.
  - exists ss. split; [exact R|]. split; [intros e He; discriminate|].
    intros tmdb e H Hnz Hd. rewrite (handler_body_details_fail _ _ _ _ H Hnz Hd) in E.
    discriminate.
  - exists []. split; [exact R|]. split; [|reflexivity].
    intros e He. split; [reflexivity|]. rewrite L. unfold error_logged.
    eexists. right. apply in_or_app. right. left. reflexivity.
Qed.

(** C7: when the lookup succeeds and holds no result for the requested media
    kind, the resolver returns [null] and the handler returns the empty
    stream list at once: the console shows the two progress lines and two
    warnings, and no error. *)
Theorem not_found_is_an_empty_result (type id_ : string) (data : json) :
  returns (fetchWithRetry fetch (find_url cfg (JS.split_head ":" id_)) 3) (Some data) ->
  lookup_results type data = None \/ lookup_results type data = Some [] ->
  returns (getTMDbId cfg fetch (JS.split_head ":" id_) type) None /\
  returns (streamHandler cfg fetch toFixed type id_) {| streams := [] |} /\
  map fst (logs (streamHandler cfg fetch toFixed type id_)) = [LOG; LOG; WARN; WARN] /\
  no_error_logged (logs (streamHandler cfg fetch toFixed type id_)).
Proof.
  intros Hf Hr. destruct (getTMDbId_not_found _ type data Hf Hr) as [Hn Hl].
  split; [exact Hn|].
  assert (Hlv : map fst (logs (streamHandler cfg fetch toFixed type id_))
                = [LOG; LOG; WARN; WARN]).
  { unfold streamHandler, handler_body, logs in *. unfold returns, result in Hn.
    destruct (getTMDbId cfg fetch (JS.split_head ":" id_) type) as [l [o | e]];
      cbn [fst snd] in *; [|discriminate].
    injection Hn as ->. mstep. cbn [app map fst]. unfold entry in *.
    rewrite map_app, Hl. reflexivity. }
  split; [|split; [exact Hlv|]].
  - unfold returns. rewrite streamHandler_result, (handler_body_not_found _ _ Hn). reflexivity.
  - unfold no_error_logged. apply Forall_forall. intros en Hin.
    apply (in_map fst) in Hin. rewrite Hlv in Hin.
    destruct Hin as [<- | [<- | [<- | [<- | []]]]]; discriminate.
Qed.

(** C8: once the title is resolved and its details fetched, the handler
    returns the streams of the ranking of what the two fetchers returned.
    A fetcher whose request fails after its retries returns the empty list,
    and a fetcher whose request is answered returns the [results] of the
    answer: when one fails and the other is answered, the ranking runs on
    the data of the other source alone, and when both fail the handler
    returns the empty stream list. *)
Theorem fetchers_fail_soft (type id_ : string) (tmdb : Z) (details : option json) :
  returns (getTMDbId cfg fetch (JS.split_head ":" id_) type) (Some tmdb) ->
  tmdb <> 0%Z ->
  returns (fetchWithRetry fetch (details_url cfg (media_type type) tmdb) 3) details ->
  exists similar recommended recs,
    returns (getTMDbSimilar cfg fetch tmdb type) similar /\
    returns (getTMDbRecommendations cfg fetch tmdb type) recommended /\
    returns (allRecommendations cfg similar recommended details) recs /\
    returns (streamHandler cfg fetch toFixed type id_)
      {| streams := map (to_stream toFixed (media_type type)) recs |} /\
    ((exists e, result (fetchWithRetry fetch (similar_url cfg (media_type type) tmdb) 3)
                = Throw e) -> similar = []) /\
    ((exists e, result (fetchWithRetry fetch (recommendations_url cfg (media_type type) tmdb) 3)
                = Throw e) -> recommended = []) /\
    ((exists e, result (fetchWithRetry fetch (similar_url cfg (media_type type) tmdb) 3)
                = Throw e) ->
     (exists e, result (fetchWithRetry fetch (recommendations_url cfg (media_type type) tmdb) 3)
                = Throw e) ->
     returns (streamHandler cfg fetch toFixed type id_) {| streams := [] |}) /\
    (forall data,
       returns (fetchWithRetry fetch (similar_url cfg (media_type type) tmdb) 3) (Some data) ->
       similar = or_empty (results data)) /\
    (forall data,
       returns (fetchWithRetry fetch (recommendations_url cfg (media_type type) tmdb) 3)
         (Some data) ->
       recommended = or_empty (results data)) /\
    (forall data,
       (exists e, result (fetchWithRetry fetch (similar_url cfg (media_type type) tmdb) 3)
                  = Throw e) ->
       returns (fetchWithRetry fetch (recommendations_url cfg (media_type type) tmdb) 3)
         (Some data) ->
       returns (allRecommendations cfg [] (or_empty (results data)) details) recs) /\
    (forall data,
       (exists e, result (fetchWithRetry fetch
                            (recommendations_url cfg (media_type type) tmdb) 3)
                  = Throw e) ->
       returns (fetchWithRetry fetch (similar_url cfg (media_type type) tmdb) 3) (Some data) ->
       returns (allRecommendations cfg (or_empty (results data)) [] details) recs).
Proof.
  intros H Hnz Hd.
  pose proof (getTMDbSimilar_spec tmdb type) as Hs.
  pose proof (getTMDbRecommendations_spec tmdb type) as Hr.
  set (similar :=
         match result (fetchWithRetry fetch (similar_url cfg (media_type type) tmdb) 3) with
         | Ok (Some data) => or_empty (results data)
         | _ => []
         end) in *.
  set (recommended :=
         match result (fetchWithRetry fetch
                         (recommendations_url cfg (media_type type) tmdb) 3) with
         | Ok (Some data) => or_empty (results data)
         | _ => []
         end) in *.
  pose proof (allRecommendations_returns cfg similar recommended details) as Ha.
  assert (Hh : returns (streamHandler cfg fetch toFixed type id_)
                 {| streams := map (to_stream toFixed (media_type type))
                     (JS.slice0
                        (JS.sort by_score_desc
                           (map (rank details)
                              (filter (enough_votes cfg)
                                 (JS.filter_indexed first_occurrence
                                    (similar ++ recommended)%list))))
                        (MAX_RECOMMENDATIONS cfg)) |}).
  { unfold returns. rewrite streamHandler_result.
    rewrite (handler_body_ranked _ _ _ _ H Hnz Hd _ _ _ Hs Hr Ha). reflexivity. }
  exists similar, recommended. eexists.
  split; [exact Hs|]. split; [exact Hr|]. split; [exact Ha|]. split; [exact Hh|].
  assert (Fs : (exists e, result (fetchWithRetry fetch
                                    (similar_url cfg (media_type type) tmdb) 3) = Throw e) ->
               similar = [])
    by (intros [e E]; unfold similar; rewrite E; reflexivity).
  assert (Fr : (exists e, result (fetchWithRetry fetch
                                    (recommendations_url cfg (media_type type) tmdb) 3)
                          = Throw e) ->
               recommended = [])
    by (intros [e E]; unfold recommended; rewrite E; reflexivity).
  assert (Ss : forall data,
             returns (fetchWithRetry fetch (similar_url cfg (media_type type) tmdb) 3)
               (Some data) ->
             similar = or_empty (results data))
    by (intros data E; unfold returns in E; unfold similar; rewrite E; reflexivity).
  assert (Sr : forall data,
             returns (fetchWithRetry fetch (recommendations_url cfg (media_type type) tmdb) 3)
               (Some data) ->
             recommended = or_empty (results data))
    by (intros data E; unfold returns in E; unfold recommended; rewrite E; reflexivity).
  split; [exact Fs|]. split; [exact Fr|].
  split; [|split; [exact Ss|split; [exact Sr|split]]].
  - intros F1 F2. rewrite (Fs F1), (Fr F2) in Hh. unfold JS.slice0 in Hh. cbn [app] in Hh.
    change (JS.filter_indexed first_occurrence []) with (@nil item) in Hh.
    cbn [filter map JS.sort fold_right] in Hh. rewrite firstn_nil in Hh. exact Hh.
  - intros data F1 E2. rewrite <- (Fs F1), <- (Sr data E2). exact Ha.
  - intros data F2 E1. rewrite <- (Fr F2), <- (Ss data E1). exact Ha.
Qed.

End HandlerFacts.

(** ** Sample requests *)

(** A request for [tt0133093] against the provider whose similar-titles
    endpoint is down: the only stream comes from the recommendations. *)
Example flaky_run :
  returns (streamHandler (sample_config 50 30) flaky_provider sample_toFixed
             "movie" "tt0133093:1:2")
    {| streams :=
         [ {| stream_name := "⭐ 8.0 • N/A";
              stream_title := None;
              url := "https://www.themoviedb.org/movie/1";
              thumbnail := None;
              bingeGroup := "cinematch-recommendations" |} ] |}.
Proof. reflexivity. Qed.

Lemma not_found_is_an_empty_result_witness :
  returns (getTMDbId (sample_config 50 30) empty_provider
             (JS.split_head ":" "tt0903747:1:2") "series") None /\
  returns (streamHandler (sample_config 50 30) empty_provider sample_toFixed
             "series" "tt0903747:1:2") {| streams := [] |} /\
  map fst (logs (streamHandler (sample_config 50 30) empty_provider sample_toFixed
                   "series" "tt0903747:1:2")) = [LOG; LOG; WARN; WARN] /\
  no_error_logged (logs (streamHandler (sample_config 50 30) empty_provider sample_toFixed
                           "series" "tt0903747:1:2")).
Proof.
  apply (not_found_is_an_empty_result (sample_config 50 30) empty_provider sample_toFixed
           "series" "tt0903747:1:2" (listing [] JS.Undefined)).
  - reflexivity.
  - left. reflexivity.
Defined.

(** C8 at the flaky provider, whose similar-titles endpoint is down and
    whose recommendations answer on the third attempt with the sample list:
    the ranking runs on that list alone. *)
Lemma fetchers_fail_soft_witness :
  returns (getTMDbSimilar (sample_config 50 30) flaky_provider 603 "movie") [] /\
  returns (getTMDbRecommendations (sample_config 50 30) flaky_provider 603 "movie")
    sample_recommended /\
  exists recs,
    returns (allRecommendations (sample_config 50 30) [] sample_recommended
               (Some (listing [] (JS.Num 20)))) recs /\
    returns (streamHandler (sample_config 50 30) flaky_provider sample_toFixed
               "movie" "tt0133093:1:2")
      {| streams := map (to_stream sample_toFixed (media_type "movie")) recs |}.
Proof.
  destruct (fetchers_fail_soft (sample_config 50 30) flaky_provider sample_toFixed
              "movie" "tt0133093:1:2" 603 (Some (listing [] (JS.Num 20)))
              eq_refl ltac:(lia) eq_refl)
    as (similar & recommended & recs & Hs & Hr & Ha & Hh & Fs & _ & _ & _ & Sr & _).
  assert (Es : similar = [])
    by (apply Fs; exists (Error "ECONNRESET"); reflexivity).
  assert (Er : recommended = sample_recommended)
    by (apply (Sr (listing sample_recommended JS.Undefined)); reflexivity).
  subst similar recommended.
  split; [exact Hs|]. split; [exact Hr|]. exists recs. split; [exact Ha | exact Hh].
Defined.

(** * Process startup *)

Section StartupFacts.

Variable parseInt : option string -> float.

Lemma resolve_key_truthy env : JS.truthy_string (resolve_key env) = true.
Proof.
  unfold resolve_key, JS.or_string.
  destruct (JS.truthy_string (env_TMDB_API_KEY env)) eqn:E; [exact E | reflexivity].
Qed.

(** C9 (as amended): whatever the environment, the key check does not stop
    the process: a key that is missing or empty is replaced by the built-in
    fallback key.  The process serves, without logging an error, when the
    HTTP server starts, and logs an error and exits with code 1 when the
    server fails to start. *)
Theorem startup_outcome (env : environment) (served : outcome string) :
  let chosen := match env_TMDB_API_KEY env with
                | Some (String a s) => String a s
                | _ => fallback_key
                end in
  match served with
  | Ok u =>
      exists c, snd (startup parseInt env served) = Serving c /\
                TMDB_API_KEY c = chosen /\
                no_error_logged (fst (startup parseInt env served))
  | Throw e =>
      snd (startup parseInt env served) = Exited 1 /\
      error_logged (fst (startup parseInt env served))
  end.
Proof.
  intros chosen. unfold startup. rewrite (resolve_key_truthy env). cbn [negb].
  destruct served as [u | e]; cbn [fst snd].
  - eexists. split; [reflexivity|]. split.
    + cbn [TMDB_API_KEY]. unfold chosen, resolve_key, JS.or_string, JS.truthy_string.
      destruct (env_TMDB_API_KEY env) as [[| a s] |]; reflexivity.
    + unfold no_error_logged. repeat constructor; discriminate.
  - split; [reflexivity|]. unfold error_logged. eexists. left. reflexivity.
Qed.

End StartupFacts.

(** C9 as stated fails twice: without a key in the environment the process
    serves with the fallback key and logs no error; and with a key in the
    environment it still exits when the HTTP server fails to start. *)
Lemma missing_key_does_not_exit :
  (snd (startup (fun _ => nan)
          {| env_TMDB_API_KEY := None; env_MINIMUM_VOTE_COUNT := None;
             env_MAX_RECOMMENDATIONS := None |}
          (Ok "http://127.0.0.1:7171"))
   = Serving {| TMDB_API_KEY := fallback_key; MINIMUM_VOTE_COUNT := 50;
                MAX_RECOMMENDATIONS := 30 |}
   /\ no_error_logged
        (fst (startup (fun _ => nan)
                {| env_TMDB_API_KEY := None; env_MINIMUM_VOTE_COUNT := None;
                   env_MAX_RECOMMENDATIONS := None |}
                (Ok "http://127.0.0.1:7171"))))
  /\ snd (startup (fun _ => nan)
            {| env_TMDB_API_KEY := Some "0123456789abcdef"; env_MINIMUM_VOTE_COUNT := None;
               env_MAX_RECOMMENDATIONS := None |}
            (Throw (Error "listen EADDRINUSE")))
     = Exited 1.
Proof.
  split; [split|]; try reflexivity.
  unfold no_error_logged. cbn. repeat constructor; discriminate.
Qed.

(** * Further properties of the addon *)

(** ** The retry loop *)

Section RetryFacts.

Variable fetch : provider.

(** The loop entered at index [i] with the remaining iterations: attempts
    [i], ..., [k - 1] fail and attempt [k] succeeds. *)
Lemma fetch_loop_first_success url retries data k :
  returns (attempt fetch url k) data ->
  forall n i, (i <= k)%nat -> (k < i + n)%nat -> (k < retries)%nat ->
    (forall j, (i <= j < k)%nat -> exists e, result (attempt fetch url j) = Throw e) ->
    returns (fetch_loop fetch url retries n i) data.
Proof.
  intros Hk. induction n as [| n IH]; intros i Hik Hkn Hr Hfail; [lia|].
  cbn [fetch_loop]. unfold returns in *.
  destruct (Nat.eq_dec i k) as [-> | Hne].
  - unfold result in *. destruct (attempt fetch url k) as [l [d | e]]; cbn [snd] in Hk;
      [|discriminate]. cbn [try_catch snd]. exact Hk.
  - destruct (Hfail i ltac:(lia)) as [e He]. unfold result in He.
    destruct (attempt fetch url i) as [l [d | e']]; cbn [snd] in He; [discriminate|].
    cbn [try_catch]. destruct (Nat.eqb_spec i (retries - 1)) as [E | _]; [lia|].
    specialize (IH (S i) ltac:(lia) ltac:(lia) Hr).
    unfold result in IH.
    destruct (fetch_loop fetch url retries n (S i)) as [l' r']. cbn [snd] in *.
    apply IH. intros j Hj. apply Hfail. lia.
Qed.

(** The loop entered at index [i] when every remaining attempt fails. *)
Lemma fetch_loop_exhausted url retries (errors : nat -> exn) :
  (forall j, (j < retries)%nat -> result (attempt fetch url j) = Throw (errors j)) ->
  forall n i, (i + n = retries)%nat -> (0 < n)%nat ->
    result (fetch_loop fetch url retries n i) = Throw (errors (retries - 1)%nat).
Proof.
  intros Hfail. induction n as [| n IH]; intros i Hin Hn; [lia|].
  cbn [fetch_loop]. pose proof (Hfail i ltac:(lia)) as He. unfold result in *.
  destruct (attempt fetch url i) as [l [d | e']]; cbn [snd] in He; [discriminate|].
  injection He as ->. cbn [try_catch].
  destruct (Nat.eqb_spec i (retries - 1)) as [E | Hne].
  - rewrite E. reflexivity.
  - specialize (IH (S i) ltac:(lia) ltac:(lia)).
    destruct (fetch_loop fetch url retries n (S i)) as [l' r']. cbn [snd] in *. exact IH.
Qed.

(** X1: [fetchWithRetry] returns the body of the first attempt that
    succeeds among the first [retries] ones; the failures before it are
    swallowed. *)
Theorem fetchWithRetry_first_success (url : string) (retries k : nat) (data : option json) :
  (k < retries)%nat ->
  (forall i, (i < k)%nat -> exists e, result (attempt fetch url i) = Throw e) ->
  returns (attempt fetch url k) data ->
  returns (fetchWithRetry fetch url retries) data /\
  logs (fetchWithRetry fetch url retries) = [].
Proof.
  intros Hk Hfail Hok. split.
  - unfold fetchWithRetry.
    apply (fetch_loop_first_success url retries data k Hok retries 0%nat); try lia.
    intros j Hj. apply Hfail. lia.
  - unfold logs. rewrite fetchWithRetry_silent. reflexivity.
Qed.

(** X2: when each of the [retries] attempts fails, [fetchWithRetry] throws,
    and the error it throws is that of the last attempt. *)
Theorem fetchWithRetry_throws_last_error (url : string) (retries : nat)
        (errors : nat -> exn) :
  (0 < retries)%nat ->
  (forall i, (i < retries)%nat -> result (attempt fetch url i) = Throw (errors i)) ->
  result (fetchWithRetry fetch url retries) = Throw (errors (retries - 1)%nat).
Proof.
  intros Hr Hfail. unfold fetchWithRetry.
  apply (fetch_loop_exhausted url retries errors Hfail); lia.
Qed.

End RetryFacts.

Lemma attempt_ext (fetch fetch' : provider) url i :
  fetch url i = fetch' url i -> attempt fetch url i = attempt fetch' url i.
Proof. unfold attempt. intros ->. reflexivity. Qed.

Lemma fetch_loop_ext (fetch fetch' : provider) url retries :
  forall n i,
    (forall j, (i <= j < i + n)%nat -> fetch url j = fetch' url j) ->
    fetch_loop fetch url retries n i = fetch_loop fetch' url retries n i.
Proof.
  induction n as [| n IH]; intros i H; [reflexivity|].
  cbn [fetch_loop]. rewrite (attempt_ext fetch fetch' url i) by (apply H; lia).
  destruct (attempt fetch' url i) as [l [d | e]]; cbn [try_catch]; [reflexivity|].
  destruct (Nat.eqb i (retries - 1)); [reflexivity|].
  rewrite IH; [reflexivity|]. intros j Hj. apply H. lia.
Qed.

(** X3: [fetchWithRetry] makes at most [retries] attempts, all of them at
    the given URL: two providers that agree on these attempts give the same
    outcome. *)
Theorem fetchWithRetry_at_most_retries_attempts (fetch fetch' : provider)
        (url : string) (retries : nat) :
  (forall i, (i < retries)%nat -> fetch url i = fetch' url i) ->
  fetchWithRetry fetch url retries = fetchWithRetry fetch' url retries.
Proof.
  intros H. unfold fetchWithRetry. apply fetch_loop_ext. intros j Hj. apply H. lia.
Qed.

(** ** The resolver *)

Section ResolverFacts.

Variable cfg : config.
Variable fetch : provider.

Ltac mstep :=
  cbn [bind ret throw try_catch console logError get fst snd result logs or_empty].

(** X4: the resolver never throws.  It returns an identifier exactly when
    the lookup request succeeds with an object whose list for the media kind
    is not empty, and the identifier is that of the first element of the
    list; in every other case it returns [null]. *)
Theorem getTMDbId_first_result (imdbId type : string) :
  exists r,
    returns (getTMDbId cfg fetch imdbId type) r /\
    match result (fetchWithRetry fetch (find_url cfg imdbId) 3) with
    | Ok (Some data) =>
        match lookup_results type data with
        | Some (first :: _) => r = Some (id first)
        | _ => r = None
        end
    | _ => r = None /\ error_logged (logs (getTMDbId cfg fetch imdbId type))
    end.
Proof.
  unfold returns, getTMDbId, lookup_results, error_logged.
  rewrite fetchWithRetry_silent.
  destruct (result (fetchWithRetry fetch (find_url cfg imdbId) 3)) as [[data |] | e]; mstep.
  - destruct (String.eqb type "movie"); mstep.
    + destruct (movie_results data) as [[| first rest] |]; mstep; eexists; split; reflexivity.
    + destruct (tv_results data) as [[| first rest] |]; mstep; eexists; split; reflexivity.
  - destruct (String.eqb type "movie"); mstep; eexists; (split; [reflexivity|]);
      (split; [reflexivity|]); eexists; cbn [app]; right; left; reflexivity.
  - eexists. split; [reflexivity|]. split; [reflexivity|].
    eexists. cbn [app]. right. left. reflexivity.
Qed.

End ResolverFacts.

(** ** The candidate fetchers *)

Section FetcherFacts.

Variable cfg : config.
Variable fetch : provider.

Ltac mstep :=
  cbn [bind ret throw try_catch console logError get fst snd result logs or_empty app].

Ltac no_error := unfold no_error_logged; repeat constructor; discriminate.

Ltac an_error := unfold error_logged; eexists; right; left; reflexivity.

(** X5: each candidate fetcher returns the [results] array of the object
    the provider answers, or the empty list when the object has no such
    array, and logs no error then; when the request fails after its retries
    or is answered with [null], it returns the empty list and logs an
    error.  A series is requested under [tv]. *)
Theorem candidate_fetchers_outcome (tmdbId : Z) (type : string) :
  match result (fetchWithRetry fetch (similar_url cfg (media_type type) tmdbId) 3) with
  | Ok (Some data) =>
      returns (getTMDbSimilar cfg fetch tmdbId type) (or_empty (results data)) /\
      no_error_logged (logs (getTMDbSimilar cfg fetch tmdbId type))
  | _ =>
      returns (getTMDbSimilar cfg fetch tmdbId type) [] /\
      error_logged (logs (getTMDbSimilar cfg fetch tmdbId type))
  end /\
  match result (fetchWithRetry fetch (recommendations_url cfg (media_type type) tmdbId) 3) with
  | Ok (Some data) =>
      returns (getTMDbRecommendations cfg fetch tmdbId type) (or_empty (results data)) /\
      no_error_logged (logs (getTMDbRecommendations cfg fetch tmdbId type))
  | _ =>
      returns (getTMDbRecommendations cfg fetch tmdbId type) [] /\
      error_logged (logs (getTMDbRecommendations cfg fetch tmdbId type))
  end.
Proof.
  split.
  - unfold returns, getTMDbSimilar. rewrite fetchWithRetry_silent.
    destruct (result (fetchWithRetry fetch (similar_url cfg (media_type type) tmdbId) 3))
      as [[data |] | e]; mstep; (split; [reflexivity|]); [no_error | an_error | an_error].
  - unfold returns, getTMDbRecommendations. rewrite fetchWithRetry_silent.
    destruct (result (fetchWithRetry fetch (recommendations_url cfg (media_type type) tmdbId) 3))
      as [[data |] | e]; mstep; (split; [reflexivity|]); [no_error | an_error | an_error].
Qed.

End FetcherFacts.

(** ** The popularity cap *)

Section CapFacts.

Local Open Scope float_scope.

Lemma ltb_elim x y :
  (x <? y) = true -> is_nan x = false /\ is_nan y = false /\ (fval x < fval y)%Z.
Proof.
  intros H.
  assert (Hn : is_nan x = false /\ is_nan y = false).
  { rewrite FloatAxioms.ltb_spec in H. rewrite <- !is_nan_sf_spec. unfold SFltb in H.
    destruct (Prim2SF x), (Prim2SF y); cbn in *; try discriminate; auto. }
  destruct Hn as [Hx Hy]. rewrite ltb_fval in H by assumption. apply Z.ltb_lt in H. auto.
Qed.

Lemma positive_sign x : is_nan x = false -> (0 < fval x)%Z -> get_sign x = false.
Proof.
  intros Hn Hp. unfold get_sign, is_zero.
  rewrite eqb_fval by (assumption || reflexivity). change (fval zero) with 0%Z.
  destruct (Z.eqb_spec (fval x) 0) as [E | _]; [lia|].
  rewrite ltb_fval by (assumption || reflexivity). change (fval zero) with 0%Z.
  apply Z.ltb_ge. lia.
Qed.

(** The ratio of a finite number to a positive number that is not above
    it is at least 1, whatever the rounding. *)
Lemma ratio_at_least_one p ps :
  (0 <? ps) = true -> (ps <=? p) = true -> (p <? infinity) = true ->
  is_nan (p / ps) = false /\ (fval 1 <= fval (p / ps))%Z.
Proof.
  intros H0 Hle Hfin.
  destruct (ltb_elim _ _ H0) as (_ & Nps & Pps). rewrite fval_zero in Pps.
  destruct (leb_elim _ _ Hle) as (_ & Np & Lp).
  destruct (ltb_elim _ _ Hfin) as (_ & _ & Fp). rewrite fval_infinity in Fp.
  assert (Hp : finite_nonneg p) by (apply finite_nonneg_fval; [assumption | lia]).
  assert (Hi : (ps <? infinity) = true).
  { rewrite ltb_fval by (assumption || reflexivity). rewrite fval_infinity.
    apply Z.ltb_lt. lia. }
  destruct (positive_finite_SF ps H0 Hi) as (m & e & Hps).
  pose proof (div_Rnd p ps m e Hp Hps) as R.
  destruct (positive_finite_SF 1 eq_refl eq_refl) as (m1 & e1 & H1).
  pose proof (div_Rnd 1 1 m1 e1 finite_nonneg_1 H1) as R1.
  change (1 / 1) with 1 in R1.
  split.
  - apply nonneg_sf_not_nan. apply (Rounding.Rnd_nonneg _ _ _ R).
  - apply (Rounding.Rnd_mono _ _ _ _ _ _ R1 R).
    assert (0 < 2 ^ 1074)%Z by (apply Rounding.pow2_pos; lia).
    assert (0 < fval 1)%Z by (vm_compute; reflexivity).
    replace (fval 1 * 2 ^ 1074 * fval ps)%Z with (fval ps * (2 ^ 1074 * fval 1))%Z by ring.
    replace (fval p * 2 ^ 1074 * fval 1)%Z with (fval p * (2 ^ 1074 * fval 1))%Z by ring.
    apply Z.mul_le_mono_nonneg_r; [|assumption].
    apply Z.mul_nonneg_nonneg; lia.
Qed.

Lemma Math_min_capped q :
  is_nan q = false -> (fval 1 <= fval q)%Z -> JS.Math_min q 1 = 1.
Proof.
  intros Hn Hq. unfold JS.Math_min. rewrite Hn. cbn [orb].
  change (is_nan 1) with false. cbn iota.
  rewrite !ltb_fval by (assumption || reflexivity).
  destruct (Z.ltb_spec (fval q) (fval 1)) as [Hlt | _]; [lia|].
  destruct (Z.ltb_spec (fval 1) (fval q)) as [_ | _]; [reflexivity|].
  rewrite positive_sign; [reflexivity | assumption |].
  assert (0 < fval 1)%Z by (vm_compute; reflexivity). lia.
Qed.

(** X6: a candidate at least as popular as the source title gets the whole
    popularity component: when the source popularity is positive and the
    candidate's is finite and not below it, the popularity component is
    exactly 50 and the score is 50 plus the rating component. *)
Theorem popular_candidate_gets_full_component (it : item) (src : option json)
        (p ps : float) :
  popularity it = JS.Num p -> source_popularity src = JS.Num ps ->
  (0 <? ps) = true -> (ps <=? p) = true -> (p <? infinity) = true ->
  popularityScore it src = 50 /\
  returns (calculateRelevanceScore it src) (50 + ratingScore it).
Proof.
  intros Ep Es H0 Hle Hfin.
  destruct (ratio_at_least_one p ps H0 Hle Hfin) as [Hn Hq].
  assert (Epop : popularityScore it src = 50).
  { unfold popularityScore. rewrite Ep, Es. cbn [JS.ToNumber].
    rewrite (Math_min_capped _ Hn Hq). reflexivity. }
  split; [exact Epop|].
  destruct (ltb_elim _ _ H0) as (_ & Nps & Pps). rewrite fval_zero in Pps.
  destruct (leb_elim _ _ Hle) as (_ & Np & Lp).
  assert (Tps : JS.truthy ps = true) by (apply truthy_spec; split; [assumption | lia]).
  assert (Tp : JS.truthy p = true) by (apply truthy_spec; split; [assumption | lia]).
  unfold returns, calculateRelevanceScore. rewrite Ep, Es. cbn [JS.ToBoolean].
  rewrite Tps, Tp. cbn [negb orb try_catch ret result snd].
  rewrite Epop. reflexivity.
Qed.

End CapFacts.

(** ** More on the pipeline *)

Section OrderFacts.

Local Open Scope float_scope.

Lemma eqb_elim x y :
  (x =? y) = true -> is_nan x = false /\ is_nan y = false /\ fval x = fval y.
Proof.
  intros H.
  assert (Hn : is_nan x = false /\ is_nan y = false).
  { rewrite FloatAxioms.eqb_spec in H. rewrite <- !is_nan_sf_spec. unfold SFeqb in H.
    destruct (Prim2SF x), (Prim2SF y); cbn in *; try discriminate; auto. }
  destruct Hn as [Hx Hy]. rewrite eqb_fval in H by assumption. apply Z.eqb_eq in H. auto.
Qed.

(** A record is never moved past a record of the same score. *)
Lemma equal_scores_not_swapped (x y : ranked) (s : float) :
  (relevanceScore x =? s) = true -> (relevanceScore y =? s) = true ->
  (0 <? JS.SortCompare by_score_desc x y) = false.
Proof.
  intros Hx Hy.
  destruct (eqb_elim _ _ Hx) as (Nx & _ & Ex). destruct (eqb_elim _ _ Hy) as (Ny & _ & Ey).
  rewrite insert_test by assumption. rewrite ltb_fval by assumption.
  apply Z.ltb_ge. lia.
Qed.

Lemma sort_insert_same_score (s : float) (x : ranked) (l : list ranked) :
  filter (fun r => relevanceScore r =? s) (JS.sort_insert by_score_desc x l)
  = filter (fun r => relevanceScore r =? s) (x :: l).
Proof.
  induction l as [| y l IH]; [reflexivity|].
  cbn [JS.sort_insert].
  destruct (0 <? JS.SortCompare by_score_desc x y) eqn:E; [|reflexivity].
  cbn [filter] in *. rewrite IH.
  destruct (relevanceScore x =? s) eqn:Hx; [|reflexivity].
  destruct (relevanceScore y =? s) eqn:Hy; [|reflexivity].
  rewrite (equal_scores_not_swapped x y s Hx Hy) in E. discriminate.
Qed.

(** The sort by score is stable: the records of any given score stand in
    the sorted array in the order they had before the sort. *)
Lemma equal_scores_keep_their_order (l : list ranked) (s : float) :
  filter (fun r => relevanceScore r =? s) (JS.sort by_score_desc l)
  = filter (fun r => relevanceScore r =? s) l.
Proof.
  induction l as [| x l IH]; [reflexivity|].
  cbn [JS.sort fold_right]. fold (JS.sort by_score_desc l).
  rewrite sort_insert_same_score. cbn [filter]. rewrite IH. reflexivity.
Qed.

End OrderFacts.

Section TieFacts.

Local Open Scope float_scope.

Variable cfg : config.

(** What a filter keeps of a prefix is a prefix of what it keeps. *)
Lemma filter_firstn_prefix {A : Type} (p : A -> bool) (n : nat) (l : list A) :
  exists rest, filter p l = (filter p (firstn n l) ++ rest)%list.
Proof.
  exists (filter p (skipn n l)). rewrite <- filter_app, firstn_skipn. reflexivity.
Qed.

(** X7: ties are broken by the order of [similar ++ recommended]: when no
    computed score is NaN, then for any score the records of the output with
    that score are the first candidates with that score, in the order in
    which they were fetched.  (Without a NaN the comparator is consistent,
    which is when the language fixes the result of the sort.) *)
Theorem ties_keep_fetch_order (similar recommended : list item) (src : option json)
        (s : float) :
  scores_are_numbers src (eligible cfg (similar ++ recommended)%list) ->
  exists out rest,
    returns (allRecommendations cfg similar recommended src) out /\
    sorted_by_score_desc out /\
    filter (fun r => relevanceScore r =? s)
      (map (rank src) (eligible cfg (similar ++ recommended)%list))
    = (filter (fun r => relevanceScore r =? s) out ++ rest)%list.
Proof.
  intros Hnum.
  destruct (filter_firstn_prefix (fun r => relevanceScore r =? s)
              (Z.to_nat (Z.max (JS.slice_final
                 (Z.of_nat (List.length (JS.sort by_score_desc
                    (map (rank src) (eligible cfg (similar ++ recommended)%list)))))
                 (JS.ToIntegerOrInfinity (MAX_RECOMMENDATIONS cfg))) 0))
              (JS.sort by_score_desc
                 (map (rank src) (eligible cfg (similar ++ recommended)%list))))
    as [rest E].
  eexists. exists rest. split; [apply allRecommendations_returns|]. split.
  - unfold JS.slice0. apply StronglySorted_firstn. apply sort_sorted.
    apply (ranked_scores_are_numbers src _ Hnum).
  - rewrite equal_scores_keep_their_order in E. exact E.
Qed.

Lemma sort_zero_scores (l : list ranked) :
  Forall (fun r => relevanceScore r = 0) l -> JS.sort by_score_desc l = l.
Proof.
  induction l as [| x l IH]; intros H; [reflexivity|].
  apply Forall_cons_iff in H. destruct H as [Hx Hl].
  cbn [JS.sort fold_right]. fold (JS.sort by_score_desc l). rewrite (IH Hl).
  destruct l as [| y l]; [reflexivity|].
  apply Forall_cons_iff in Hl. destruct Hl as [Hy _].
  cbn [JS.sort_insert]. unfold JS.SortCompare, by_score_desc. rewrite Hx, Hy. reflexivity.
Qed.

Lemma unknown_baseline_score it src :
  JS.ToBoolean (source_popularity src) = false ->
  calculateRelevanceScore it src
  = ([(WARN, "[calculateRelevanceScore] Missing popularity data")], Ok 0).
Proof.
  intros H. unfold calculateRelevanceScore. rewrite H. reflexivity.
Qed.

Lemma mapM_unknown_baseline src (l : list item) :
  JS.ToBoolean (source_popularity src) = false ->
  mapM (fun it => score <- calculateRelevanceScore it src ;;
                  ret {| base := it; relevanceScore := score |}) l
  = (map (fun _ => (WARN, "[calculateRelevanceScore] Missing popularity data")) l,
     Ok (map (fun it => {| base := it; relevanceScore := 0 |}) l)).
Proof.
  intros H. induction l as [| x l IH]; [reflexivity|].
  cbn [mapM map]. rewrite (unknown_baseline_score x src H). cbn [bind ret].
  rewrite IH. cbn [bind ret app]. rewrite app_nil_r. reflexivity.
Qed.

(** X8: when the popularity of the source title is unknown (the details
    are [null], or the popularity is absent, [null], zero or NaN), every
    score is 0 and the output lists the eligible candidates in the order in
    which they were fetched, cut at the maximum; one warning is logged for
    each eligible candidate, and nothing else. *)
Theorem unknown_baseline_keeps_fetch_order (similar recommended : list item)
        (src : option json) :
  JS.ToBoolean (source_popularity src) = false ->
  allRecommendations cfg similar recommended src
  = (map (fun _ => (WARN, "[calculateRelevanceScore] Missing popularity data"))
       (eligible cfg (similar ++ recommended)%list),
     Ok (JS.slice0
           (map (fun it => {| base := it; relevanceScore := 0 |})
              (eligible cfg (similar ++ recommended)%list))
           (MAX_RECOMMENDATIONS cfg))).
Proof.
  intros H. unfold allRecommendations. fold (eligible cfg (similar ++ recommended)%list).
  rewrite (mapM_unknown_baseline src _ H). cbn [bind ret]. rewrite app_nil_r.
  rewrite sort_zero_scores; [reflexivity|].
  apply Forall_forall. intros r Hr. apply in_map_iff in Hr.
  destruct Hr as (it & <- & _). reflexivity.
Qed.

End TieFacts.

Section CoverageFacts.

Local Open Scope float_scope.

Variable cfg : config.

(** X9: deduplication comes before the vote filter, so it is the first
    occurrence of an identifier that decides: when the first candidate with
    a given identifier has too few votes, no record of the output has that
    identifier, even if a later duplicate has enough votes. *)
Theorem first_occurrence_decides (similar recommended : list item) (src : option json)
        (out : list ranked) (first : item) :
  returns (allRecommendations cfg similar recommended src) out ->
  find (fun t => (id t =? id first)%Z) (similar ++ recommended)%list = Some first ->
  enough_votes cfg first = false ->
  Forall (fun r => id (base r) <> id first) out.
Proof.
  intros Hout Hfind Hvotes.
  pose proof (returns_inj _ _ _ Hout (allRecommendations_returns cfg similar recommended src)).
  subst out. apply Forall_forall. intros r Hr E.
  unfold JS.slice0 in Hr. apply In_firstn in Hr.
  apply (Permutation_in _ (sort_perm _ _)) in Hr.
  apply in_map_iff in Hr. destruct Hr as (it & <- & Hit). cbn [rank base] in E.
  apply filter_In in Hit. destruct Hit as [Hit Hv].
  rewrite filter_indexed_keep_first in Hit.
  apply keep_first_find in Hit. rewrite E, Hfind in Hit. congruence.
Qed.

(** X10: when the configured maximum is not below the number of eligible
    candidates, nothing is cut: the output holds exactly the candidates that
    the deduplication and the vote filter leave, each once, rearranged. *)
Theorem every_eligible_candidate_is_listed (similar recommended : list item)
        (src : option json) :
  length_at_most (List.length (eligible cfg (similar ++ recommended)%list))
                 (MAX_RECOMMENDATIONS cfg) ->
  exists out,
    returns (allRecommendations cfg similar recommended src) out /\
    Permutation (map base out) (eligible cfg (similar ++ recommended)%list).
Proof.
  intros H. eexists. split; [apply allRecommendations_returns|].
  fold (eligible cfg (similar ++ recommended)%list).
  rewrite slice0_all.
  - rewrite (Permutation_map base (sort_perm by_score_desc _)).
    rewrite map_map. cbn [rank base]. rewrite map_id. reflexivity.
  - rewrite (Permutation_length (sort_perm by_score_desc _)), length_map. exact H.
Qed.

Lemma StronglySorted_app {A : Type} (R : A -> A -> Prop) (l1 l2 : list A) :
  StronglySorted R (l1 ++ l2)%list ->
  Forall (fun a => Forall (fun b => R a b) l2) l1.
Proof.
  induction l1 as [| x l1 IH]; cbn [app]; intros H; [constructor|].
  apply StronglySorted_inv in H. destruct H as [Hs Hf].
  constructor; [|apply IH; assumption].
  apply Forall_app in Hf. apply Hf.
Qed.

(** X11: the truncation drops the lowest scores: when no computed score is
    NaN, the ranked eligible candidates split into the output and the
    dropped records, and no dropped record has a score above that of a
    record of the output. *)
Theorem truncation_drops_the_lowest (similar recommended : list item)
        (src : option json) :
  scores_are_numbers src (eligible cfg (similar ++ recommended)%list) ->
  exists out dropped,
    returns (allRecommendations cfg similar recommended src) out /\
    Permutation (out ++ dropped)%list
      (map (rank src) (eligible cfg (similar ++ recommended)%list)) /\
    Forall (fun r =>
              Forall (fun d => (relevanceScore d <=? relevanceScore r) = true) dropped) out.
Proof.
  intros Hnum.
  set (sorted := JS.sort by_score_desc
                   (map (rank src) (eligible cfg (similar ++ recommended)%list))).
  set (n := Z.to_nat (Z.max (JS.slice_final (Z.of_nat (List.length sorted))
                               (JS.ToIntegerOrInfinity (MAX_RECOMMENDATIONS cfg))) 0)).
  exists (firstn n sorted), (skipn n sorted).
  split; [apply allRecommendations_returns|]. split.
  - rewrite firstn_skipn. apply sort_perm.
  - apply (StronglySorted_app
             (fun a b => (relevanceScore b <=? relevanceScore a) = true)).
    rewrite firstn_skipn. apply sort_sorted.
    apply (ranked_scores_are_numbers src _ Hnum).
Qed.

End CoverageFacts.

Section DedupFacts.

Local Open Scope Z_scope.

Lemma keep_first_distinct (l : list item) : forall seen,
  NoDup (map id l) ->
  (forall x, In x l -> existsb (Z.eqb (id x)) seen = false) ->
  keep_first_by_id seen l = l.
Proof.
  induction l as [| x l IH]; intros seen Hnd Hseen; [reflexivity|].
  cbn [keep_first_by_id]. rewrite (Hseen x (or_introl eq_refl)).
  cbn [map] in Hnd. apply NoDup_cons_iff in Hnd. destruct Hnd as [Hx Hnd].
  f_equal. apply IH; [assumption|].
  intros y Hy. cbn [existsb]. rewrite (Hseen y (or_intror Hy)), orb_false_r.
  apply Z.eqb_neq. intros E. apply Hx. rewrite <- E. apply in_map. exact Hy.
Qed.

(** X12: deduplication leaves a list without repeated identifiers as it
    is; in particular deduplicating twice is deduplicating once. *)
Theorem dedup_is_idempotent (l : list item) :
  (NoDup (map id l) -> JS.filter_indexed first_occurrence l = l) /\
  JS.filter_indexed first_occurrence (JS.filter_indexed first_occurrence l)
  = JS.filter_indexed first_occurrence l.
Proof.
  assert (G : forall l', NoDup (map id l') -> JS.filter_indexed first_occurrence l' = l').
  { intros l' H. rewrite filter_indexed_keep_first.
    apply keep_first_distinct; [assumption | reflexivity]. }
  split; [apply G|]. apply G.
  rewrite filter_indexed_keep_first. apply keep_first_NoDup.
Qed.

End DedupFacts.

Section ThresholdFacts.

Local Open Scope float_scope.

Lemma filter_filter_implies {A : Type} (p q : A -> bool) (l : list A) :
  (forall x, q x = true -> p x = true) -> filter q (filter p l) = filter q l.
Proof.
  intros H. induction l as [| x l IH]; [reflexivity|]. cbn [filter].
  destruct (p x) eqn:Ep; cbn [filter].
  - rewrite IH. reflexivity.
  - destruct (q x) eqn:Eq; [|exact IH]. rewrite (H x Eq) in Ep. discriminate.
Qed.

(** X13: raising the minimum vote count only removes candidates: the
    candidates eligible under a higher minimum are those eligible under the
    lower one that pass the higher one, in the same order. *)
Theorem raising_the_minimum_only_removes (cfg cfg' : config) (merged : list item) :
  (MINIMUM_VOTE_COUNT cfg <=? MINIMUM_VOTE_COUNT cfg') = true ->
  eligible cfg' merged = filter (enough_votes cfg') (eligible cfg merged).
Proof.
  intros Hle. unfold eligible. symmetry. apply filter_filter_implies.
  intros it. unfold enough_votes, JS.ge. cbn [JS.ToNumber]. intros Hv.
  destruct (leb_elim _ _ Hle) as (N1 & N2 & L1).
  destruct (leb_elim _ _ Hv) as (_ & N3 & L2).
  apply leb_intro; [assumption | assumption | lia].
Qed.

End ThresholdFacts.

(** ** More on the handler *)

Section StringFacts.

Lemma split_head_idempotent (sep : ascii) (s : string) :
  JS.split_head sep (JS.split_head sep s) = JS.split_head sep s.
Proof.
  induction s as [| c s IH]; [reflexivity|].
  cbn [JS.split_head]. destruct (Ascii.eqb c sep) eqn:E; [reflexivity|].
  cbn [JS.split_head]. rewrite E, IH. reflexivity.
Qed.

Lemma split_head_app (sep : ascii) (s rest : string) :
  ~ In sep (list_ascii_of_string s) ->
  JS.split_head sep (s ++ String sep rest) = s.
Proof.
  induction s as [| c s IH]; cbn [list_ascii_of_string append JS.split_head]; intros H.
  - rewrite Ascii.eqb_refl. reflexivity.
  - destruct (Ascii.eqb_spec c sep) as [-> | _]; [exfalso; apply H; left; reflexivity|].
    f_equal. apply IH. intros Hin. apply H. right. exact Hin.
Qed.



End StringFacts.

Section ResponseFacts.

Variable cfg : config.
Variable fetch : provider.
Variable toFixed : float -> nat -> string.

(** X14: the response depends on the part of the identifier before its
    first colon only: a request for [tt0903747:1:2] is answered as a request
    for [tt0903747], and apart from the line that announces the request the
    console shows the same. *)
Theorem request_uses_base_identifier (type id_ : string) :
  result (streamHandler cfg fetch toFixed type id_)
  = result (streamHandler cfg fetch toFixed type (JS.split_head ":" id_)) /\
  tl (logs (streamHandler cfg fetch toFixed type id_))
  = tl (logs (streamHandler cfg fetch toFixed type (JS.split_head ":" id_))).
Proof.
  assert (E : handler_body cfg fetch toFixed type (JS.split_head ":" id_)
              = handler_body cfg fetch toFixed type id_).
  { unfold handler_body. rewrite split_head_idempotent. reflexivity. }
  unfold streamHandler. rewrite E.
  destruct (try_catch (handler_body cfg fetch toFixed type id_)
              (fun error => logError "StreamHandler" error ;;; ret {| streams := [] |}))
    as [l r].
  split; reflexivity.
Qed.









End ResponseFacts.

Section HandlerEdgeFacts.

Variable cfg : config.
Variable fetch : provider.
Variable toFixed : float -> nat -> string.

Ltac mstep :=
  cbn [bind ret throw try_catch console logError get fst snd result logs or_empty].

(** X16: the identifier 0 is taken for no identifier: when the first
    result of the lookup has the identifier 0, the handler answers the empty
    list, and the console shows the four lines of a title that was not
    found, the last one the warning, and none of the later steps. *)
Theorem zero_identifier_is_not_found (type id_ : string) (data : json)
        (first : item) (rest : list item) :
  returns (fetchWithRetry fetch (find_url cfg (JS.split_head ":" id_)) 3) (Some data) ->
  lookup_results type data = Some (first :: rest) ->
  id first = 0%Z ->
  streamHandler cfg fetch toFixed type id_
  = ([(LOG, "[StreamHandler] Processing request for " ++ type ++ ":" ++ id_);
      (LOG, "[getTMDbId] Searching for " ++ type ++ " with IMDb ID: "
              ++ JS.split_head ":" id_);
      (LOG, "[getTMDbId] Found TMDb ID: 0");
      (WARN, "[StreamHandler] No TMDb ID found for " ++ type ++ ":"
               ++ JS.split_head ":" id_)],
     Ok {| streams := [] |}).
Proof.
  unfold returns, lookup_results. intros Hf Hl Hz.
  unfold streamHandler, handler_body, getTMDbId.
  rewrite fetchWithRetry_silent, Hf. mstep.
  destruct (String.eqb type "movie"); mstep; rewrite Hl; mstep; rewrite Hz; reflexivity.
Qed.

End HandlerEdgeFacts.

Section AnswerFacts.

Variable cfg : config.
Variable fetch : provider.
Variable toFixed : float -> nat -> string.

(** X17: streams are never made without the source title: when the answer
    of the handler holds a stream, the resolver returned an identifier other
    than 0, the detail request succeeded, and the answer is the list of
    streams of the ranking of what the two fetchers returned, against the
    details that were fetched. *)
Theorem streams_need_the_source_title (type id_ : string) (s : stream)
        (ss : list stream) :
  returns (streamHandler cfg fetch toFixed type id_) {| streams := s :: ss |} ->
  exists tmdb details similar recommended recs,
    tmdb <> 0%Z /\
    returns (getTMDbId cfg fetch (JS.split_head ":" id_) type) (Some tmdb) /\
    returns (fetchWithRetry fetch (details_url cfg (media_type type) tmdb) 3) details /\
    returns (getTMDbSimilar cfg fetch tmdb type) similar /\
    returns (getTMDbRecommendations cfg fetch tmdb type) recommended /\
    returns (allRecommendations cfg similar recommended details) recs /\
    (s :: ss)%list = map (to_stream toFixed (media_type type)) recs.
Proof.
  unfold returns at 1. rewrite streamHandler_result. intros H.
  destruct (getTMDbId_total cfg fetch (JS.split_head ":" id_) type) as (l & o & E).
  assert (Ho : returns (getTMDbId cfg fetch (JS.split_head ":" id_) type) o)
    by (unfold returns; rewrite E; reflexivity).
  destruct o as [tmdb |].
  - destruct (Z.eq_dec tmdb 0) as [-> | Hnz].
    + rewrite (handler_body_zero cfg fetch toFixed _ _ Ho) in H. discriminate.
    + destruct (result (fetchWithRetry fetch (details_url cfg (media_type type) tmdb) 3))
        as [details | e] eqn:Hd.
      * pose proof (getTMDbSimilar_spec cfg fetch tmdb type) as Hs.
        pose proof (getTMDbRecommendations_spec cfg fetch tmdb type) as Hr.
        set (similar :=
               match result (fetchWithRetry fetch
                               (similar_url cfg (media_type type) tmdb) 3) with
               | Ok (Some data) => or_empty (results data)
               | _ => []
               end) in *.
        set (recommended :=
               match result (fetchWithRetry fetch
                               (recommendations_url cfg (media_type type) tmdb) 3) with
               | Ok (Some data) => or_empty (results data)
               | _ => []
               end) in *.
        pose proof (allRecommendations_returns cfg similar recommended details) as Ha.
        rewrite (handler_body_ranked cfg fetch toFixed _ _ _ _ Ho Hnz Hd _ _ _ Hs Hr Ha) in H.
        injection H as H.
        exists tmdb, details, similar, recommended. eexists.
        split; [exact Hnz|]. split; [exact Ho|]. split; [exact Hd|].
        split; [exact Hs|]. split; [exact Hr|]. split; [exact Ha|].
        symmetry. exact H.
      * rewrite (handler_body_details_fail cfg fetch toFixed _ _ _ _ Ho Hnz Hd) in H.
        discriminate.
  - rewrite (handler_body_not_found cfg fetch toFixed _ _ Ho) in H. discriminate.
Qed.

End AnswerFacts.

Section QuietFacts.

Lemma quiet_ret {A : Type} (a : A) : quiet (ret a).
Proof. split; [constructor | exists a; reflexivity]. Qed.

Lemma quiet_bind {A B : Type} (m : M A) (k : A -> M B) :
  quiet m -> (forall a, returns m a -> quiet (k a)) -> quiet (bind m k).
Proof.
  unfold quiet, returns, result, logs, no_error_logged.
  destruct m as [l [a | e]]; cbn [fst snd]; intros [Hl [a' Ha]] Hk; [|discriminate].
  specialize (Hk a eq_refl). cbn [bind]. destruct (k a) as [l' r]. cbn [fst snd] in *.
  split; [apply Forall_app; split; [exact Hl | apply Hk] | apply Hk].
Qed.

Lemma quiet_try_catch {A : Type} (m : M A) (h : exn -> M A) :
  quiet m -> quiet (try_catch m h).
Proof.
  unfold quiet, returns, result, logs.
  destruct m as [l [a | e]]; cbn [fst snd try_catch]; intros [Hl [a' Ha]];
    [split; [exact Hl | exists a; reflexivity] | discriminate].
Qed.

Lemma quiet_console {B : Type} (lv : level) (text : string) (k : M B) :
  lv <> ERROR -> quiet k -> quiet (console lv text ;;; k).
Proof.
  intros Hlv Hk. apply quiet_bind; [|intros _ _; exact Hk].
  split; [repeat constructor; exact Hlv | exists tt; reflexivity].
Qed.

Lemma quiet_mapM {A B : Type} (callback : A -> M B) (arr : list A) :
  (forall x, quiet (callback x)) -> quiet (mapM callback arr).
Proof.
  intros H. induction arr as [| x arr IH]; cbn [mapM]; [apply quiet_ret|].
  apply quiet_bind; [apply H|]. intros y _.
  apply quiet_bind; [apply IH|]. intros ys _. apply quiet_ret.
Qed.

Lemma quiet_calculateRelevanceScore it src : quiet (calculateRelevanceScore it src).
Proof.
  unfold calculateRelevanceScore. apply quiet_try_catch.
  destruct (negb (JS.ToBoolean (source_popularity src)) || negb (JS.ToBoolean (popularity it))).
  - apply quiet_console; [discriminate | apply quiet_ret].
  - apply quiet_ret.
Qed.

(** The ranking itself never throws and never logs an error. *)
Lemma quiet_allRecommendations cfg similar recommended src :
  quiet (allRecommendations cfg similar recommended src).
Proof.
  unfold allRecommendations. apply quiet_bind.
  - apply quiet_mapM. intros it. apply quiet_bind; [apply quiet_calculateRelevanceScore|].
    intros s _. apply quiet_ret.
  - intros scored _. apply quiet_ret.
Qed.

Variable cfg : config.
Variable fetch : provider.
Variable toFixed : float -> nat -> string.

Hypothesis answered :
  forall url, exists data, returns (fetchWithRetry fetch url 3) (Some data).

Lemma quiet_fetchWithRetry url : quiet (fetchWithRetry fetch url 3).
Proof.
  destruct (answered url) as [data H]. split; [|exists (Some data); exact H].
  rewrite fetchWithRetry_silent. constructor.
Qed.

Lemma answered_object url a :
  returns (fetchWithRetry fetch url 3) a -> exists data, a = Some data.
Proof.
  intros H. destruct (answered url) as [data Hd]. exists data.
  apply (returns_inj _ _ _ H Hd).
Qed.

Lemma quiet_getTMDbId imdbId type : quiet (getTMDbId cfg fetch imdbId type).
Proof.
  unfold getTMDbId. apply quiet_try_catch.
  apply quiet_console; [discriminate|].
  apply quiet_bind; [apply quiet_fetchWithRetry|]. intros a Ha.
  destruct (answered_object _ _ Ha) as [data ->].
  apply quiet_bind.
  - destruct (String.eqb type "movie"); apply quiet_ret.
  - intros [[| first rest] |] _; apply quiet_console; try discriminate; apply quiet_ret.
Qed.

Lemma quiet_getTMDbSimilar tmdbId type : quiet (getTMDbSimilar cfg fetch tmdbId type).
Proof.
  unfold getTMDbSimilar. apply quiet_try_catch.
  apply quiet_console; [discriminate|].
  apply quiet_bind; [apply quiet_fetchWithRetry|]. intros a Ha.
  destruct (answered_object _ _ Ha) as [data ->].
  apply quiet_bind; [apply quiet_ret|]. intros found _.
  apply quiet_console; [discriminate | apply quiet_ret].
Qed.

Lemma quiet_getTMDbRecommendations tmdbId type :
  quiet (getTMDbRecommendations cfg fetch tmdbId type).
Proof.
  unfold getTMDbRecommendations. apply quiet_try_catch.
  apply quiet_console; [discriminate|].
  apply quiet_bind; [apply quiet_fetchWithRetry|]. intros a Ha.
  destruct (answered_object _ _ Ha) as [data ->].
  apply quiet_bind; [apply quiet_ret|]. intros found _.
  apply quiet_console; [discriminate | apply quiet_ret].
Qed.

Lemma quiet_handler_body type id_ : quiet (handler_body cfg fetch toFixed type id_).
Proof.
  unfold handler_body. apply quiet_bind; [apply quiet_getTMDbId|].
  intros tmdbId _.
  assert (Q : forall tmdb,
             quiet (console LOG ("[StreamHandler] Fetching source details for TMDb ID: "
                                   ++ JS.string_of_Z tmdb) ;;;
                    sourceDetails <- fetchWithRetry fetch
                                       (details_url cfg (media_type type) tmdb) 3 ;;
                    similar <- getTMDbSimilar cfg fetch tmdb type ;;
                    recommended <- getTMDbRecommendations cfg fetch tmdb type ;;
                    recs <- allRecommendations cfg similar recommended sourceDetails ;;
                    console LOG ("[StreamHandler] Completed. Found "
                                   ++ JS.string_of_nat
                                        (List.length (map (to_stream toFixed (media_type type)) recs))
                                   ++ " recommendations") ;;;
                    ret {| streams := map (to_stream toFixed (media_type type)) recs |})).
  { intros tmdb. apply quiet_console; [discriminate|].
    apply quiet_bind; [apply quiet_fetchWithRetry|]. intros details _.
    apply quiet_bind; [apply quiet_getTMDbSimilar|]. intros similar _.
    apply quiet_bind; [apply quiet_getTMDbRecommendations|]. intros recommended _.
    apply quiet_bind; [apply quiet_allRecommendations|]. intros recs _.
    apply quiet_console; [discriminate | apply quiet_ret]. }
  destruct tmdbId as [[| p | p] |]; try apply Q;
    (apply quiet_console; [discriminate | apply quiet_ret]).
Qed.

End QuietFacts.

(** X18: errors are logged for failures only: against a provider that
    answers every request, within three attempts, with an object of the data
    model (lists of candidates whose identifier is an integer and whose
    other properties are of their type, or missing), the handler logs no error,
    whatever the values of these properties: missing popularity data gives
    warnings. *)
Theorem answered_requests_log_no_error (cfg : config) (fetch : provider)
        (toFixed : float -> nat -> string) (type id_ : string) :
  (forall url, exists data, returns (fetchWithRetry fetch url 3) (Some data)) ->
  no_error_logged (logs (streamHandler cfg fetch toFixed type id_)).
Proof.
  intros H. unfold streamHandler.
  apply (proj1 (quiet_console LOG _ _ ltac:(discriminate)
                  (quiet_try_catch _ _ (quiet_handler_body cfg fetch toFixed H type id_)))).
Qed.

(** ** Output records *)

Section BadgeFacts.

Lemma split_head_nonempty (sep : ascii) (s rest : string) :
  s <> "" -> ~ In sep (list_ascii_of_string s) ->
  JS.truthy_string (Some (JS.split_head sep (s ++ String sep rest))) = true.
Proof.
  intros Hne Hs. rewrite split_head_app by exact Hs.
  destruct s; [contradiction | reflexivity].
Qed.

(** X19: the year of the badge is the release date up to its first
    hyphen: for a release date [year-...] whose [year] is not empty, the
    badge shows [year], whatever the first-air date. *)
Theorem year_badge_of_release_date (rec : ranked) (year rest : string) :
  release_date (base rec) = Some (year ++ String "-" rest) ->
  year <> "" -> ~ In "-"%char (list_ascii_of_string year) ->
  year_badge rec = year.
Proof.
  intros Hd Hne Hy. unfold year_badge, year_of. rewrite Hd. cbn [option_map].
  unfold JS.or_string at 2. rewrite (split_head_nonempty _ _ _ Hne Hy).
  unfold JS.or_string. rewrite (split_head_nonempty _ _ _ Hne Hy).
  apply split_head_app. exact Hy.
Qed.

End BadgeFacts.

(** ** More on the startup *)

Section ConfigFacts.

Variable parseInt : option string -> float.

Lemma int_or_truthy x d : JS.truthy d = true -> JS.truthy (int_or parseInt x d) = true.
Proof.
  intros Hd. unfold int_or, JS.or_number. cbn [JS.ToBoolean JS.ToNumber].
  destruct (JS.truthy (parseInt x)) eqn:E; assumption.
Qed.

(** X20: the configuration of a serving process is set whatever the
    environment holds: the API key is not empty, and each threshold is what
    [parseInt] reads from its variable or else the default (50 and 30), and
    is never zero or NaN. *)
Theorem served_configuration_is_set (env : environment) (served : outcome string)
        (c : config) :
  snd (startup parseInt env served) = Serving c ->
  JS.truthy_string (Some (TMDB_API_KEY c)) = true /\
  JS.truthy (MINIMUM_VOTE_COUNT c) = true /\
  JS.truthy (MAX_RECOMMENDATIONS c) = true /\
  (MINIMUM_VOTE_COUNT c = parseInt (env_MINIMUM_VOTE_COUNT env)
   \/ MINIMUM_VOTE_COUNT c = 50%float) /\
  (MAX_RECOMMENDATIONS c = parseInt (env_MAX_RECOMMENDATIONS env)
   \/ MAX_RECOMMENDATIONS c = 30%float).
Proof.
  unfold startup. pose proof (resolve_key_truthy env) as Hk. rewrite Hk. cbn [negb].
  destruct served as [u | e]; cbn [snd]; [|discriminate].
  intros [= <-]. cbn [TMDB_API_KEY MINIMUM_VOTE_COUNT MAX_RECOMMENDATIONS].
  split; [|split; [|split; [|split]]].
  - destruct (resolve_key env) as [k |]; [exact Hk | discriminate].
  - apply int_or_truthy. reflexivity.
  - apply int_or_truthy. reflexivity.
  - unfold int_or, JS.or_number. cbn [JS.ToBoolean JS.ToNumber].
    destruct (JS.truthy (parseInt (env_MINIMUM_VOTE_COUNT env))); [left | right]; reflexivity.
  - unfold int_or, JS.or_number. cbn [JS.ToBoolean JS.ToNumber].
    destruct (JS.truthy (parseInt (env_MAX_RECOMMENDATIONS env))); [left | right]; reflexivity.
Qed.

End ConfigFacts.

(** ** The properties above at sample inputs *)

(** X1 at the recommendations of the flaky provider, which answer on the
    third attempt. *)
Lemma fetchWithRetry_first_success_witness :
  returns (fetchWithRetry flaky_provider
             (recommendations_url (sample_config 50 30) "movie" 603) 3)
    (Some (listing sample_recommended JS.Undefined)) /\
  logs (fetchWithRetry flaky_provider
          (recommendations_url (sample_config 50 30) "movie" 603) 3) = [].
Proof.
  apply (fetchWithRetry_first_success flaky_provider
           (recommendations_url (sample_config 50 30) "movie" 603) 3 2
           (Some (listing sample_recommended JS.Undefined))).
  - lia.
  - intros [| [| i]] Hi; [eexists; reflexivity | eexists; reflexivity | lia].
  - reflexivity.
Defined.

(** X2 at the same endpoint with two attempts only: both are answered with
    the status 503, and the error thrown is that of the second. *)
Lemma fetchWithRetry_throws_last_error_witness :
  result (fetchWithRetry flaky_provider
            (recommendations_url (sample_config 50 30) "movie" 603) 2)
  = Throw (Error "HTTP error! status: 503").
Proof.
  apply (fetchWithRetry_throws_last_error flaky_provider
           (recommendations_url (sample_config 50 30) "movie" 603) 2
           (fun _ => Error "HTTP error! status: 503")).
  - lia.
  - intros [| [| i]] Hi; [reflexivity | reflexivity | lia].
Defined.

(** X3 at the flaky provider and the fading one, which differ from the
    fourth attempt on. *)
Lemma fetchWithRetry_at_most_retries_attempts_witness :
  fetchWithRetry flaky_provider (recommendations_url (sample_config 50 30) "movie" 603) 3
  = fetchWithRetry fading_provider (recommendations_url (sample_config 50 30) "movie" 603) 3.
Proof.
  apply (fetchWithRetry_at_most_retries_attempts flaky_provider fading_provider
           (recommendations_url (sample_config 50 30) "movie" 603) 3).
  intros [| [| [| i]]] Hi; [reflexivity | reflexivity | reflexivity | lia].
Defined.

(** X6 at a candidate twice as popular as the source title. *)
Lemma popular_candidate_gets_full_component_witness :
  popularityScore (candidate 3 (JS.Num 40) (JS.Num 9) (JS.Num 75)) (source (JS.Num 20))
  = 50%float /\
  returns (calculateRelevanceScore (candidate 3 (JS.Num 40) (JS.Num 9) (JS.Num 75))
             (source (JS.Num 20)))
    (50 + ratingScore (candidate 3 (JS.Num 40) (JS.Num 9) (JS.Num 75)))%float.
Proof.
  apply (popular_candidate_gets_full_component
           (candidate 3 (JS.Num 40) (JS.Num 9) (JS.Num 75)) (source (JS.Num 20)) 40 20);
    reflexivity.
Defined.

(** X8 at the sample lists, with a source title of popularity 0. *)
Lemma unknown_baseline_keeps_fetch_order_witness :
  allRecommendations (sample_config 50 30) sample_similar sample_recommended
    (source (JS.Num 0))
  = ([(WARN, "[calculateRelevanceScore] Missing popularity data");
      (WARN, "[calculateRelevanceScore] Missing popularity data")],
     Ok [ {| base := candidate 1 (JS.Num 10) (JS.Num 8) (JS.Num 100); relevanceScore := 0 |};
          {| base := candidate 3 (JS.Num 40) (JS.Num 9) (JS.Num 75); relevanceScore := 0 |} ]).
Proof.
  apply (unknown_baseline_keeps_fetch_order (sample_config 50 30) sample_similar
           sample_recommended (source (JS.Num 0))).
  reflexivity.
Defined.

(** X9 at a list whose first candidate 2 has 10 votes, and its duplicate
    500. *)
Lemma first_occurrence_decides_witness :
  Forall (fun r => id (base r) <> 2%Z)
    [ {| base := candidate 1 (JS.Num 10) (JS.Num 8) (JS.Num 100); relevanceScore := 65 |} ].
Proof.
  apply (first_occurrence_decides (sample_config 50 30)
           [ candidate 2 (JS.Num 30) (JS.Num 9) (JS.Num 10);
             candidate 1 (JS.Num 10) (JS.Num 8) (JS.Num 100) ]
           [ candidate 2 (JS.Num 30) (JS.Num 9) (JS.Num 500) ]
           (source (JS.Num 20))
           [ {| base := candidate 1 (JS.Num 10) (JS.Num 8) (JS.Num 100); relevanceScore := 65 |} ]
           (candidate 2 (JS.Num 30) (JS.Num 9) (JS.Num 10)));
    reflexivity.
Defined.

(** X10 at the sample lists, with room for 30 records. *)
Lemma every_eligible_candidate_is_listed_witness :
  exists out,
    returns (allRecommendations (sample_config 50 30) sample_similar sample_recommended
               (source (JS.Num 20))) out /\
    Permutation (map base out)
      (eligible (sample_config 50 30) (sample_similar ++ sample_recommended)%list).
Proof.
  apply (every_eligible_candidate_is_listed (sample_config 50 30) sample_similar
           sample_recommended (source (JS.Num 20))).
  vm_compute. discriminate.
Defined.

(** X11 at the sample lists, with room for one record. *)
Lemma truncation_drops_the_lowest_witness :
  exists out dropped,
    returns (allRecommendations (sample_config 50 1) sample_similar sample_recommended
               (source (JS.Num 20))) out /\
    Permutation (out ++ dropped)%list
      (map (rank (source (JS.Num 20)))
         (eligible (sample_config 50 1) (sample_similar ++ sample_recommended)%list)) /\
    Forall (fun r =>
              Forall (fun d => (relevanceScore d <=? relevanceScore r)%float = true) dropped)
           out.
Proof.
  apply (truncation_drops_the_lowest (sample_config 50 1) sample_similar sample_recommended
           (source (JS.Num 20))).
  change (eligible (sample_config 50 1) (sample_similar ++ sample_recommended)%list)
    with [ candidate 1 (JS.Num 10) (JS.Num 8) (JS.Num 100);
           candidate 3 (JS.Num 40) (JS.Num 9) (JS.Num 75) ].
  repeat constructor; intros s Hs; unfold returns in Hs; vm_compute in Hs;
    injection Hs as <-; reflexivity.
Defined.

(** X16 at a provider whose lookup finds the identifier 0. *)
Lemma zero_identifier_is_not_found_witness :
  streamHandler (sample_config 50 30) zero_provider sample_toFixed "movie" "tt0000000"
  = ([(LOG, "[StreamHandler] Processing request for movie:tt0000000");
      (LOG, "[getTMDbId] Searching for movie with IMDb ID: tt0000000");
      (LOG, "[getTMDbId] Found TMDb ID: 0");
      (WARN, "[StreamHandler] No TMDb ID found for movie:tt0000000")],
     Ok {| streams := [] |}).
Proof.
  apply (zero_identifier_is_not_found (sample_config 50 30) zero_provider sample_toFixed
           "movie" "tt0000000"
           (listing [candidate 0 (JS.Num 20) (JS.Num 8) (JS.Num 9000)] (JS.Num 20))
           (candidate 0 (JS.Num 20) (JS.Num 8) (JS.Num 9000)) []);
    reflexivity.
Defined.

(** X18 at the steady provider, whose request runs through the ranking. *)
Lemma answered_requests_log_no_error_witness :
  no_error_logged
    (logs (streamHandler (sample_config 50 30) steady_provider sample_toFixed
             "movie" "tt0133093")).
Proof.
  apply (answered_requests_log_no_error (sample_config 50 30) steady_provider sample_toFixed
           "movie" "tt0133093").
  intros url. eexists. reflexivity.
Defined.

(** X19 at a release date and a different first-air date. *)
Lemma year_badge_of_release_date_witness :
  year_badge (dated (Some "1999-03-31") (Some "2003-05-15")) = "1999".
Proof.
  apply (year_badge_of_release_date (dated (Some "1999-03-31") (Some "2003-05-15"))
           "1999" "03-31").
  - reflexivity.
  - discriminate.
  - cbn. intros [H | [H | [H | [H | []]]]]; discriminate.
Defined.

(** X20 at an environment whose key is empty, whose minimum is read as 0
    and whose maximum is read as 12. *)
Lemma served_configuration_is_set_witness :
  JS.truthy_string (Some fallback_key) = true /\
  JS.truthy 50 = true /\
  JS.truthy 12 = true /\
  (50%float = 0%float \/ 50%float = 50%float) /\
  (12%float = 12%float \/ 12%float = 30%float).
Proof.
  apply (served_configuration_is_set
           (fun x => match x with Some "12" => 12%float | _ => 0%float end)
           {| env_TMDB_API_KEY := Some ""; env_MINIMUM_VOTE_COUNT := Some "0";
              env_MAX_RECOMMENDATIONS := Some "12" |}
           (Ok "http://127.0.0.1:7171")
           {| TMDB_API_KEY := fallback_key; MINIMUM_VOTE_COUNT := 50;
              MAX_RECOMMENDATIONS := 12 |}).
  reflexivity.
Defined.

(** X13 at the sample lists, for the minima 50 and 80. *)
Lemma raising_the_minimum_only_removes_witness :
  eligible (sample_config 80 30) (sample_similar ++ sample_recommended)%list
  = filter (enough_votes (sample_config 80 30))
      (eligible (sample_config 50 30) (sample_similar ++ sample_recommended)%list).
Proof.
  apply (raising_the_minimum_only_removes (sample_config 50 30) (sample_config 80 30)
           (sample_similar ++ sample_recommended)%list).
  reflexivity.
Defined.

(** X17 at the request against the flaky provider, whose answer holds one
    stream. *)
Lemma streams_need_the_source_title_witness :
  exists tmdb details similar recommended recs,
    tmdb <> 0%Z /\
    returns (getTMDbId (sample_config 50 30) flaky_provider
               (JS.split_head ":" "tt0133093:1:2") "movie") (Some tmdb) /\
    returns (fetchWithRetry flaky_provider
               (details_url (sample_config 50 30) (media_type "movie") tmdb) 3) details /\
    returns (getTMDbSimilar (sample_config 50 30) flaky_provider tmdb "movie") similar /\
    returns (getTMDbRecommendations (sample_config 50 30) flaky_provider tmdb "movie")
      recommended /\
    returns (allRecommendations (sample_config 50 30) similar recommended details) recs /\
    [ {| stream_name := "⭐ 8.0 • N/A";
         stream_title := None;
         url := "https://www.themoviedb.org/movie/1";
         thumbnail := None;
         bingeGroup := "cinematch-recommendations" |} ]
    = map (to_stream sample_toFixed (media_type "movie")) recs.
Proof.
  apply (streams_need_the_source_title (sample_config 50 30) flaky_provider sample_toFixed
           "movie" "tt0133093:1:2").
  reflexivity.
Defined.

(** X7 at two candidates of the same score 65, one from each list. *)
Lemma ties_keep_fetch_order_witness :
  exists out rest,
    returns (allRecommendations (sample_config 50 30)
               [ candidate 1 (JS.Num 10) (JS.Num 8) (JS.Num 100) ]
               [ candidate 5 (JS.Num 10) (JS.Num 8) (JS.Num 200) ]
               (source (JS.Num 20))) out /\
    sorted_by_score_desc out /\
    filter (fun r => (relevanceScore r =? 65)%float)
      (map (rank (source (JS.Num 20)))
         (eligible (sample_config 50 30)
            ([ candidate 1 (JS.Num 10) (JS.Num 8) (JS.Num 100) ]
             ++ [ candidate 5 (JS.Num 10) (JS.Num 8) (JS.Num 200) ])%list))
    = (filter (fun r => (relevanceScore r =? 65)%float) out ++ rest)%list.
Proof.
  apply (ties_keep_fetch_order (sample_config 50 30)
           [ candidate 1 (JS.Num 10) (JS.Num 8) (JS.Num 100) ]
           [ candidate 5 (JS.Num 10) (JS.Num 8) (JS.Num 200) ]
           (source (JS.Num 20)) 65).
  change (eligible (sample_config 50 30)
            ([ candidate 1 (JS.Num 10) (JS.Num 8) (JS.Num 100) ]
             ++ [ candidate 5 (JS.Num 10) (JS.Num 8) (JS.Num 200) ])%list)
    with [ candidate 1 (JS.Num 10) (JS.Num 8) (JS.Num 100);
           candidate 5 (JS.Num 10) (JS.Num 8) (JS.Num 200) ].
  repeat constructor; intros s Hs; unfold returns in Hs; vm_compute in Hs;
    injection Hs as <-; reflexivity.
Defined.

